(** * Generational Agent Succession: a shallow embedding of the orchestrator

    The development follows the Python sources of the repository:

    - [scripts/check-triggers.py]      (modules [Trigger], [TriggerCli])
    - [scripts/gas-orchestrator.py]    (module [TriggerCli])
    - [scripts/knowledge-store.py]     (modules [Knowledge], [KnowledgeOps],
                                        [KnowledgePrune])
    - [scripts/wave-manager.py]        (modules [Swarm], [WaveManagerCli],
                                        [WaveStatus])
    - [scripts/swarm-orchestrator.py]  (modules [Swarm], [SwarmOrchestrator],
                                        [SwarmInit])
    - [dashboard/server/output_parser.py] (modules [Json], [Parser], [ParserOps])
    - [dashboard/server/file_tracker.py]  (modules [Tracker], [TrackerOps],
                                           [Cache])
    - [dashboard/server/gas_status.py]    (modules [AgentStatus], [AgentView],
                                           [WaveView])

    Conventions.  Python [float]s are embedded as exact rationals ([Q]),
    Python [int]s as [Z], [str] as [string] (ASCII text, one character per
    byte), [dict]s used as records as Rocq records, [dict]s used as maps as
    [gmap]s or, where the iteration order matters, as association lists.
    Reads of the clock are explicit arguments. *)

From Stdlib Require Import Ascii String.
From stdpp Require Import base option list gmap strings pretty.

Set Warnings "-register-all".
From Stdlib Require Import ZArith QArith Qminmax Lia Permutation Sorted.

Local Open Scope Z_scope.

(** ** Python's two-argument [min] and [max] on numbers

    [min(a, b)] answers [b] only when [b < a]; [max(a, b)] answers [b] only
    when [b > a]. *)

Definition Qltb (x y : Q) : bool := negb (Qle_bool y x).

Definition py_min (a b : Q) : Q := if Qltb b a then b else a.
Definition py_max (a b : Q) : Q := if Qltb a b then b else a.

(** * The trigger evaluator ([scripts/check-triggers.py]) *)

Module Trigger.

Inductive Factor := Interactions | Confidence | Errors | Stall.

#[global] Instance Factor_eq_dec : EqDecision Factor.
Proof. solve_decision. Defined.

(** [WEIGHTS] *)
Definition WEIGHTS (k : Factor) : Q :=
  match k with
  | Interactions => 25 # 100
  | Confidence => 30 # 100
  | Errors => 25 # 100
  | Stall => 20 # 100
  end.

(** [THRESHOLDS] *)
Definition interaction_limit : Q := 150.
Definition confidence_min : Q := 70 # 100.
Definition error_rate_max : Q := 15 # 100.
Definition stall_minutes_limit : Q := 10.

(** The [last_updated] entry of [status.json]: absent (or empty), a string
    that [datetime.fromisoformat] rejects, or a time stamp, given by the
    seconds its clock fields count.  The source subtracts it from the UTC
    clock relabelled with the stamp's own zone, so only the clock fields
    of the stamp take part. *)
Inductive LastUpdated :=
| NoStamp
| BadStamp
| At (seconds : Q).

(** [status.json], with the entries [evaluate_triggers] reads; [None] is a
    missing key. *)
Record Status := mkStatus {
  interactions : option Z;
  confidence : option Q;
  errors : option Z;
  last_updated : LastUpdated
}.

Inductive Urgency := immediate | soon | none.

Record Verdict := mkVerdict {
  should_handoff : bool;
  urgency : Urgency;
  primary_trigger : Factor;
  scores : list (Factor * Q);
  weighted_score : Q
}.

(** [scores.get] on the insertion-ordered dictionary. *)
Fixpoint scores_get (sc : list (Factor * Q)) (k : Factor) : Q :=
  match sc with
  | [] => 0
  | (k', v) :: rest => if decide (k' = k) then v else scores_get rest k
  end.

(** [max(scores, key=scores.get)]: the keys are visited in insertion
    order and the running best is replaced only by a strictly larger
    value. *)
Fixpoint max_by_from (best : Factor * Q) (rest : list (Factor * Q)) : Factor :=
  match rest with
  | [] => fst best
  | kv :: rest' =>
      if Qltb (snd best) (snd kv) then max_by_from kv rest'
      else max_by_from best rest'
  end.

(** [sum(scores[k] * WEIGHTS[k] for k in scores)], starting from [0]. *)
Definition weighted_sum (sc : list (Factor * Q)) : Q :=
  fold_left (fun acc kv => (acc + snd kv * WEIGHTS (fst kv))%Q) sc 0%Q.

Definition evaluate_triggers (now : Q) (status : Status) : Verdict :=
  let interactions := default 0 (interactions status) in
  let s_interactions := py_min (inject_Z interactions / interaction_limit) 1 in
  let confidence := default 1%Q (confidence status) in
  let s_confidence := py_max 0 (1 - confidence / confidence_min) in
  let errors := default 0 (errors status) in
  let total_actions := Z.max interactions 1 in
  let error_rate := (inject_Z errors / inject_Z total_actions)%Q in
  let s_errors := py_min (error_rate / error_rate_max) 1 in
  let stall_score :=
    match last_updated status with
    | At last_time =>
        let stall_minutes := ((now - last_time) / 60)%Q in
        py_min (stall_minutes / stall_minutes_limit) 1
    | NoStamp | BadStamp => 0%Q
    end in
  let scores := [ (Interactions, s_interactions); (Confidence, s_confidence);
                  (Errors, s_errors); (Stall, stall_score) ] in
  let weighted := weighted_sum scores in
  let '(urg, handoff) :=
    if Qltb (70 # 100) weighted then (immediate, true)
    else if Qltb (50 # 100) weighted then (soon, true)
    else (none, false) in
  let primary := max_by_from (Interactions, s_interactions)
                   [ (Confidence, s_confidence); (Errors, s_errors);
                     (Stall, stall_score) ] in
  mkVerdict handoff urg primary scores weighted.

End Trigger.

(** The trigger table as the specification words it; compared with
    [Trigger.evaluate_triggers] in the second part. *)

Module TriggerSpec.
Import Trigger.

Definition interactions_score (interactions : Z) : Q :=
  Qmin (inject_Z interactions / 150) 1.

Definition confidence_score (confidence : Q) : Q :=
  Qmax 0 (1 - confidence / (70 # 100)).

Definition errors_score (interactions errors : Z) : Q :=
  Qmin ((inject_Z errors / inject_Z (Z.max interactions 1)) / (15 # 100)) 1.

Definition stall_score (seconds_since_update : Q) : Q :=
  Qmin ((seconds_since_update / 60) / 10) 1.

Definition weighted (si sc se ss : Q) : Q :=
  ((25 # 100) * si + (30 # 100) * sc + (25 # 100) * se + (20 # 100) * ss)%Q.

Definition urgency_of (score : Q) : Urgency :=
  if Qlt_le_dec (70 # 100) score then immediate
  else if Qlt_le_dec (50 # 100) score then soon
  else none.

(** The fixed order of the factors. *)
Definition rank (k : Factor) : nat :=
  match k with
  | Interactions => 0
  | Confidence => 1
  | Errors => 2
  | Stall => 3
  end.

(** The raw score of a factor in a verdict. *)
Definition score_of (v : Verdict) (k : Factor) : Q := scores_get (scores v) k.

End TriggerSpec.

(** * Strings as Python uses them in the knowledge store *)

Module PyStr.

(** [str.lower] on ASCII text: the letters [A]..[Z] move to [a]..[z], every
    other character stays. *)
Definition lower_char (c : ascii) : ascii :=
  let n := nat_of_ascii c in
  if (65 <=? n)%nat && (n <=? 90)%nat then ascii_of_nat (n + 32) else c.

Fixpoint lower (s : string) : string :=
  match s with
  | EmptyString => EmptyString
  | String c rest => String (lower_char c) (lower rest)
  end.

(** [needle in hay] *)
Fixpoint contains (needle hay : string) : bool :=
  String.prefix needle hay ||
  match hay with
  | EmptyString => false
  | String _ rest => contains needle rest
  end.

(** [s.endswith(suffix)] *)
Definition endswith (s suffix : string) : bool :=
  let n := String.length s in
  let k := String.length suffix in
  (k <=? n)%nat && String.eqb (String.substring (n - k) k s) suffix.

(** [x or default] on an optional string: [None] and the empty string are
    both falsy. *)
Definition or_default (x : option string) (d : string) : string :=
  match x with
  | Some (String c rest) => String c rest
  | _ => d
  end.

End PyStr.

(** * The knowledge store ([scripts/knowledge-store.py]) *)

Module Knowledge.

(** [DEFAULT_CONFIG] *)
Definition max_success_patterns : nat := 50.
Definition max_anti_patterns : nat := 25.
Definition max_domain_knowledge : nat := 100.
Definition min_confidence : Q := 60 # 100.
Definition default_confidence : Q := 75 # 100.
Definition decay_rate : Q := 10 # 100.
Definition promotion_threshold : Z := 3.

(** [generate_id]: the first eight hexadecimal digits of the MD5 digest of
    the content.  The digest is not computed here: an id is kept as the term
    that names it, so equal terms stand for equal ids. *)
Inductive Id := Md5Hex8 (content : string).

Definition generate_id (content : string) : Id := Md5Hex8 content.

(** The entry that depends on the kind of the pattern. *)
Inductive KindField :=
| NoKindField
| Evidence (text : string)
| Impact (text : string)
| Category (text : string).

(** A pattern entry, with the keys [add_pattern] writes. *)
Record Entry := mkEntry {
  id : Id;
  context : string;
  pattern : string;
  confidence : Q;
  added_at : string;
  last_seen : string;
  occurrences : Z;
  source_generation : option Z;
  source_agent : option string;
  kind_field : KindField
}.

Record Store := mkStore {
  created : string;
  last_updated : string;
  generations_completed : Z;
  success_patterns : list Entry;
  anti_patterns : list Entry;
  domain_knowledge : list Entry
}.

(** [create_empty_store] *)
Definition create_empty_store (now : string) : Store :=
  mkStore now now 0 [] [] [].

(** [store.get(key, [])] for the keys a pattern type can lead to. *)
Definition store_get (store : Store) (key : string) : list Entry :=
  if String.eqb key "success_patterns" then success_patterns store
  else if String.eqb key "anti_patterns" then anti_patterns store
  else if String.eqb key "domain_knowledge" then domain_knowledge store
  else [].

(** Writing back the list a key names; other keys hold no list. *)
Definition store_set (store : Store) (key : string) (l : list Entry) : Store :=
  if String.eqb key "success_patterns" then
    mkStore (created store) (last_updated store) (generations_completed store)
            l (anti_patterns store) (domain_knowledge store)
  else if String.eqb key "anti_patterns" then
    mkStore (created store) (last_updated store) (generations_completed store)
            (success_patterns store) l (domain_knowledge store)
  else if String.eqb key "domain_knowledge" then
    mkStore (created store) (last_updated store) (generations_completed store)
            (success_patterns store) (anti_patterns store) l
  else store.

Definition set_last_updated (store : Store) (now : string) : Store :=
  mkStore (created store) now (generations_completed store)
          (success_patterns store) (anti_patterns store) (domain_knowledge store).

(** The key [find_similar_pattern] looks up:
    [f"{pattern_type}s" if not pattern_type.endswith("s") else pattern_type]. *)
Definition list_key (pattern_type : string) : string :=
  if PyStr.endswith pattern_type "s" then pattern_type
  else (pattern_type ++ "s")%string.

(** The test inside the loop of [find_similar_pattern]. *)
Definition similar (pattern_lower : string) (p : Entry) : bool :=
  let existing := PyStr.lower (pattern p) in
  String.eqb existing pattern_lower
  || PyStr.contains existing pattern_lower
  || PyStr.contains pattern_lower existing.

(** The position of the first entry the loop returns. *)
Fixpoint find_index (pattern_lower : string) (patterns : list Entry) : option nat :=
  match patterns with
  | [] => None
  | p :: rest =>
      if similar pattern_lower p then Some 0%nat
      else S <$> find_index pattern_lower rest
  end.

(** [find_similar_pattern] answers a reference into the list; the embedding
    answers the position together with the entry found there. *)
Definition find_similar_pattern (store : Store) (pattern_type pattern : string)
  : option (nat * Entry) :=
  let patterns := store_get store (list_key pattern_type) in
  match find_index (PyStr.lower pattern) patterns with
  | Some i => (fun p => (i, p)) <$> patterns !! i
  | None => None
  end.

(** [sorted(patterns, key=confidence, reverse=True)]: a stable sort, entries
    of equal confidence keep their order. *)
Fixpoint insert_desc (x : Entry) (l : list Entry) : list Entry :=
  match l with
  | [] => [x]
  | y :: rest =>
      if Qltb (confidence x) (confidence y) then y :: insert_desc x rest
      else x :: y :: rest
  end.

Definition sort_desc (l : list Entry) : list Entry := foldr insert_desc [] l.

(** [prune_by_confidence] *)
Definition prune_by_confidence (patterns : list Entry) (max_count : nat) : list Entry :=
  take max_count (sort_desc patterns).

(** The update of an entry found by [find_similar_pattern]. *)
Definition reinforce (now : string) (existing : Entry) : Entry :=
  let occ := occurrences existing + 1 in
  mkEntry (id existing) (context existing) (pattern existing)
          (if promotion_threshold <=? occ
           then py_min 1 (confidence existing + (5 # 100))
           else confidence existing)
          (added_at existing) now occ
          (source_generation existing) (source_agent existing)
          (kind_field existing).

(** Appending to a list and enforcing its limit. *)
Definition append_capped (l : list Entry) (entry : Entry) (cap : nat) : list Entry :=
  let l' := l ++ [entry] in
  if (cap <? length l')%nat then prune_by_confidence l' cap else l'.

(** [add_pattern]; the answer is the store after the call and the entry the
    call returns. *)
Definition add_pattern (now : string) (store : Store)
    (pattern_type context pattern : string) (confidence : option Q)
    (source_gen : option Z) (source_agent evidence impact : option string)
  : Store * Entry :=
  let confidence := default default_confidence confidence in
  match find_similar_pattern store pattern_type pattern with
  | Some (i, existing) =>
      let existing' := reinforce now existing in
      let key := list_key pattern_type in
      let store' := store_set store key (<[i := existing']> (store_get store key)) in
      (set_last_updated store' now, existing')
  | None =>
      let entry := mkEntry (generate_id (context ++ ":" ++ pattern)%string)
                           context pattern confidence now now 1
                           source_gen source_agent NoKindField in
      if String.eqb pattern_type "success_pattern" then
        let entry := mkEntry (id entry) context pattern confidence now now 1
                       source_gen source_agent
                       (Evidence (PyStr.or_default evidence "Observed to work well")) in
        let store' := store_set store "success_patterns"
                        (append_capped (success_patterns store) entry max_success_patterns) in
        (set_last_updated store' now, entry)
      else if String.eqb pattern_type "anti_pattern" then
        let entry := mkEntry (id entry) context pattern confidence now now 1
                       source_gen source_agent
                       (Impact (PyStr.or_default impact "Caused issues")) in
        let store' := store_set store "anti_patterns"
                        (append_capped (anti_patterns store) entry max_anti_patterns) in
        (set_last_updated store' now, entry)
      else if String.eqb pattern_type "domain_knowledge" then
        let entry := mkEntry (id entry) context pattern confidence now now 1
                       source_gen source_agent (Category context) in
        let store' := store_set store "domain_knowledge"
                        (append_capped (domain_knowledge store) entry max_domain_knowledge) in
        (set_last_updated store' now, entry)
      else (set_last_updated store now, entry)
  end.

(** The change [decay_unused_patterns] makes to one entry. *)
Definition decays (current_generation : Z) (p : Entry) : bool :=
  match source_generation p with
  | Some source_gen =>
      negb (source_gen =? 0) && (2 <? current_generation - source_gen)
      && (occurrences p <=? 1)
  | None => false
  end.

Definition decay_entry (current_generation : Z) (p : Entry) : Entry :=
  if decays current_generation p then
    mkEntry (id p) (context p) (pattern p)
            (py_max (1 # 10) (confidence p - decay_rate))
            (added_at p) (last_seen p) (occurrences p)
            (source_generation p) (source_agent p) (kind_field p)
  else p.

Definition count_decayed (current_generation : Z) (l : list Entry) : Z :=
  Z.of_nat (length (filter (fun p => decays current_generation p = true) l)).

(** [decay_unused_patterns]; the answer is the store after the call and the
    two counters of [affected]. *)
Definition decay_unused_patterns (now : string) (store : Store)
    (current_generation : Z) : Store * (Z * Z) :=
  let store' :=
    mkStore (created store) now (generations_completed store)
            (decay_entry current_generation <$> success_patterns store)
            (decay_entry current_generation <$> anti_patterns store)
            (domain_knowledge store) in
  (store', (count_decayed current_generation (success_patterns store),
            count_decayed current_generation (anti_patterns store))).

(** The arguments of one call of [add_pattern], the clock included. *)
Record AddCall := mkAddCall {
  call_now : string;
  call_type : string;
  call_context : string;
  call_pattern : string;
  call_confidence : option Q;
  call_source_gen : option Z;
  call_source_agent : option string;
  call_evidence : option string;
  call_impact : option string
}.

Definition run_add (store : Store) (c : AddCall) : Store * Entry :=
  add_pattern (call_now c) store (call_type c) (call_context c) (call_pattern c)
              (call_confidence c) (call_source_gen c) (call_source_agent c)
              (call_evidence c) (call_impact c).

(** The store after a sequence of calls, the stores handed from call to
    call. *)
Definition run_adds (store : Store) (calls : list AddCall) : Store :=
  fold_left (fun s c => fst (run_add s c)) calls store.

End Knowledge.

(** The promises about the knowledge store as the specification words them;
    compared with the functions of [Knowledge] in the second part. *)

Module KnowledgeSpec.
Import Knowledge.

(** The three kinds with the list each is stored in and its hard cap. *)
Definition target (pattern_type : string) : option (string * nat) :=
  if String.eqb pattern_type "success_pattern" then Some ("success_patterns"%string, 50%nat)
  else if String.eqb pattern_type "anti_pattern" then Some ("anti_patterns"%string, 25%nat)
  else if String.eqb pattern_type "domain_knowledge" then Some ("domain_knowledge"%string, 100%nat)
  else None.

(** Every list is within its hard cap. *)
Definition within_caps (store : Store) : Prop :=
  (length (success_patterns store) <= 50)%nat /\
  (length (anti_patterns store) <= 25)%nat /\
  (length (domain_knowledge store) <= 100)%nat.

(** [kept] holds the [cap] entries of highest confidence of [all]: with the
    entries left out it makes up [all], and no entry left out has a higher
    confidence than an entry kept. *)
Definition top_by_confidence (cap : nat) (all kept : list Entry) : Prop :=
  length kept = cap /\
  exists dropped : list Entry,
    Permutation (kept ++ dropped) all /\
    forall x y : Entry, In x kept -> In y dropped -> (confidence y <= confidence x)%Q.

(** An entry that [decay] is to weaken: its source generation is known, not
    zero and more than two generations behind, and it was seen once. *)
Definition stale (current_generation : Z) (p : Entry) : Prop :=
  exists source_gen : Z,
    source_generation p = Some source_gen /\ source_gen <> 0 /\
    2 < current_generation - source_gen /\ occurrences p <= 1.

(** Two entries that differ at most in their confidence. *)
Definition same_but_confidence (p q : Entry) : Prop :=
  id p = id q /\ context p = context q /\ pattern p = pattern q /\
  added_at p = added_at q /\ last_seen p = last_seen q /\
  occurrences p = occurrences q /\ source_generation p = source_generation q /\
  source_agent p = source_agent q /\ kind_field p = kind_field q.

(** Two patterns that count as the same: equal without regard to case, or
    one inside the other. *)
Definition alike (a b : string) : Prop :=
  let a := PyStr.lower a in
  let b := PyStr.lower b in
  a = b \/ PyStr.contains a b = true \/ PyStr.contains b a = true.

(** Descending order: every entry is at least as confident as each entry
    after it. *)
Definition descending (l : list Entry) : Prop :=
  StronglySorted (fun x y => (confidence y <= confidence x)%Q) l.

(** The lengths of the three lists. *)
Definition lengths (s : Store) : nat * nat * nat :=
  (length (success_patterns s), length (anti_patterns s), length (domain_knowledge s)).

(** What [decay] makes of one entry. *)
Definition decayed_from (current_generation : Z) (p p' : Entry) : Prop :=
  same_but_confidence p p' /\
  (stale current_generation p ->
   (confidence p' == Qmax (1 # 10) (confidence p - (1 # 10)))%Q) /\
  (~ stale current_generation p -> p' = p).

End KnowledgeSpec.

(** * The swarm state ([gas-state.json]) and the generation status files *)

Module Swarm.

(** An entry of [state["agents"]]; [None] is a missing key. *)
Record Agent := mkAgent {
  agent_status : option string;
  current_generation : option Z;
  agent_last_updated : option string
}.

(** An entry of [state["waves"]]. *)
Record Wave := mkWave {
  wave_agents : list string;
  wave_status : option string;
  started_at : option string;
  completed_at : option string
}.

(** [gas-state.json].  The JSON object [waves] is keyed by the decimal
    spelling of the wave number; the map below is keyed by the number, which
    stands for the lookup [waves.get(str(n), waves.get(n, {}))]. *)
Record State := mkState {
  current_wave : option Z;
  total_waves : option Z;
  waves : gmap Z Wave;
  agents : gmap string Agent
}.

(** The [status.json] written when a generation is spawned. *)
Record GenStatus := mkGenStatus {
  gen_generation : Z;
  gen_agent_id : string;
  gen_status : string;
  gen_started_at : string;
  gen_interactions : Z;
  gen_progress : Q;
  gen_confidence : Q;
  gen_errors : Z
}.

(** The workspace: the state and the status files under
    [agents/<id>/generations/gen-<n>/]. *)
Record Workspace := mkWorkspace {
  state : State;
  gen_files : gmap (string * Z) GenStatus
}.

Definition get_current_wave (st : State) : Z := default 1 (current_wave st).
Definition get_total_waves (st : State) : Z := default 1 (total_waves st).

(** [waves.get(str(wave), waves.get(wave, {})).get("agents", [])] *)
Definition get_wave_agents (st : State) (wave : Z) : list string :=
  match waves st !! wave with
  | Some w => wave_agents w
  | None => []
  end.

(** [agents.get(agent_id, {}).get("status") in ["completed", "succeeded"]] *)
Definition agent_done (st : State) (agent_id : string) : bool :=
  match agents st !! agent_id with
  | Some a =>
      match agent_status a with
      | Some s => String.eqb s "completed" || String.eqb s "succeeded"
      | None => false
      end
  | None => false
  end.

(** [agents.get(agent_id, {}).get("current_generation", 0) == 0] *)
Definition unspawned (st : State) (agent_id : string) : bool :=
  match agents st !! agent_id with
  | Some a => default 0 (current_generation a) =? 0
  | None => true
  end.

Definition set_current_wave (st : State) (n : Z) : State :=
  mkState (Some n) (total_waves st) (waves st) (agents st).

Definition set_waves (st : State) (ws : gmap Z Wave) : State :=
  mkState (current_wave st) (total_waves st) ws (agents st).

Definition set_agents (st : State) (ags : gmap string Agent) : State :=
  mkState (current_wave st) (total_waves st) (waves st) ags.

Definition mark_running (now : string) (w : Wave) : Wave :=
  mkWave (wave_agents w) (Some "running"%string) (Some now) (completed_at w).

Definition mark_completed (now : string) (w : Wave) : Wave :=
  mkWave (wave_agents w) (Some "completed"%string) (started_at w) (Some now).

(** The first [status.json] of generation 1. *)
Definition first_generation (now agent_id : string) : GenStatus :=
  mkGenStatus 1 agent_id "running" now 0 0 1 0.

End Swarm.

(** * The wave commands ([scripts/wave-manager.py]) *)

Module WaveManagerCli.
Import Swarm.

(** [can_advance_wave], for a state file that can be read. *)
Definition can_advance_wave (st : State) : bool :=
  let current := get_current_wave st in
  let total := get_total_waves st in
  if total <=? current then false
  else
    let incomplete :=
      filter (fun a => agent_done st a = false) (get_wave_agents st current) in
    match incomplete with
    | [] => true
    | _ :: _ => false
    end.

(** [advance_wave]: the answer and the state file after the call. *)
Definition advance_wave (now : string) (st : State) : bool * State :=
  if can_advance_wave st then
    let current := get_current_wave st in
    let st1 := set_current_wave st (current + 1) in
    let ws1 := alter (mark_running now) (current + 1) (waves st1) in
    let ws2 := alter (mark_completed now) current ws1 in
    (true, set_waves st1 ws2)
  else (false, st).

(** One turn of the loop of [spawn_wave_agents]. *)
Definition spawn_one (now : string) (ws : Workspace) (agent_id : string) : Workspace :=
  let st := state ws in
  if unspawned st agent_id then
    let files := <[(agent_id, 1) := first_generation now agent_id]> (gen_files ws) in
    let ags :=
      alter (fun a => mkAgent (Some "running"%string) (Some 1) (agent_last_updated a))
            agent_id (agents st) in
    mkWorkspace (set_agents st ags) files
  else ws.

(** [spawn_wave_agents] *)
Definition spawn_wave_agents (now : string) (ws : Workspace) (wave : Z) : Workspace :=
  fold_left (spawn_one now) (get_wave_agents (state ws) wave) ws.

End WaveManagerCli.

(** * The wave manager of the swarm loop ([scripts/swarm-orchestrator.py]) *)

Module SwarmOrchestrator.
Import Swarm.

(** [WaveManager.is_wave_complete] *)
Definition is_wave_complete (st : State) (wave : Z) : bool :=
  forallb (agent_done st) (get_wave_agents st wave).

(** [WaveManager.advance_wave]: the answer and [self.state] after the call. *)
Definition advance_wave (now : string) (st : State) : bool * State :=
  let current := get_current_wave st in
  let total := get_total_waves st in
  if total <=? current then (false, st)
  else if negb (is_wave_complete st current) then (false, st)
  else
    let st1 := set_current_wave st (current + 1) in
    (true, set_waves st1 (alter (mark_running now) (current + 1) (waves st1))).

(** [WaveManager.update_agent_status] *)
Definition update_agent_status (now : string) (st : State) (agent_id status : string)
    (generation : option Z) : State :=
  set_agents st
    (alter (fun a =>
              mkAgent (Some status)
                      (match generation with
                       | Some g => if g =? 0 then current_generation a else Some g
                       | None => current_generation a
                       end)
                      (Some now))
           agent_id (agents st)).

(** [WaveManager.spawn_agent_generation]; the role and the focus copied from
    the agent's [config.json] are not part of the embedding. *)
Definition spawn_agent_generation (now : string) (ws : Workspace) (agent_id : string)
    (generation : Z) : Workspace :=
  let status := mkGenStatus generation agent_id "running" now 0 0 1 0 in
  mkWorkspace (update_agent_status now (state ws) agent_id "running" (Some generation))
              (<[(agent_id, generation) := status]> (gen_files ws)).

(** One turn of the spawning loop of [run_swarm]. *)
Definition spawn_step (now : string) (ws : Workspace) (agent_id : string) : Workspace :=
  if unspawned (state ws) agent_id
  then spawn_agent_generation now ws agent_id 1
  else ws.

(** The spawning loop of [run_swarm] over the agents of the current wave. *)
Definition spawn_current_wave (now : string) (ws : Workspace) : Workspace :=
  fold_left (spawn_step now)
            (get_wave_agents (state ws) (get_current_wave (state ws))) ws.

(** [WaveManager.check_all_complete] *)
Definition check_all_complete (st : State) : bool :=
  bool_decide (map_Forall (fun id _ => agent_done st id = true) (agents st)).

(** One pass of the monitoring loop of [run_swarm] on a state in which some
    agent is still at work: try to advance, then spawn. *)
Definition advance_and_spawn (now : string) (ws : Workspace) : bool * Workspace :=
  let '(advanced, st') := advance_wave now (state ws) in
  (advanced, spawn_current_wave now (mkWorkspace st' (gen_files ws))).

End SwarmOrchestrator.

(** The promises about the waves as the specification words them. *)

Module WaveSpec.
Import Swarm.

(** Every agent of the wave is done. *)
Definition wave_done (st : State) (wave : Z) : Prop :=
  forall a : string, In a (get_wave_agents st wave) -> agent_done st a = true.

(** The agent has its first generation: the status file is there and the
    registry says so. *)
Definition spawned (now : string) (ws : Workspace) (a : string) : Prop :=
  gen_files ws !! (a, 1) = Some (mkGenStatus 1 a "running" now 0 0 1 0) /\
  exists ag : Agent,
    agents (state ws) !! a = Some ag /\
    agent_status ag = Some "running"%string /\ current_generation ag = Some 1.

(** The agent is registered and has no generation yet. *)
Definition awaiting (ws : Workspace) (a : string) : Prop :=
  exists ag : Agent,
    agents (state ws) !! a = Some ag /\ default 0 (current_generation ag) = 0.

End WaveSpec.

(** * Decoded JSON values and the Python renderings of them *)

Module Json.

(** What [json.loads] answers.  Numbers are integers; Python's [None] is
    [JNull].  An object keeps its keys in order, each key once. *)
Inductive JSON :=
| JNull
| JBool (b : bool)
| JInt (n : Z)
| JStr (s : string)
| JList (items : list JSON)
| JObj (fields : list (string * JSON)).

(** Truth of a value in a condition. *)
Definition truthy (j : JSON) : bool :=
  match j with
  | JNull => false
  | JBool b => b
  | JInt n => negb (n =? 0)
  | JStr s => negb (String.eqb s "")
  | JList l => match l with [] => false | _ => true end
  | JObj f => match f with [] => false | _ => true end
  end.

Fixpoint assoc (fields : list (string * JSON)) (key : string) : option JSON :=
  match fields with
  | [] => None
  | (k, v) :: rest => if String.eqb k key then Some v else assoc rest key
  end.

(** [d.get(key, dflt)] on a dictionary given by its fields *)
Definition get_or (fields : list (string * JSON)) (key : string) (dflt : JSON) : JSON :=
  default dflt (assoc fields key).

(** [d.get(key)] *)
Definition get (fields : list (string * JSON)) (key : string) : JSON :=
  get_or fields key JNull.

(** [key in d] *)
Definition has_key (fields : list (string * JSON)) (key : string) : bool :=
  match assoc fields key with Some _ => true | None => false end.

(** [value == "text"] *)
Definition is_str (j : JSON) (text : string) : bool :=
  match j with JStr s => String.eqb s text | _ => false end.

(** [a or b] *)
Definition py_or (a b : JSON) : JSON := if truthy a then a else b.

Definition hex_digit (n : nat) : ascii :=
  ascii_of_nat (if (n <? 10)%nat then 48 + n else 87 + n).

Definition hex2 (n : nat) : string :=
  String (hex_digit (n / 16)) (String (hex_digit (n mod 16)) EmptyString).

(** The escape of one character inside [json.dumps] with [ensure_ascii]. *)
Definition dumps_char (c : ascii) : string :=
  let n := nat_of_ascii c in
  if (n =? 34)%nat then String (ascii_of_nat 92) (String c EmptyString)
  else if (n =? 92)%nat then "\\"
  else if (n =? 8)%nat then "\b"
  else if (n =? 12)%nat then "\f"
  else if (n =? 10)%nat then "\n"
  else if (n =? 13)%nat then "\r"
  else if (n =? 9)%nat then "\t"
  else if (n <? 32)%nat || (126 <? n)%nat then ("\u00" ++ hex2 n)%string
  else String c EmptyString.

Fixpoint dumps_str_body (s : string) : string :=
  match s with
  | EmptyString => EmptyString
  | String c rest => (dumps_char c ++ dumps_str_body rest)%string
  end.

Definition dumps_str (s : string) : string :=
  (String (ascii_of_nat 34) (dumps_str_body s) ++ String (ascii_of_nat 34) EmptyString)%string.

Definition join (sep : string) (parts : list string) : string :=
  match parts with
  | [] => EmptyString
  | p :: rest => fold_left (fun acc q => (acc ++ sep ++ q)%string) rest p
  end.

(** [json.dumps(value)] with the default separators. *)
Fixpoint dumps (j : JSON) : string :=
  match j with
  | JNull => "null"
  | JBool true => "true"
  | JBool false => "false"
  | JInt n => pretty n
  | JStr s => dumps_str s
  | JList items => ("[" ++ join ", " (map dumps items) ++ "]")%string
  | JObj fields =>
      ("{" ++ join ", " (map (fun kv => (dumps_str (fst kv) ++ ": " ++ dumps (snd kv))%string)
                              fields) ++ "}")%string
  end.

(** [repr] of a string: single quotes unless the text holds a single quote
    and no double quote. *)
Definition has_char (n : nat) (s : string) : bool :=
  existsb (fun c => (nat_of_ascii c =? n)%nat) (list_ascii_of_string s).

Definition repr_char (quote : nat) (c : ascii) : string :=
  let n := nat_of_ascii c in
  if (n =? quote)%nat || (n =? 92)%nat then String (ascii_of_nat 92) (String c EmptyString)
  else if (n =? 9)%nat then "\t"
  else if (n =? 10)%nat then "\n"
  else if (n =? 13)%nat then "\r"
  else if (n <? 32)%nat || (n =? 127)%nat
          || ((128 <=? n)%nat && (n <=? 160)%nat) || (n =? 173)%nat
       then ("\x" ++ hex2 n)%string
  else String c EmptyString.

Definition repr_str (s : string) : string :=
  let quote := if has_char 39 s && negb (has_char 34 s) then 34%nat else 39%nat in
  let q := String (ascii_of_nat quote) EmptyString in
  (q ++ fold_right (fun c acc => (repr_char quote c ++ acc)%string) EmptyString
                   (list_ascii_of_string s) ++ q)%string.

(** [str(value)] of a list or a dictionary, and [repr] of what they hold. *)
Fixpoint repr (j : JSON) : string :=
  match j with
  | JNull => "None"
  | JBool true => "True"
  | JBool false => "False"
  | JInt n => pretty n
  | JStr s => repr_str s
  | JList items => ("[" ++ join ", " (map repr items) ++ "]")%string
  | JObj fields =>
      ("{" ++ join ", " (map (fun kv => (repr_str (fst kv) ++ ": " ++ repr (snd kv))%string)
                              fields) ++ "}")%string
  end.

End Json.

(** * What a modelled call can come to *)

Module Outcome.

(** A call returns, raises an exception that the caller does not catch, or
    leaves the part of the source that is embedded here. *)
Inductive t (A : Type) :=
| Returns (a : A)
| Raises
| NotEmbedded.
Arguments Returns {A} a.
Arguments Raises {A}.
Arguments NotEmbedded {A}.

Definition bind {A B} (m : t A) (k : A -> t B) : t B :=
  match m with
  | Returns a => k a
  | Raises => Raises
  | NotEmbedded => NotEmbedded
  end.

End Outcome.

#[global] Instance outcome_ret : MRet Outcome.t := @Outcome.Returns.
#[global] Instance outcome_bind : MBind Outcome.t :=
  fun A B k m => Outcome.bind m k.

(** * The event parser ([dashboard/server/output_parser.py]) *)

Module Parser.
Import Json Outcome.

(** [config.py] *)
Definition double_quote : string := String (ascii_of_nat 34) EmptyString.

Definition COMPLETION_MARKERS : list string :=
  [ "EVOLUTION COMPLETE"; "Task completed"; "All tasks completed";
    ("status" ++ double_quote ++ ": " ++ double_quote ++ "completed" ++ double_quote);
    "Successfully completed"; "Finished all"; "COMPLETED"; "Done!";
    "Generation complete"; "Agent complete"; "Complete."; "Finished.";
    "Mission accomplished"; "Operation complete"; "Process complete";
    "Execution finished" ]%string.

(** A [datetime]: whether it carries a zone, and the instant it names in
    microseconds, its clock fields read as UTC when it carries none. *)
Record DateTime := mkDateTime {
  aware : bool;
  micros : Z
}.

(** [ParsedOutput], without the live feed. *)
Record ParsedOutput := mkParsed {
  total_events : Z;
  tools_used : list (string * Z);
  files_created : list string;
  files_modified : list string;
  last_activity : option DateTime;
  has_completion_marker : bool;
  progress_estimate : Z;
  current_task : JSON;
  errors : list string;
  raw_lines_count : Z;
  assistant_messages : Z;
  tool_results : Z
}.

(** [ParsedOutput()] *)
Definition empty_parsed : ParsedOutput :=
  mkParsed 0 [] [] [] None false 0 (JStr "") [] 0 0 0.

(** A line of the stream after the two library parsers have run:
    [json.loads] on the stripped line ([None] for a blank line and for a line
    that it rejects), and [datetime.fromisoformat] on the event's
    [timestamp] text ([None] when it rejects the text). *)
Record Line := mkLine {
  decoded : option JSON;
  stamp : option DateTime
}.

(** [tools_used[name] = tools_used.get(name, 0) + 1] *)
Fixpoint bump (tools : list (string * Z)) (name : string) : list (string * Z) :=
  match tools with
  | [] => [(name, 1)]
  | (k, n) :: rest =>
      if String.eqb k name then (k, n + 1) :: rest else (k, n) :: bump rest name
  end.

(** [if path not in files: files.append(path)] *)
Definition add_once (files : list string) (path : string) : list string :=
  if existsb (String.eqb path) files then files else files ++ [path].

(** The [tool_use] items of a content list, as (name, input) pairs. *)
Definition tool_items (content : JSON) : list (JSON * JSON) :=
  match content with
  | JList items =>
      omap (fun item =>
              match item with
              | JObj f =>
                  if is_str (get f "type") "tool_use"
                  then Some (get_or f "name" (JStr "unknown"), get f "input")
                  else None
              | _ => None
              end) items
  | _ => []
  end.

(** [extract_all_tools_from_event] *)
Definition extract_all_tools_from_event (event : list (string * JSON))
  : list (JSON * JSON) :=
  if is_str (get event "type") "tool_use" then
    [(get_or event "name" (JStr "unknown"), get event "input")]
  else if is_str (get event "type") "assistant" then
    tool_items (get_or event "content" (JList []))
    ++ match assoc event "message" with
       | Some (JObj msg) =>
           match assoc msg "content" with
           | Some c => tool_items c
           | None => []
           end
       | _ => []
       end
  else [].

(** The name of the first [tool_use] item of a content list, if there is
    such an item. *)
Definition first_tool_name (content : JSON) : option JSON :=
  match content with
  | JList items =>
      head (omap (fun item =>
                    match item with
                    | JObj f =>
                        if is_str (get f "type") "tool_use"
                        then Some (get f "name") else None
                    | _ => None
                    end) items)
  | _ => None
  end.

(** [extract_tool_name]; values that are no dictionary do not reach it. *)
Fixpoint extract_tool_name (event : JSON) : JSON :=
  match event with
  | JObj f =>
      let by_type :=
        if has_key f "type" then
          if is_str (get f "type") "tool_use"
          then Some (py_or (get f "name") (get f "tool"))
          else if is_str (get f "type") "assistant" && has_key f "content"
          then first_tool_name (get f "content")
          else None
        else None in
      match by_type with
      | Some name => name
      | None =>
          if has_key f "tool" then get f "tool"
          else if has_key f "name" && negb (is_str (get f "type") "assistant")
          then get f "name"
          else
            (fix in_message (fs : list (string * JSON)) : JSON :=
               match fs with
               | [] => JNull
               | (k, v) :: rest =>
                   if String.eqb k "message" then
                     match v with
                     | JObj msg =>
                         match (if has_key msg "content"
                                then first_tool_name (get msg "content")
                                else None) with
                         | Some name => name
                         | None => extract_tool_name v
                         end
                     | _ => JNull
                     end
                   else in_message rest
               end) f
      end
  | _ => JNull
  end.

(** [extract_file_path]; the search of a text [content] by regular
    expression is not embedded. *)
Definition extract_file_path (event : list (string * JSON)) : Outcome.t JSON :=
  match assoc event "input" with
  | Some (JObj input) => Returns (py_or (get input "file_path") (get input "path"))
  | _ =>
      match assoc event "content" with
      | Some (JStr _) => NotEmbedded
      | _ => Returns JNull
      end
  end.

(** [check_completion_markers] *)
Definition check_completion_markers (text : string) : bool :=
  let text_lower := PyStr.lower text in
  existsb (fun marker => PyStr.contains (PyStr.lower marker) text_lower)
          COMPLETION_MARKERS.

(** [estimate_progress] *)
Definition estimate_progress (parsed : ParsedOutput) : Z :=
  if has_completion_marker parsed then 100
  else
    let total_tools := fold_left Z.add (map snd (tools_used parsed)) 0 in
    let progress := Z.min 60 (total_tools * 3) in
    let progress := progress + Z.min 20 (Z.of_nat (length (files_created parsed)) * 5) in
    let progress := progress + Z.min 10 (Z.of_nat (length (files_modified parsed)) * 2) in
    let progress := if truthy (current_task parsed) then progress + 5 else progress in
    Z.min 95 progress.

(** The bookkeeping of the event's time stamp. *)
Definition note_timestamp (r : ParsedOutput) (event : list (string * JSON))
    (stamp : option DateTime) : Outcome.t (option DateTime) :=
  match get event "timestamp" with
  | JStr (String _ _) =>
      match stamp with
      | Some ts =>
          match last_activity r with
          | None => Returns (Some ts)
          | Some last =>
              if negb (Bool.eqb (aware ts) (aware last)) then Raises
              else if micros last <? micros ts then Returns (Some ts)
              else Returns (Some last)
          end
      | None => Returns (last_activity r)
      end
  | _ => Returns (last_activity r)
  end.

(** The file lists after a tool with the given name has touched a path. *)
Definition note_file (tool_name : string) (file_path : JSON)
    (files : list string * list string) : Outcome.t (list string * list string) :=
  if truthy file_path then
    match file_path with
    | JStr path =>
        if String.eqb tool_name "Write" then Returns (add_once (fst files) path, snd files)
        else if String.eqb tool_name "Edit" then Returns (fst files, add_once (snd files) path)
        else Returns files
    | _ => NotEmbedded
    end
  else Returns files.

Definition is_file_tool (tool_name : string) : bool :=
  String.eqb tool_name "Write" || String.eqb tool_name "Edit"
  || String.eqb tool_name "NotebookEdit".

(** The task named by the first todo in progress, if any. *)
Definition first_in_progress (todos : list JSON) : option JSON :=
  head (omap (fun todo =>
                match todo with
                | JObj f =>
                    if is_str (get f "status") "in_progress"
                    then Some (get_or f "activeForm" (get_or f "content" (JStr "")))
                    else None
                | _ => None
                end) todos).

(** The state of the loop over the tools of one event. *)
Record ToolState := mkToolState {
  ts_tools : list (string * Z);
  ts_files : list string * list string;
  ts_task : JSON
}.

(** One turn of [for tool_name, input_data in tools].  Tool names that are
    no text are not embedded. *)
Definition note_tool (st : ToolState) (tool : JSON * JSON) : Outcome.t ToolState :=
  match fst tool with
  | JStr tool_name =>
      let input_data := snd tool in
      let tools := bump (ts_tools st) tool_name in
      files ← (if is_file_tool tool_name && truthy input_data then
                 match input_data with
                 | JObj input =>
                     note_file tool_name
                       (py_or (get input "file_path") (get input "notebook_path"))
                       (ts_files st)
                 | _ => Returns (ts_files st)
                 end
               else Returns (ts_files st));
      task ← (if String.eqb tool_name "TodoWrite" && truthy input_data then
                match input_data with
                | JObj input =>
                    match get_or input "todos" (JList []) with
                    | JList todos => Returns (default (ts_task st) (first_in_progress todos))
                    | JObj _ | JStr _ => Returns (ts_task st)
                    | JNull | JBool _ | JInt _ => Raises
                    end
                | _ => Returns (ts_task st)
                end
              else Returns (ts_task st));
      Returns (mkToolState tools files task)
  | _ => NotEmbedded
  end.

Fixpoint note_tools (st : ToolState) (tools : list (JSON * JSON)) : Outcome.t ToolState :=
  match tools with
  | [] => Returns st
  | tool :: rest => st' ← note_tool st tool; note_tools st' rest
  end.

(** The fallback for an event without [tool_use] items. *)
Definition note_fallback (st : ToolState) (event : list (string * JSON))
  : Outcome.t ToolState :=
  let name := extract_tool_name (JObj event) in
  if truthy name then
    match name with
    | JStr tool_name =>
        let tools := bump (ts_tools st) tool_name in
        if is_file_tool tool_name then
          file_path ← extract_file_path event;
          files ← note_file tool_name file_path (ts_files st);
          Returns (mkToolState tools files (ts_task st))
        else Returns (mkToolState tools (ts_files st) (ts_task st))
    | _ => NotEmbedded
    end
  else Returns st.

(** The errors after the check at the end of the loop body. *)
Definition note_error (errors : list string) (event : list (string * JSON))
  : list string :=
  if is_str (get event "type") "error" || truthy (get event "is_error") then
    let error_msg :=
      get_or event "message" (get_or event "content" (JStr (repr (JObj event)))) in
    match error_msg with
    | JStr text =>
        if (String.length text <? 200)%nat
        then errors ++ [String.substring 0 200 text]
        else errors
    | _ => errors
    end
  else errors.

(** The body of the loop of [parse_output_content] for one line. *)
Definition parse_line (r : ParsedOutput) (line : Line) : Outcome.t ParsedOutput :=
  match decoded line with
  | None => Returns r
  | Some ev =>
      if negb (truthy ev) then Returns r
      else
        match ev with
        | JObj event =>
            last ← note_timestamp r event (stamp line);
            let event_type := get event "type" in
            let assistant := if is_str event_type "assistant"
                             then assistant_messages r + 1 else assistant_messages r in
            let results := if is_str event_type "assistant" then tool_results r
                           else if is_str event_type "tool_result"
                           then tool_results r + 1 else tool_results r in
            let tools := extract_all_tools_from_event event in
            let st0 := mkToolState (tools_used r) (files_created r, files_modified r)
                                   (current_task r) in
            st1 ← note_tools st0 tools;
            st2 ← (match tools with
                   | [] => note_fallback st1 event
                   | _ :: _ => Returns st1
                   end);
            let marker := if check_completion_markers (dumps ev) then true
                          else has_completion_marker r in
            Returns (mkParsed (total_events r + 1) (ts_tools st2)
                              (fst (ts_files st2)) (snd (ts_files st2))
                              last marker (progress_estimate r) (ts_task st2)
                              (note_error (errors r) event)
                              (raw_lines_count r) assistant results)
        | _ => Raises
        end
  end.

Fixpoint parse_lines (r : ParsedOutput) (lines : list Line) : Outcome.t ParsedOutput :=
  match lines with
  | [] => Returns r
  | line :: rest => r' ← parse_line r line; parse_lines r' rest
  end.

Definition set_progress (r : ParsedOutput) (p : Z) : ParsedOutput :=
  mkParsed (total_events r) (tools_used r) (files_created r) (files_modified r)
           (last_activity r) (has_completion_marker r) p (current_task r)
           (errors r) (raw_lines_count r) (assistant_messages r) (tool_results r).

Definition add_raw_lines (r : ParsedOutput) (n : Z) : ParsedOutput :=
  mkParsed (total_events r) (tools_used r) (files_created r) (files_modified r)
           (last_activity r) (has_completion_marker r) (progress_estimate r)
           (current_task r) (errors r) (raw_lines_count r + n)
           (assistant_messages r) (tool_results r).

(** [parse_output_content], on the lines [content.split("\n")] gives. *)
Definition parse_output_content (lines : list Line) (existing_parsed : option ParsedOutput)
  : Outcome.t ParsedOutput :=
  let result := default empty_parsed existing_parsed in
  let result := add_raw_lines result (Z.of_nat (length lines)) in
  result ← parse_lines result lines;
  Returns (set_progress result (estimate_progress result)).

End Parser.

(** The progress estimate as the specification words it, and with the
    limits of the source. *)

Module ParserSpec.
Import Json Parser.

Definition total_tool_invocations (parsed : ParsedOutput) : Z :=
  foldr Z.add 0 (map snd (tools_used parsed)).

Definition task_bonus (parsed : ParsedOutput) : Z :=
  if truthy (current_task parsed) then 5 else 0.

(** The estimate as the specification words it. *)
Definition stated_estimate (parsed : ParsedOutput) : Z :=
  if has_completion_marker parsed then 100
  else Z.min 95 (3 * total_tool_invocations parsed
                 + 5 * Z.of_nat (length (files_created parsed))
                 + 2 * Z.of_nat (length (files_modified parsed))
                 + task_bonus parsed).

(** The estimate with the limit the source puts on each of its parts. *)
Definition capped_estimate (parsed : ParsedOutput) : Z :=
  if has_completion_marker parsed then 100
  else Z.min 95 (Z.min 60 (3 * total_tool_invocations parsed)
                 + Z.min 20 (5 * Z.of_nat (length (files_created parsed)))
                 + Z.min 10 (2 * Z.of_nat (length (files_modified parsed)))
                 + task_bonus parsed).

End ParserSpec.

(** * The file position tracker ([dashboard/server/file_tracker.py]) *)

Module Tracker.

(** A file as the tracker meets it: the modification time [os.stat] reports,
    the text in the file, and whether [open] succeeds.  The text is ASCII
    without carriage returns, so that the characters read, the bytes of the
    file and the offsets of [seek] and [tell] count the same units. *)
Record File := mkFile {
  st_mtime : Q;
  data : string;
  readable : bool
}.

Definition st_size (f : File) : nat := String.length (data f).

(** [FileState] *)
Record FileState := mkFileState {
  path : string;
  position : nat;
  last_modified : Q;
  last_size : nat;
  last_read : option Z;
  error_count : nat;
  line_count : nat
}.

(** [FileState(path=file_path)] *)
Definition new_state (file_path : string) : FileState :=
  mkFileState file_path 0 0 0 None 0 0.

(** [FilePositionTracker]: the dictionary [_files] in insertion order and
    [_max_files]. *)
Record FilePositionTracker := mkTracker {
  files : list (string * FileState);
  max_files : nat
}.

Fixpoint lookup_state (fs : list (string * FileState)) (file_path : string)
  : option FileState :=
  match fs with
  | [] => None
  | (k, st) :: rest => if String.eqb k file_path then Some st else lookup_state rest file_path
  end.

(** [self._files[file_path] = state]: an existing key keeps its place, a new
    key goes to the end. *)
Fixpoint store_state (fs : list (string * FileState)) (file_path : string)
    (st : FileState) : list (string * FileState) :=
  match fs with
  | [] => [(file_path, st)]
  | (k, old) :: rest =>
      if String.eqb k file_path then (k, st) :: rest
      else (k, old) :: store_state rest file_path st
  end.

Fixpoint remove_state (fs : list (string * FileState)) (file_path : string)
  : list (string * FileState) :=
  match fs with
  | [] => []
  | (k, st) :: rest =>
      if String.eqb k file_path then rest else (k, st) :: remove_state rest file_path
  end.

(** [x[1].last_read or datetime.min] is below every time that was read. *)
Definition read_before (a b : option Z) : bool :=
  match a, b with
  | None, Some _ => true
  | Some x, Some y => x <? y
  | _, None => false
  end.

(** [min(self._files.items(), key=...)]: the first of the least. *)
Fixpoint oldest_from (best : string * FileState) (rest : list (string * FileState))
  : string :=
  match rest with
  | [] => fst best
  | kv :: rest' =>
      if read_before (last_read (snd kv)) (last_read (snd best))
      then oldest_from kv rest' else oldest_from best rest'
  end.

(** [_ensure_capacity]; with [_max_files] zero and nothing tracked [min]
    raises on the empty dictionary. *)
Definition ensure_capacity (tr : FilePositionTracker) : option FilePositionTracker :=
  if (max_files tr <=? length (files tr))%nat then
    match files tr with
    | [] => None
    | kv :: rest =>
        Some (mkTracker (remove_state (files tr) (oldest_from kv rest)) (max_files tr))
    end
  else Some tr.

Definition count_newlines (s : string) : nat :=
  length (filter (fun c => nat_of_ascii c = 10%nat) (list_ascii_of_string s)).

(** [f.seek(position); f.read()] *)
Definition read_from (f : File) (position : nat) : string :=
  String.substring position (st_size f - position) (data f).

(** [f.tell()] after that read. *)
Definition tell_after (f : File) (position : nat) : nat :=
  Nat.max position (st_size f).

(** [get_new_content]: the tracker after the call and the pair the call
    returns.  [fs] is the file system at the time of the call and [now] the
    clock read by [datetime.utcnow()]. *)
Definition get_new_content (now : Z) (fs : gmap string File)
    (tr : FilePositionTracker) (file_path : string)
  : FilePositionTracker * (string * bool) :=
  match fs !! file_path with
  | None => (tr, (EmptyString, false))
  | Some f =>
      let current_size := st_size f in
      let current_mtime := st_mtime f in
      let tracked :=
        match lookup_state (files tr) file_path with
        | Some st => Some (tr, st)
        | None =>
            match ensure_capacity tr with
            | Some tr' =>
                let st := new_state file_path in
                Some (mkTracker (store_state (files tr') file_path st) (max_files tr'), st)
            | None => None
            end
        end in
      match tracked with
      | None => (tr, (EmptyString, false))
      | Some (tr1, st) =>
          if Qeq_bool current_mtime (last_modified st)
             && (current_size =? last_size st)%nat
          then (tr1, (EmptyString, false))
          else
            let st1 :=
              if (current_size <? last_size st)%nat
              then mkFileState (path st) 0 (last_modified st) (last_size st)
                               (last_read st) (error_count st) 0
              else st in
            if readable f then
              let new_content := read_from f (position st1) in
              let st2 :=
                mkFileState (path st1) (tell_after f (position st1))
                            current_mtime current_size (Some now) 0
                            (line_count st1 + count_newlines new_content) in
              (mkTracker (store_state (files tr1) file_path st2) (max_files tr1),
               (new_content, negb (String.eqb new_content EmptyString)))
            else
              let st2 :=
                mkFileState (path st1) (position st1) (last_modified st1)
                            (last_size st1) (last_read st1) (S (error_count st1))
                            (line_count st1) in
              (mkTracker (store_state (files tr1) file_path st2) (max_files tr1),
               (EmptyString, false))
      end
  end.

End Tracker.

(** * The status of an agent ([dashboard/server/gas_status.py]) *)

Module AgentStatus.
Import Parser.

(** [config.py] *)
Definition IDLE_THRESHOLD_SECONDS : Z := 60.
Definition COMPLETION_THRESHOLD_SECONDS : Z := 120.

Inductive Status := completed | pending | idle | running.

(** [(now_utc - last_activity).total_seconds()]; a [datetime] without a zone
    is read as UTC on both sides. *)
Definition seconds_between (now last : DateTime) : Q :=
  (micros now - micros last) # 1000000.

(** [_determine_agent_status] *)
Definition determine_agent_status (parsed : ParsedOutput) (now : DateTime) : Status :=
  if has_completion_marker parsed then completed
  else
    match last_activity parsed with
    | None => if total_events parsed =? 0 then pending else idle
    | Some last_activity =>
        let seconds_since_activity := seconds_between now last_activity in
        if Qltb (inject_Z COMPLETION_THRESHOLD_SECONDS) seconds_since_activity then
          if 20 <? total_events parsed then completed else idle
        else if Qltb (inject_Z IDLE_THRESHOLD_SECONDS) seconds_since_activity then idle
        else running
    end.

End AgentStatus.

(** * Inputs of the scenarios *)

Module Scenarios.
Import Knowledge Swarm Json Parser.

(** A call of [add_pattern] that leaves every optional argument out. *)
Definition plain_call (now pattern_type context pattern : string) : AddCall :=
  mkAddCall now pattern_type context pattern None None None None None.

(** Scenario 3: the pattern added again and again. *)
Definition api_call (pattern_type : string) : AddCall :=
  plain_call "2026-01-01T00:00:00Z" pattern_type "API" "use async queries".

Definition fresh_store : Store := create_empty_store "2026-01-01T00:00:00Z".

(** An entry from generation 1 that was seen once. *)
Definition old_entry (context pattern : string) : Entry :=
  mkEntry (generate_id (context ++ ":" ++ pattern)%string) context pattern (75 # 100)
          "2026-01-01T00:00:00Z" "2026-01-01T00:00:00Z" 1 (Some 1) None
          (Evidence "Observed to work well").

(** A store whose success patterns hold two entries alike [foo]. *)
Definition two_alike_store : Store :=
  mkStore "2026-01-01T00:00:00Z" "2026-01-01T00:00:00Z" 0
          [old_entry "a" "foo bar"; old_entry "b" "foo"] [] [].

(** The patterns [a], [b], ...: no two of them are alike. *)
Definition single_letter (n : nat) : string := String (ascii_of_nat (97 + n)) EmptyString.

(** A store whose anti-patterns are at their cap, all of confidence 0.9. *)
Definition full_anti_store : Store :=
  run_adds fresh_store
    (map (fun n => mkAddCall "2026-01-01T00:00:00Z" "anti_pattern" "ctx" (single_letter n)
                             (Some (90 # 100)) None None None None)
         (seq 0 25)).

(** One more anti-pattern, of confidence 0.5. *)
Definition weak_call : AddCall :=
  mkAddCall "2026-01-02T00:00:00Z" "anti_pattern" "ctx" "z" (Some (50 # 100))
            None None None None.

(** The text of [n] characters [c]. *)
Definition filled (n : nat) (c : ascii) : string := string_of_list_ascii (repeat c n).

(** A [tool_use] event. *)
Definition tool_use (name : string) (input : list (string * JSON)) : JSON :=
  JObj ([("type", JStr "tool_use"); ("name", JStr name)]
        ++ match input with [] => [] | _ => [("input", JObj input)] end).

(** Scenario 2: the stream of three tool invocations. *)
Definition three_tools : list Line :=
  [ mkLine (Some (tool_use "Write" [("file_path", JStr "a.py")])) None;
    mkLine (Some (tool_use "Edit" [("file_path", JStr "a.py")])) None;
    mkLine (Some (tool_use "Bash" [])) None ].

(** An [error] event with the given message. *)
Definition error_event (message : string) : JSON :=
  JObj [("type", JStr "error"); ("message", JStr message)].

(** An aggregate of 21 invocations of one tool. *)
Definition many_tools : ParsedOutput :=
  mkParsed 21 [("Bash", 21)] [] [] None false 0 (JStr "") [] 21 0 0.

(** A registered agent. *)
Definition worker (status : string) (generation : Z) : Agent :=
  mkAgent (Some status) (Some generation) None.

(** Scenario 4 after both agents of wave 1 have completed. *)
Definition barrier_state : State :=
  mkState (Some 1) (Some 2)
    (<[1 := mkWave ["a1"; "a2"] (Some "running") (Some "2026-01-01T00:00:00Z") None]>
       (<[2 := mkWave ["a3"; "a4"] (Some "pending") None None]> ∅))
    (<["a1" := worker "completed" 1]>
       (<["a2" := worker "completed" 1]>
          (<["a3" := worker "pending" 0]>
             (<["a4" := worker "pending" 0]> ∅)))).

(** The same swarm while [a1] is still running. *)
Definition running_state : State :=
  set_agents barrier_state (<["a1" := worker "running" 1]> (agents barrier_state)).

End Scenarios.

(** * Lists as Python slices them *)

Module PyList.

(** [l[:limit]]: a negative limit counts from the end. *)
Definition slice_to {A} (l : list A) (limit : Z) : list A :=
  if 0 <=? limit then take (Z.to_nat limit) l
  else take (length l - Z.to_nat (- limit)) l.

End PyList.

(** * The other operations of the tracker ([dashboard/server/file_tracker.py]) *)

Module TrackerOps.
Import Tracker.

(** [get_all_content]: the tracker after the call and the text returned.  A
    file that cannot be opened, and a tracker that cannot make room, give the
    empty text and leave the tracker as it is. *)
Definition get_all_content (now : Z) (fs : gmap string File)
    (tr : FilePositionTracker) (file_path : string) : FilePositionTracker * string :=
  match fs !! file_path with
  | None => (tr, EmptyString)
  | Some f =>
      if readable f then
        let content := data f in
        let tracked :=
          match lookup_state (files tr) file_path with
          | Some st => Some (tr, st)
          | None =>
              match ensure_capacity tr with
              | Some tr' =>
                  let st := new_state file_path in
                  Some (mkTracker (store_state (files tr') file_path st) (max_files tr'), st)
              | None => None
              end
          end in
        match tracked with
        | None => (tr, EmptyString)
        | Some (tr1, st) =>
            let st' := mkFileState (path st) (String.length content) (last_modified st)
                                   (last_size st) (Some now) (error_count st)
                                   (line_count st) in
            (mkTracker (store_state (files tr1) file_path st') (max_files tr1), content)
        end
      else (tr, EmptyString)
  end.

(** [reset_position] *)
Definition reset_position (tr : FilePositionTracker) (file_path : string)
  : FilePositionTracker :=
  match lookup_state (files tr) file_path with
  | Some st =>
      mkTracker (store_state (files tr) file_path
                   (mkFileState (path st) 0 (last_modified st) (last_size st)
                                (last_read st) (error_count st) (line_count st)))
                (max_files tr)
  | None => tr
  end.

(** [get_file_info] *)
Definition get_file_info (tr : FilePositionTracker) (file_path : string)
  : option FileState := lookup_state (files tr) file_path.

(** [tracked_count] *)
Definition tracked_count (tr : FilePositionTracker) : nat := length (files tr).

(** [clear] *)
Definition clear (tr : FilePositionTracker) : FilePositionTracker :=
  mkTracker [] (max_files tr).

(** The entry [total_errors] of [get_stats]. *)
Definition total_errors (tr : FilePositionTracker) : nat :=
  foldr (fun kv acc => (error_count (snd kv) + acc)%nat) 0%nat (files tr).

(** A run of polls of one path: each step reads the clock and meets the file
    system of its moment; the chunks returned are put end to end. *)
Fixpoint poll_all (tr : FilePositionTracker) (file_path : string)
    (steps : list (Z * gmap string File)) : FilePositionTracker * string :=
  match steps with
  | [] => (tr, EmptyString)
  | (now, fs) :: rest =>
      let r := get_new_content now fs tr file_path in
      let r' := poll_all (fst r) file_path rest in
      (fst r', (fst (snd r) ++ snd r')%string)
  end.

(** The file under the path only grows along the steps, from the text
    [prev], and can be read at each of them. *)
Fixpoint appended (file_path : string) (prev : string)
    (steps : list (Z * gmap string File)) : Prop :=
  match steps with
  | [] => True
  | (_, fs) :: rest =>
      exists (f : File) (extra : string),
        fs !! file_path = Some f /\ readable f = true /\
        data f = (prev ++ extra)%string /\ appended file_path (data f) rest
  end.

(** The text under the path at the last step. *)
Fixpoint final_text (file_path : string) (prev : string)
    (steps : list (Z * gmap string File)) : string :=
  match steps with
  | [] => prev
  | (_, fs) :: rest =>
      final_text file_path (match fs !! file_path with Some f => data f | None => prev end) rest
  end.

(** The state of a path that has been read to the end of the text [prev]. *)
Definition caught_up (tr : FilePositionTracker) (p prev : string) : Prop :=
  exists st : FileState,
    lookup_state (files tr) p = Some st /\
    position st = String.length prev /\ last_size st = String.length prev.

End TrackerOps.

(** * The cache of parsed output ([dashboard/server/file_tracker.py]) *)

Module Cache.

(** [list.remove(key)]: the first occurrence goes; [ValueError], here
    [None], when there is none. *)
Fixpoint remove_first (key : string) (l : list string) : option (list string) :=
  match l with
  | [] => None
  | x :: rest =>
      if String.eqb x key then Some rest
      else match remove_first key rest with
           | Some rest' => Some (x :: rest')
           | None => None
           end
  end.

(** [k.startswith(prefix)] *)
Definition startswith (k prefix : string) : bool := String.prefix prefix k.

Section Values.
Variable V : Type.

(** [BoundedParseCache]: the dictionary [_cache], the list [_access_order]
    from the least to the most recently used key, [_max_size] and the two
    counters. *)
Record BoundedParseCache := mkCache {
  cache : gmap string V;
  access_order : list string;
  max_size : nat;
  hits : nat;
  misses : nat
}.

(** [BoundedParseCache(max_size)] *)
Definition new_cache (max_size : nat) : BoundedParseCache := mkCache ∅ [] max_size 0 0.

(** [get]: the cache after the call and the value returned; [None] when the
    call raises. *)
Definition get (c : BoundedParseCache) (key : string)
  : option (BoundedParseCache * option V) :=
  match cache c !! key with
  | Some value =>
      order ← remove_first key (access_order c);
      Some (mkCache (cache c) (order ++ [key]) (max_size c) (S (hits c)) (misses c),
            Some value)
  | None =>
      Some (mkCache (cache c) (access_order c) (max_size c) (hits c) (S (misses c)), None)
  end.

(** [set]; [None] when the call raises: [remove] of a key the list does not
    hold, [pop(0)] on the empty list, [del] of a key the dictionary does not
    hold. *)
Definition set (c : BoundedParseCache) (key : string) (value : V)
  : option BoundedParseCache :=
  made_room ←
    match cache c !! key with
    | Some _ =>
        order ← remove_first key (access_order c);
        Some (cache c, order)
    | None =>
        if (max_size c <=? size (cache c))%nat then
          match access_order c with
          | [] => None
          | oldest :: order =>
              match cache c !! oldest with
              | Some _ => Some (delete oldest (cache c), order)
              | None => None
              end
          end
        else Some (cache c, access_order c)
    end;
  Some (mkCache (<[key := value]> (fst made_room)) (snd made_room ++ [key])
                (max_size c) (hits c) (misses c)).

(** [del self._cache[key]; self._access_order.remove(key)] *)
Definition drop_key (c : BoundedParseCache) (key : string) : option BoundedParseCache :=
  match cache c !! key with
  | Some _ =>
      order ← remove_first key (access_order c);
      Some (mkCache (delete key (cache c)) order (max_size c) (hits c) (misses c))
  | None => None
  end.

(** [invalidate] *)
Definition invalidate (c : BoundedParseCache) (key : string) : option BoundedParseCache :=
  match cache c !! key with
  | Some _ => drop_key c key
  | None => Some c
  end.

(** [invalidate_file]: the keys to remove are collected first and removed
    one after the other. *)
Definition invalidate_file (c : BoundedParseCache) (filepath : string)
  : option BoundedParseCache :=
  let keys_to_remove :=
    List.filter (fun k => startswith k (filepath ++ ":")%string)
                (map fst (map_to_list (cache c))) in
  foldl (fun acc key => c' ← acc; drop_key c' key) (Some c) keys_to_remove.

(** [clear] *)
Definition clear (c : BoundedParseCache) : BoundedParseCache :=
  mkCache ∅ [] (max_size c) 0 0.

(** The list of recent use names each cached key once and nothing else, and
    the cache holds at most [max_size] entries. *)
Definition well_formed (c : BoundedParseCache) : Prop :=
  NoDup (access_order c) /\
  (forall k : string, k ∈ access_order c <-> is_Some (cache c !! k)) /\
  (size (cache c) <= max_size c)%nat.

End Values.

Arguments mkCache {V}.
Arguments cache {V}.
Arguments access_order {V}.
Arguments max_size {V}.
Arguments hits {V}.
Arguments misses {V}.
Arguments new_cache {V}.
Arguments get {V}.
Arguments set {V}.
Arguments drop_key {V}.
Arguments invalidate {V}.
Arguments invalidate_file {V}.
Arguments clear {V}.
Arguments well_formed {V}.

End Cache.

Module CacheScenarios.
Import Cache.

(** A cache of two entries that is full; [a] is the least recently used. *)
Definition two_entries : BoundedParseCache nat :=
  mkCache (<["a" := 1%nat]> (<["b" := 2%nat]> ∅)) ["a"; "b"] 2 0 0.

(** Entries of two files, [a.out] read at two times and [b.out]. *)
Definition two_files : BoundedParseCache nat :=
  mkCache (<["a.out:1" := 1%nat]> (<["b.out:1" := 2%nat]> (<["a.out:2" := 3%nat]> ∅)))
          ["a.out:1"; "b.out:1"; "a.out:2"] 5 0 0.

End CacheScenarios.

(** * Runs of the event parser *)

Module ParserOps.
Import Json Outcome Parser.

(** The aggregate with its line count and its progress estimate replaced. *)
Definition with_counts (r : ParsedOutput) (raw_lines progress : Z) : ParsedOutput :=
  mkParsed (total_events r) (tools_used r) (files_created r) (files_modified r)
           (last_activity r) (has_completion_marker r) progress (current_task r)
           (errors r) raw_lines (assistant_messages r) (tool_results r).

(** The line carries an event: [parse_ndjson_line] answers a value that
    passes [if not event: continue]. *)
Definition is_event (line : Line) : bool :=
  match decoded line with
  | Some ev => truthy ev
  | None => false
  end.

(** The line carries an event whose text holds a completion marker. *)
Definition is_marked (line : Line) : bool :=
  match decoded line with
  | Some ev => truthy ev && check_completion_markers (dumps ev)
  | None => false
  end.

(** The tool names an event is counted under: those of its [tool_use]
    items, or without any the name the fallback finds. *)
Definition tool_names (event : list (string * JSON)) : list JSON :=
  match extract_all_tools_from_event event with
  | [] =>
      let name := extract_tool_name (JObj event) in
      if truthy name then [name] else []
  | tools => map fst tools
  end.

(** How often the lines count a tool of the given name. *)
Definition invocations (name : string) (lines : list Line) : Z :=
  foldr (fun line acc =>
           match decoded line with
           | Some (JObj event) =>
               if truthy (JObj event)
               then Z.of_nat (length (List.filter (fun n => is_str n name) (tool_names event)))
                    + acc
               else acc
           | _ => acc
           end) 0 lines.

(** [tools_used.get(name, 0)] *)
Fixpoint tool_count (tools : list (string * Z)) (name : string) : Z :=
  match tools with
  | [] => 0
  | (k, n) :: rest => if String.eqb k name then n else tool_count rest name
  end.

(** What a run of the loop adds to: the lists only grow at their end and
    stay free of repetitions, the counters do not fall, the last activity
    does not move back. *)
Definition extends (r r' : ParsedOutput) : Prop :=
  errors r `prefix_of` errors r' /\
  files_created r `prefix_of` files_created r' /\
  files_modified r `prefix_of` files_modified r' /\
  (NoDup (files_created r) -> NoDup (files_created r')) /\
  (NoDup (files_modified r) -> NoDup (files_modified r')) /\
  assistant_messages r <= assistant_messages r' /\
  tool_results r <= tool_results r' /\
  (forall t, last_activity r = Some t ->
             exists t', last_activity r' = Some t' /\ micros t <= micros t').

(** The two lists of files grow at their end and stay free of repetitions. *)
Definition files_grow (a b : list string * list string) : Prop :=
  fst a `prefix_of` fst b /\ snd a `prefix_of` snd b /\
  (NoDup (fst a) -> NoDup (fst b)) /\ (NoDup (snd a) -> NoDup (snd b)).

End ParserOps.

From Stdlib Require Import Lqa.

(** * The trigger evaluator as the orchestrator runs it
    ([scripts/check-triggers.py], [scripts/gas-orchestrator.py]) *)

Module TriggerCli.
Import Trigger.

(** [status.json] of a generation: its [status] entry, a text ([None] is a
    missing key), and the entries [evaluate_triggers] reads. *)
Record StatusFile := mkStatusFile {
  state : option string;
  body : Status
}.

(** [status.get('status') in ['completed', 'failed', 'needs_succession']] *)
Definition settled (current_status : string) : bool :=
  String.eqb current_status "completed" || String.eqb current_status "failed"
  || String.eqb current_status "needs_succession".

(** The exit code of [main] of [check-triggers.py] once the generation is
    known.  [None] is a status file that [read_json] cannot read, or one that
    holds an empty value. *)
Definition exit_code (now : Q) (status : option StatusFile) : Z :=
  match status with
  | None => 3
  | Some s =>
      if match state s with Some st => settled st | None => false end then
        if match state s with Some st => String.eqb st "completed" | None => false end
        then 0 else 2
      else
        match urgency (evaluate_triggers now (body s)) with
        | immediate => 2
        | soon => 1
        | none => 0
        end
  end.

(** [check_triggers] of [gas-orchestrator.py], from the return code of the
    script on. *)
Definition check_triggers (returncode : Z) : bool * string * Q :=
  if returncode =? 0 then (false, "none"%string, 0%Q)
  else if returncode =? 1 then (true, "score_warning"%string, 55 # 100)
  else if returncode =? 2 then (true, "score_critical"%string, 75 # 100)
  else (false, "error"%string, 0%Q).

(** [monitor_generation]: [status] is what the orchestrator reads,
    [script_status] what the script it starts reads. *)
Definition monitor_generation (now : Q) (status script_status : option StatusFile)
  : string :=
  match status with
  | None => "unknown"%string
  | Some s =>
      let current_status := default "unknown"%string (state s) in
      if settled current_status then current_status
      else
        let '(should_handoff, reason, score) :=
          check_triggers (exit_code now script_status) in
        if should_handoff then "needs_succession"%string else current_status
  end.

(** The entries of the status are in the range a running generation
    writes: counts and confidence are not negative and the last update is
    not ahead of the clock. *)
Definition plausible (now : Q) (status : Status) : Prop :=
  (forall i, interactions status = Some i -> 0 <= i) /\
  (forall c, confidence status = Some c -> (0 <= c)%Q) /\
  (forall e, errors status = Some e -> 0 <= e) /\
  (forall t, last_updated status = At t -> (t <= now)%Q).

End TriggerCli.

(** * Queries on the knowledge store ([scripts/knowledge-store.py]) *)

Module KnowledgeOps.
Import Knowledge PyList.

(** [s.rstrip("s")]: every [s] at the end goes. *)
Fixpoint rstrip_s (s : string) : string :=
  match s with
  | EmptyString => EmptyString
  | String c rest =>
      match rstrip_s rest with
      | EmptyString => if Ascii.eqb c "s" then EmptyString else String c EmptyString
      | kept => String c kept
      end
  end.

(** An entry of the result of a query: [{**p, "type": ...}]. *)
Record Hit := mkHit {
  hit : Entry;
  hit_type : string
}.

(** [sorted(..., key=confidence, reverse=True)] on the hits, stable. *)
Fixpoint insert_hit (x : Hit) (l : list Hit) : list Hit :=
  match l with
  | [] => [x]
  | y :: rest =>
      if Qltb (confidence (hit x)) (confidence (hit y)) then y :: insert_hit x rest
      else x :: y :: rest
  end.

Definition sort_hits (l : list Hit) : list Hit := foldr insert_hit [] l.

(** A text that counts as true in a condition. *)
Definition given (x : option string) : option string :=
  match x with
  | Some (String c rest) => Some (String c rest)
  | _ => None
  end.

(** The first filter of the loop: the entry is skipped when a context is
    asked for and is not part of the entry's context, whatever the case. *)
Definition context_fits (context : option string) (p : Entry) : bool :=
  match given context with
  | Some c => PyStr.contains (PyStr.lower c) (PyStr.lower (Knowledge.context p))
  | None => true
  end.

(** The second filter: the entry is skipped when a minimum that is not zero
    is asked for and the entry is below it. *)
Definition confident_enough (min_confidence : option Q) (p : Entry) : bool :=
  match min_confidence with
  | Some m => if Qeq_bool m 0 then true else negb (Qltb (confidence p) m)
  | None => true
  end.

(** The keys the query looks under. *)
Definition types_to_search (pattern_type : option string) : list string :=
  match given pattern_type with
  | Some t => [list_key t]
  | None => ["success_patterns"; "anti_patterns"; "domain_knowledge"]%string
  end.

(** The loop over one list. *)
Fixpoint collect (ptype : string) (context : option string) (min_confidence : option Q)
    (patterns : list Entry) (results : list Hit) : list Hit :=
  match patterns with
  | [] => results
  | p :: rest =>
      if negb (context_fits context p) then collect ptype context min_confidence rest results
      else if negb (confident_enough min_confidence p)
      then collect ptype context min_confidence rest results
      else collect ptype context min_confidence rest
                   (results ++ [mkHit p (rstrip_s ptype)])
  end.

(** [query_patterns] *)
Definition query_patterns (store : Store) (pattern_type context : option string)
    (min_confidence : option Q) (limit : Z) : list Hit :=
  let results :=
    fold_left (fun results ptype =>
                 collect ptype context min_confidence (store_get store ptype) results)
              (types_to_search pattern_type) [] in
  slice_to (sort_hits results) limit.

(** An entry the query is to find: it is stored under a key the query looks
    under and passes both filters. *)
Definition wanted (store : Store) (pattern_type context : option string)
    (min_confidence : option Q) (h : Hit) : Prop :=
  exists key : string,
    key ∈ types_to_search pattern_type /\
    hit h ∈ store_get store key /\ hit_type h = rstrip_s key /\
    context_fits context (hit h) = true /\
    confident_enough min_confidence (hit h) = true.

(** Descending order of hits. *)
Definition hits_descending (l : list Hit) : Prop :=
  StronglySorted (fun x y => (confidence (hit y) <= confidence (hit x))%Q) l.

(** The confidence of an entry first stored with confidence [c0] once it
    has been seen [k] times: 0.05 more for each time from the third on, up to
    1. *)
Definition confidence_after (c0 : Q) (k : Z) : Q :=
  if k <=? 2 then c0 else Qmin 1 (c0 + (5 # 100) * inject_Z (k - 2)).

(** The store holds one entry, under the key given: the pattern, seen [k]
    times. *)
Definition holds_only (store : Store) (key pattern : string) (c0 : Q) (k : Z)
    (e : Entry) : Prop :=
  store_get store key = [e] /\
  (length (success_patterns store) + length (anti_patterns store)
   + length (domain_knowledge store) = 1)%nat /\
  Knowledge.pattern e = pattern /\ occurrences e = k /\
  (confidence e == confidence_after c0 k)%Q.

End KnowledgeOps.

(** * The plan of a swarm ([scripts/swarm-orchestrator.py]) *)

Module SwarmInit.
Import Swarm PyList.

(** An agent as [decompose_task] assigns it; every agent starts with the
    status [pending] and no generation. *)
Record Assigned := mkAssigned {
  agent_id : string;
  role : string;
  wave : Z;
  focus : string
}.

(** [common_roles] *)
Definition common_roles : list (string * Z * string) :=
  [ ("core-architect", 1, "Project structure, core abstractions, interfaces");
    ("database-engineer", 2, "Schema, migrations, data access layer");
    ("backend-api", 2, "API endpoints, business logic, validation");
    ("auth-engineer", 2, "Authentication, authorization, security");
    ("frontend-ui", 3, "User interface, components, state management");
    ("integration-lead", 4, "Integration, testing, deployment") ]%string.

(** The loop over [enumerate(common_roles[:num_agents])]. *)
Definition assign (num_agents : Z) : list Assigned :=
  imap (fun i r => mkAssigned ("agent-" ++ pretty (S i)) (fst (fst r)) (snd (fst r)) (snd r))
       (slice_to common_roles num_agents).

(** One turn of the loop that sorts the agents into their waves. *)
Definition add_to_wave (waves : gmap Z (list string)) (a : Assigned)
  : gmap Z (list string) :=
  <[wave a := default [] (waves !! wave a) ++ [agent_id a]]> waves.

Definition group_waves (agents : list Assigned) : gmap Z (list string) :=
  fold_left add_to_wave agents ∅.

(** [generate_dependencies] *)
Definition generate_dependencies (agents : list Assigned) : gmap string (list string) :=
  let waves := group_waves agents in
  fold_left (fun deps a =>
               <[agent_id a := if 1 <? wave a
                               then default [] (waves !! (wave a - 1))
                               else []]> deps)
            agents ∅.

(** What [decompose_task] returns, without the objective and the time
    stamp it passes on. *)
Record Plan := mkPlan {
  total_agents : Z;
  plan_total_waves : Z;
  plan_agents : gmap string Assigned;
  plan_waves : gmap Z (list string);
  dependencies : gmap string (list string)
}.

Definition plan_of (assigned : list Assigned) : Plan :=
  mkPlan (Z.of_nat (length assigned))
         (Z.of_nat (size (group_waves assigned)))
         (fold_left (fun m a => <[agent_id a := a]> m) assigned ∅)
         (group_waves assigned)
         (generate_dependencies assigned).

(** [decompose_task] *)
Definition decompose_task (num_agents : Z) : Plan := plan_of (assign num_agents).

(** The state [init_swarm] writes to [gas-state.json]. *)
Definition init_state (plan : Plan) : State :=
  mkState (Some 1) (Some (plan_total_waves plan))
          ((fun ids => mkWave ids (Some "pending"%string) None None) <$> plan_waves plan)
          ((fun _ => mkAgent (Some "pending"%string) (Some 0) None) <$> plan_agents plan).

(** The agents of a wave, in the order they were assigned. *)
Definition in_wave (agents : list Assigned) (w : Z) : list string :=
  agent_id <$> List.filter (fun b => wave b =? w) agents.

(** The state still has the waves of the plan. *)
Definition follows (st : State) (agents : list Assigned) : Prop :=
  forall w : Z, get_wave_agents st w = in_wave agents w.

(** [state["dependencies"].get(agent_id, [])] *)
Definition depends_on (agents : list Assigned) (id : string) : list string :=
  default [] (generate_dependencies agents !! id).

End SwarmInit.

Module PlanScenarios.
Import Swarm SwarmInit.

(** The plan of the default four agents, once the agent of the first wave
    has completed. *)
Definition first_wave_done : State :=
  set_agents (init_state (decompose_task 4))
             (<["agent-1" := mkAgent (Some "completed"%string) (Some 1) None]>
                (agents (init_state (decompose_task 4)))).

End PlanScenarios.

(** * The report on the waves ([scripts/wave-manager.py]) *)

Module WaveStatus.
Import Swarm.

(** [agents.get(agent_id, {}).get("status", "unknown")]; a status that is
    no text takes none of the branches that compare it and is counted as the
    text [unknown] is. *)
Definition status_of (st : State) (agent_id : string) : string :=
  match agents st !! agent_id with
  | Some a => default "unknown"%string (agent_status a)
  | None => "unknown"%string
  end.

(** The entry of [result["waves"]] for one wave, without the roles. *)
Record WaveReport := mkWaveReport {
  report_status : string;
  report_started_at : option string;
  report_agents : list (string * string * Z);
  completed : Z;
  running : Z;
  pending : Z;
  total : Z;
  is_complete : bool
}.

(** One turn of the loop over the agents of a wave: the three counters. *)
Definition tally (st : State) (counts : Z * Z * Z) (agent_id : string) : Z * Z * Z :=
  let '(completed, running, pending) := counts in
  let status := status_of st agent_id in
  if String.eqb status "completed" || String.eqb status "succeeded"
  then (completed + 1, running, pending)
  else if String.eqb status "running" then (completed, running + 1, pending)
  else (completed, running, pending + 1).

Definition wave_report (st : State) (w : Wave) : WaveReport :=
  let '(completed, running, pending) := fold_left (tally st) (wave_agents w) (0, 0, 0) in
  let total := Z.of_nat (length (wave_agents w)) in
  mkWaveReport (default "pending"%string (wave_status w)) (started_at w)
               (map (fun id =>
                       (id, status_of st id,
                        match agents st !! id with
                        | Some a => default 0 (current_generation a)
                        | None => 0
                        end))
                    (wave_agents w))
               completed running pending total
               ((completed =? total) && (0 <? total)).

(** [get_wave_status], for the state of a swarm that can be read. *)
Definition get_wave_status (st : State) : Z * Z * gmap Z WaveReport :=
  (get_current_wave st, get_total_waves st, wave_report st <$> waves st).

(** The number of agents of the list that are completed or succeeded. *)
Definition done_count (st : State) (ids : list string) : Z :=
  Z.of_nat (length (List.filter (agent_done st) ids)).

(** The agent has gone through a spawn already: it is registered with a
    generation that is not zero. *)
Definition started (ws : Workspace) (a : string) : Prop :=
  exists ag : Agent,
    agents (state ws) !! a = Some ag /\ default 0 (current_generation ag) <> 0.

(** The registry entry and the status files of the agent are the same in
    both workspaces. *)
Definition same_agent (ws ws' : Workspace) (a : string) : Prop :=
  agents (state ws') !! a = agents (state ws) !! a /\
  forall g : Z, gen_files ws' !! (a, g) = gen_files ws !! (a, g).

End WaveStatus.

(** * What the dashboard shows of an agent ([dashboard/server/gas_status.py]) *)

Module AgentView.
Import Parser AgentStatus.

(** The two entries of [agent_data] that [_gather_agent_statuses] takes
    from a parsed output file: [status] and [progress]. *)
Definition status_and_progress (parsed : ParsedOutput) (now : DateTime) : Status * Z :=
  (determine_agent_status parsed now, progress_estimate parsed).

(** Every tool counted has been counted at least once. *)
Definition counts_positive (tools : list (string * Z)) : Prop :=
  Forall (fun kv => 0 < snd kv) tools.

End AgentView.

(** * The waves as the dashboard shows them ([dashboard/server/gas_status.py]) *)

Module WaveView.
Import AgentStatus.

(** The entries of [agent_data] that [_organize_by_waves] reads. *)
Record AgentData := mkAgentData {
  wave : Z;
  status : Status
}.

(** An entry of the dictionary [_organize_by_waves] answers. *)
Record WaveData := mkWaveData {
  wave_number : Z;
  wave_agents : list string;
  total : Z;
  running_count : Z;
  completed_count : Z;
  idle_count : Z;
  pending_count : Z
}.

(** [wave_data[status] += 1] *)
Definition count_status (d : WaveData) (s : Status) : WaveData :=
  match s with
  | running =>
      mkWaveData (wave_number d) (wave_agents d) (total d) (running_count d + 1)
                 (completed_count d) (idle_count d) (pending_count d)
  | completed =>
      mkWaveData (wave_number d) (wave_agents d) (total d) (running_count d)
                 (completed_count d + 1) (idle_count d) (pending_count d)
  | idle =>
      mkWaveData (wave_number d) (wave_agents d) (total d) (running_count d)
                 (completed_count d) (idle_count d + 1) (pending_count d)
  | pending =>
      mkWaveData (wave_number d) (wave_agents d) (total d) (running_count d)
                 (completed_count d) (idle_count d) (pending_count d + 1)
  end.

(** One turn of the loop over [agents.items()]. *)
Definition organize_step (waves : gmap Z WaveData) (agent : string * AgentData)
  : gmap Z WaveData :=
  let w := wave (snd agent) in
  let wave_data := default (mkWaveData w [] 0 0 0 0 0) (waves !! w) in
  let wave_data :=
    mkWaveData (wave_number wave_data) (wave_agents wave_data ++ [fst agent])
               (total wave_data + 1) (running_count wave_data)
               (completed_count wave_data) (idle_count wave_data)
               (pending_count wave_data) in
  <[w := count_status wave_data (status (snd agent))]> waves.

(** [_organize_by_waves] *)
Definition organize_by_waves (agents : list (string * AgentData)) : gmap Z WaveData :=
  fold_left organize_step agents ∅.

(** The agents of a wave, in the order of the dictionary. *)
Definition members (agents : list (string * AgentData)) (w : Z) : list (string * AgentData) :=
  List.filter (fun a => wave (snd a) =? w) agents.

(** How many of the agents show the status. *)
Definition showing (s : Status) (agents : list (string * AgentData)) : Z :=
  Z.of_nat (length (List.filter
                      (fun a => match status (snd a), s with
                                | running, running | completed, completed
                                | idle, idle | pending, pending => true
                                | _, _ => false
                                end) agents)).

End WaveView.

(** * Pruning the knowledge store ([scripts/knowledge-store.py]) *)

Module KnowledgePrune.
Import Knowledge.

(** [a or b] on two texts. *)
Definition or_text (a b : string) : string :=
  match a with
  | EmptyString => b
  | String _ _ => a
  end.

(** The check of the age.  [parse] stands for
    [datetime.fromisoformat(text.replace("Z", "+00:00")).replace(tzinfo=None)]:
    the instant the clock fields of the stamp name, in microseconds, and
    [None] when the text is rejected, which the source passes over. *)
Definition too_old (parse : string -> option Z) (cutoff_date : option Z) (p : Entry)
  : bool :=
  match cutoff_date with
  | Some cutoff =>
      match or_text (last_seen p) (added_at p) with
      | EmptyString => false
      | String c rest =>
          match parse (String c rest) with
          | Some pattern_date => pattern_date <? cutoff
          | None => false
          end
      end
  | None => false
  end.

(** The loop over one list. *)
Fixpoint prune_list (parse : string -> option Z) (min_confidence : Q)
    (cutoff_date : option Z) (patterns filtered : list Entry) : list Entry :=
  match patterns with
  | [] => filtered
  | p :: rest =>
      if Qltb (confidence p) min_confidence
      then prune_list parse min_confidence cutoff_date rest filtered
      else if too_old parse cutoff_date p
      then prune_list parse min_confidence cutoff_date rest filtered
      else prune_list parse min_confidence cutoff_date rest (filtered ++ [p])
  end.

(** [datetime.utcnow() - timedelta(days=max_age_days)], in microseconds. *)
Definition cutoff (now : Z) (max_age_days : option Z) : option Z :=
  match max_age_days with
  | Some days => if days =? 0 then None else Some (now - days * 86400000000)
  | None => None
  end.

(** [prune_patterns]: the store after the call and the three counters of
    [removed].  [stamp] is the text of the clock and [now] its instant. *)
Definition prune_patterns (parse : string -> option Z) (stamp : string) (now : Z)
    (store : Store) (min_confidence : option Q) (max_age_days : option Z)
  : Store * (Z * Z * Z) :=
  let min_confidence := default Knowledge.min_confidence min_confidence in
  let cutoff_date := cutoff now max_age_days in
  let success := prune_list parse min_confidence cutoff_date (success_patterns store) [] in
  let anti := prune_list parse min_confidence cutoff_date (anti_patterns store) [] in
  let domain := prune_list parse min_confidence cutoff_date (domain_knowledge store) [] in
  (mkStore (created store) stamp (generations_completed store) success anti domain,
   (Z.of_nat (length (success_patterns store)) - Z.of_nat (length success),
    Z.of_nat (length (anti_patterns store)) - Z.of_nat (length anti),
    Z.of_nat (length (domain_knowledge store)) - Z.of_nat (length domain))).

(** The entry stays: it is at least as confident as asked for and not
    older than the cutoff. *)
Definition stays (parse : string -> option Z) (min_confidence : Q)
    (cutoff_date : option Z) (p : Entry) : Prop :=
  (min_confidence <= confidence p)%Q /\ too_old parse cutoff_date p = false.

(** [kept] is what pruning leaves of [all]: the entries that stay, in
    their order. *)
Definition pruned_to (parse : string -> option Z) (min_confidence : Q)
    (cutoff_date : option Z) (all kept : list Entry) (removed : Z) : Prop :=
  sublist kept all /\
  (forall p, p ∈ kept <-> p ∈ all /\ stays parse min_confidence cutoff_date p) /\
  removed = Z.of_nat (length all) - Z.of_nat (length kept) /\ 0 <= removed.

End KnowledgePrune.

(** * Part II: properties *)

(** ** Comparisons of rationals *)

Lemma Qltb_lt x y : Qltb x y = true <-> (x < y)%Q.
Proof.
  unfold Qltb. rewrite negb_true_iff. split.
  - intros H. apply Qnot_le_lt. intros Hle.
    apply Qle_bool_iff in Hle. congruence.
  - intros H. destruct (Qle_bool y x) eqn:E; [|reflexivity].
    apply Qle_bool_iff in E. exfalso. exact (Qlt_not_le _ _ H E).
Qed.

Lemma Qltb_ge x y : Qltb x y = false <-> (y <= x)%Q.
Proof.
  unfold Qltb. rewrite negb_false_iff. apply Qle_bool_iff.
Qed.

Lemma py_min_Qmin a b : (py_min a b == Qmin a b)%Q.
Proof.
  unfold py_min. destruct (Qltb b a) eqn:E.
  - apply Qltb_lt in E. symmetry. apply Q.min_r. apply Qlt_le_weak, E.
  - apply Qltb_ge in E. symmetry. apply Q.min_l, E.
Qed.

Lemma py_max_Qmax a b : (py_max a b == Qmax a b)%Q.
Proof.
  unfold py_max. destruct (Qltb a b) eqn:E.
  - apply Qltb_lt in E. symmetry. apply Q.max_r. apply Qlt_le_weak, E.
  - apply Qltb_ge in E. symmetry. apply Q.max_l, E.
Qed.



(** ** The trigger evaluator *)

Section TriggerFacts.
Import Trigger TriggerSpec.

Lemma max_by_from_pos (rest : list (Factor * Q)) :
  forall best : Factor * Q,
  exists (idx : nat) (v : Q),
    (best :: rest) !! idx = Some (max_by_from best rest, v) /\
    forall (j : nat) (kv : Factor * Q),
      (best :: rest) !! j = Some kv ->
      (snd kv <= v)%Q /\ ((j < idx)%nat -> (snd kv < v)%Q).
Proof.
  induction rest as [|kv rest IH]; intros best.
  - exists 0%nat, (snd best). split; [by destruct best|].
    intros [|j] kv' Hj; simplify_eq/=.
    split; [apply Qle_refl | lia].
  - simpl. destruct (Qltb (snd best) (snd kv)) eqn:E.
    + apply Qltb_lt in E.
      destruct (IH kv) as (idx & v & Hidx & Hall).
      exists (S idx), v. split; [exact Hidx|].
      destruct (Hall 0%nat kv eq_refl) as [Hkv _].
      intros [|j] kv' Hj; simplify_eq/=.
      * split; [|intros _]; [apply Qlt_le_weak|]; eapply Qlt_le_trans; eauto.
      * destruct (Hall j kv' Hj) as [H1 H2]. split; [done|]. intros ?. apply H2. lia.
    + apply Qltb_ge in E.
      destruct (IH best) as (idx & v & Hidx & Hall).
      destruct idx as [|idx].
      * exists 0%nat, v. split; [exact Hidx|].
        assert (snd best = v) as Hv.
        { simpl in Hidx. injection Hidx as Hb. by rewrite Hb. }
        intros [|[|j]] kv' Hj; simpl in Hj.
        -- injection Hj as <-. split; [rewrite Hv; apply Qle_refl | lia].
        -- injection Hj as <-. split; [by rewrite <- Hv | lia].
        -- destruct (Hall (S j) kv' Hj) as [H1 _]. split; [done | lia].
      * exists (S (S idx)), v. split; [exact Hidx|].
        destruct (Hall 0%nat best eq_refl) as [_ Hb].
        assert (snd best < v)%Q as Hlt by (apply Hb; lia).
        intros [|[|j]] kv' Hj; simpl in Hj.
        -- injection Hj as <-. split; [by apply Qlt_le_weak | done].
        -- injection Hj as <-.
           split; [|intros _]; [apply Qlt_le_weak|]; eapply Qle_lt_trans; eauto.
        -- destruct (Hall (S j) kv' Hj) as [H1 H2]. split; [done|].
           intros ?. apply H2. lia.
Qed.

Lemma verdict_scores now st :
  exists a b c d,
    scores (evaluate_triggers now st) = [(Interactions, a); (Confidence, b); (Errors, c); (Stall, d)]
    /\ primary_trigger (evaluate_triggers now st) = max_by_from (Interactions, a) [(Confidence, b); (Errors, c); (Stall, d)]
    /\ weighted_score (evaluate_triggers now st) = weighted_sum [(Interactions, a); (Confidence, b); (Errors, c); (Stall, d)].
Proof.
  unfold evaluate_triggers.
  destruct (Qltb (70 # 100) _); [|destruct (Qltb (50 # 100) _)]; simpl; eauto 10.
Qed.

Lemma urgency_weighted now st :
  urgency (evaluate_triggers now st) = urgency_of (weighted_score (evaluate_triggers now st)).
Proof.
  unfold evaluate_triggers, urgency_of.
  match goal with |- context [Qltb (70 # 100) ?w] => set (W := w) end.
  destruct (Qltb (70 # 100) W) eqn:E1.
  - simpl. apply Qltb_lt in E1. destruct (Qlt_le_dec (70 # 100) W) as [|H]; [done|].
    exfalso. exact (Qlt_not_le _ _ E1 H).
  - apply Qltb_ge in E1. destruct (Qltb (50 # 100) W) eqn:E2; simpl.
    + apply Qltb_lt in E2.
      destruct (Qlt_le_dec (70 # 100) W) as [H|_]; [exfalso; exact (Qlt_not_le _ _ H E1)|].
      destruct (Qlt_le_dec (50 # 100) W) as [|H]; [done|].
      exfalso. exact (Qlt_not_le _ _ E2 H).
    + apply Qltb_ge in E2.
      destruct (Qlt_le_dec (70 # 100) W) as [H|_]; [exfalso; exact (Qlt_not_le _ _ H E1)|].
      destruct (Qlt_le_dec (50 # 100) W) as [H|]; [|done].
      exfalso. exact (Qlt_not_le _ _ H E2).
Qed.

Lemma urgency_of_proper w w' : (w == w')%Q -> urgency_of w = urgency_of w'.
Proof.
  intros H. unfold urgency_of.
  destruct (Qlt_le_dec (70 # 100) w) as [H1|H1], (Qlt_le_dec (70 # 100) w') as [H1'|H1'];
    rewrite H in H1; try done; try (exfalso; exact (Qlt_not_le _ _ ltac:(eassumption) ltac:(eassumption))).
  destruct (Qlt_le_dec (50 # 100) w) as [H2|H2], (Qlt_le_dec (50 # 100) w') as [H2'|H2'];
    rewrite H in H2; try done; try (exfalso; exact (Qlt_not_le _ _ ltac:(eassumption) ltac:(eassumption))).
Qed.

Lemma weighted_sum_four a b c d :
  (weighted_sum [(Interactions, a); (Confidence, b); (Errors, c); (Stall, d)]
   == weighted a b c d)%Q.
Proof. unfold weighted_sum, weighted. simpl. ring. Qed.

Lemma primary_is_first_maximum now st :
  let v := evaluate_triggers now st in
  (forall k, (score_of v k <= score_of v (primary_trigger v))%Q) /\
  (forall k, (rank k < rank (primary_trigger v))%nat ->
             (score_of v k < score_of v (primary_trigger v))%Q).
Proof.
  intros v. unfold score_of.
  destruct (verdict_scores now st) as (a & b & c & d & Hs & Hp & _).
  fold v in Hs, Hp. rewrite Hs, Hp.
  destruct (max_by_from_pos [(Confidence, b); (Errors, c); (Stall, d)] (Interactions, a))
    as (idx & w & Hidx & Hall).
  set (p := max_by_from _ _) in *.
  assert (forall k, [(Interactions, a); (Confidence, b); (Errors, c); (Stall, d)] !! rank k
                    = Some (k, scores_get [(Interactions, a); (Confidence, b); (Errors, c); (Stall, d)] k))
    as Hrank by (by intros []).
  assert (idx = rank p /\ scores_get [(Interactions, a); (Confidence, b); (Errors, c); (Stall, d)] p = w)
    as [-> <-].
  { destruct idx as [|[|[|[|idx]]]]; simpl in Hidx; [..|done].
    all: injection Hidx as Hk Hw; rewrite <- Hk, <- Hw; done. }
  split; intros k; [|intros Hk]; destruct (Hall (rank k) _ (Hrank k)) as [H1 H2]; auto.
Qed.

Lemma scores_table now last c i e :
  let v := evaluate_triggers now (mkStatus (Some i) (Some c) (Some e) (At last)) in
  map fst (scores v) = [Interactions; Confidence; Errors; Stall] /\
  (score_of v Interactions == interactions_score i)%Q /\
  (score_of v Confidence == confidence_score c)%Q /\
  (score_of v Errors == errors_score i e)%Q /\
  (score_of v Stall == stall_score (now - last))%Q.
Proof.
  intros v. unfold score_of.
  destruct (verdict_scores now (mkStatus (Some i) (Some c) (Some e) (At last)))
    as (a & b & c' & d & Hs & _ & _).
  fold v in Hs. rewrite Hs.
  unfold v, evaluate_triggers in Hs.
  destruct (Qltb (70 # 100) _); [|destruct (Qltb (50 # 100) _)];
    simpl in Hs; injection Hs as <- <- <- <-;
    (split; [done|]); simpl;
    repeat split; first [apply py_min_Qmin | apply py_max_Qmax].
Qed.



End TriggerFacts.

Section KnowledgeFacts.
Import Knowledge KnowledgeSpec Scenarios.

(** ** The knowledge store *)

Lemma insert_desc_perm x l : Permutation (insert_desc x l) (x :: l).
Proof.
  induction l as [|y l IH]; simpl; [done|].
  destruct (Qltb (confidence x) (confidence y)); [|done].
  rewrite IH. apply perm_swap.
Qed.

Lemma sort_desc_perm l : Permutation (sort_desc l) l.
Proof.
  induction l as [|x l IH]; simpl; [done|].
  unfold sort_desc in *. simpl. rewrite insert_desc_perm. by constructor.
Qed.

Lemma insert_desc_descending x l : descending l -> descending (insert_desc x l).
Proof.
  unfold descending. induction l as [|y l IH]; simpl; intros Hs.
  - repeat constructor.
  - apply StronglySorted_inv in Hs as [Hl Hy].
    destruct (Qltb (confidence x) (confidence y)) eqn:E.
    + apply Qltb_lt in E. constructor; [by apply IH|].
      apply Forall_forall. intros z Hz.
      apply list_elem_of_In in Hz.
      apply (Permutation_in _ (insert_desc_perm x l)) in Hz as [<-|Hz].
      * by apply Qlt_le_weak.
      * rewrite Forall_forall in Hy. apply Hy. by apply list_elem_of_In.
    + apply Qltb_ge in E. constructor; [by constructor|].
      constructor; [done|].
      eapply Forall_impl; [exact Hy|]. intros z Hz. simpl in Hz.
      eapply Qle_trans; eauto.
Qed.

Lemma sort_desc_descending l : descending (sort_desc l).
Proof.
  induction l as [|x l IH]; [constructor|].
  by apply insert_desc_descending.
Qed.

Lemma descending_take_drop n l x y :
  descending l -> In x (take n l) -> In y (drop n l) ->
  (confidence y <= confidence x)%Q.
Proof.
  unfold descending. revert n. induction l as [|z l IH]; intros n Hs Hx Hy.
  - by rewrite take_nil in Hx.
  - apply StronglySorted_inv in Hs as [Hl Hz].
    destruct n as [|n]; [done|]. simpl in Hx, Hy.
    destruct Hx as [<-|Hx]; [|by eapply IH].
    rewrite Forall_forall in Hz. apply Hz.
    apply (subseteq_drop n l). by apply list_elem_of_In.
Qed.

Lemma prune_keeps_top (cap : nat) (l : list Entry) :
  (cap < length l)%nat -> top_by_confidence cap l (prune_by_confidence l cap).
Proof.
  intros Hlen. unfold top_by_confidence, prune_by_confidence. split.
  - rewrite length_take, (Permutation_length (sort_desc_perm l)). lia.
  - exists (drop cap (sort_desc l)). split.
    + rewrite take_drop. apply sort_desc_perm.
    + intros x y. apply descending_take_drop, sort_desc_descending.
Qed.

Lemma append_capped_length l e cap : (length (append_capped l e cap) <= cap)%nat.
Proof.
  unfold append_capped, prune_by_confidence.
  destruct (cap <? length (l ++ [e]))%nat eqn:E.
  - rewrite length_take. lia.
  - by apply Nat.ltb_ge in E.
Qed.

Lemma store_set_same_length s key l :
  length l = length (store_get s key) -> lengths (store_set s key l) = lengths s.
Proof.
  unfold store_set, store_get, lengths.
  repeat (destruct (String.eqb key _); simpl; [by intros ->|]). done.
Qed.

Lemma add_pattern_within_caps now s pt ctx pat conf gen agent ev imp :
  within_caps s ->
  within_caps (fst (add_pattern now s pt ctx pat conf gen agent ev imp)).
Proof.
  intros (H1 & H2 & H3). unfold add_pattern.
  destruct (find_similar_pattern s pt pat) as [[i existing]|].
  - simpl.
    pose proof (store_set_same_length s (list_key pt)
                  (<[i:=reinforce now existing]> (store_get s (list_key pt)))
                  (length_insert _ _ _)) as Hl.
    unfold lengths in Hl. injection Hl as Ha Hb Hc.
    unfold within_caps, set_last_updated. simpl. rewrite Ha, Hb, Hc. done.
  - repeat (destruct (String.eqb pt _); simpl; [
      repeat split; try done; apply append_capped_length|]).
    done.
Qed.

Lemma run_adds_within_caps calls : forall s, within_caps s -> within_caps (run_adds s calls).
Proof.
  induction calls as [|c calls IH]; intros s Hs; [done|].
  simpl. apply IH. by apply add_pattern_within_caps.
Qed.

Lemma add_pattern_inserting now s pt ctx pat conf gen agent ev imp key cap :
  target pt = Some (key, cap) ->
  find_similar_pattern s pt pat = None ->
  store_get (fst (add_pattern now s pt ctx pat conf gen agent ev imp)) key
  = append_capped (store_get s key)
                  (snd (add_pattern now s pt ctx pat conf gen agent ev imp)) cap.
Proof.
  unfold target, add_pattern. intros Ht ->.
  repeat (destruct (String.eqb pt _); [by injection Ht as <- <-|]). done.
Qed.

(** C4.  Whatever calls of [add_pattern] a fresh store has gone through, it
    holds at most 50 success patterns, 25 anti-patterns and 100 entries of
    domain knowledge, and a call keeps a store within these caps.  A call
    that inserts leaves the list with the new entry at its end while that
    fits; when it would exceed the cap, the list is cut to the cap: what is
    kept and what is dropped make up the grown list, and nothing dropped is
    more confident than anything kept. *)
Theorem add_keeps_caps :
  (forall (t0 : string) (calls : list AddCall),
     within_caps (run_adds (create_empty_store t0) calls)) /\
  (forall (store : Store) (c : AddCall),
     within_caps store -> within_caps (fst (run_add store c))) /\
  (forall (store : Store) (c : AddCall) (key : string) (cap : nat),
     target (call_type c) = Some (key, cap) ->
     find_similar_pattern store (call_type c) (call_pattern c) = None ->
     let grown := store_get store key ++ [snd (run_add store c)] in
     let after := store_get (fst (run_add store c)) key in
     ((length grown <= cap)%nat -> after = grown) /\
     ((cap < length grown)%nat -> top_by_confidence cap grown after)).
Proof.
  split; [|split].
  - intros t0 calls. apply run_adds_within_caps.
    unfold within_caps. simpl. lia.
  - intros store c. apply add_pattern_within_caps.
  - intros store c key cap Ht Hnone grown after.
    assert (after = append_capped (store_get store key) (snd (run_add store c)) cap) as Hafter
      by (by apply add_pattern_inserting).
    fold grown in Hafter. unfold append_capped in Hafter. fold grown in Hafter.
    split; intros Hlen.
    + apply Nat.ltb_ge in Hlen. by rewrite Hlen in Hafter.
    + rewrite Hafter. pose proof Hlen as Hlt. apply Nat.ltb_lt in Hlen. rewrite Hlen.
      by apply prune_keeps_top.
Qed.

(** *** Decay *)

Lemma decays_stale g p : decays g p = true <-> stale g p.
Proof.
  unfold decays, stale. destruct (source_generation p) as [sg|].
  - rewrite !andb_true_iff, negb_true_iff, Z.eqb_neq, Z.ltb_lt, Z.leb_le. split.
    + intros [[? ?] ?]. by exists sg.
    + intros (sg' & [= <-] & ? & ? & ?). done.
  - split; [done|]. by intros (? & ? & _).
Qed.

Lemma decay_entry_spec g p :
  same_but_confidence p (decay_entry g p) /\
  (stale g p ->
   (confidence (decay_entry g p) == Qmax (1 # 10) (confidence p - (1 # 10)))%Q) /\
  (~ stale g p -> decay_entry g p = p).
Proof.
  unfold decay_entry. destruct (decays g p) eqn:E.
  - apply decays_stale in E. split; [by repeat split|]. split; [|done].
    intros _. simpl. rewrite py_max_Qmax. unfold decay_rate.
    apply Q.max_compat; [reflexivity|].
    apply Qplus_comp; [reflexivity|]. by vm_compute.
  - split; [by repeat split|]. split; [|done].
    intros H. apply decays_stale in H. congruence.
Qed.


(** *** Finding an entry alike *)

Lemma similar_alike pat p :
  similar (PyStr.lower pat) p = true <-> alike (pattern p) pat.
Proof.
  unfold similar, alike. rewrite !orb_true_iff, String.eqb_eq. tauto.
Qed.

Lemma find_index_first pl l i p :
  l !! i = Some p ->
  similar pl p = true ->
  (forall j q, (j < i)%nat -> l !! j = Some q -> similar pl q = false) ->
  find_index pl l = Some i.
Proof.
  revert i. induction l as [|x l IH]; intros i Hi Hp Hbefore; [done|].
  simpl. destruct i as [|i].
  - injection Hi as ->. by rewrite Hp.
  - rewrite (Hbefore 0%nat x) by (done || lia).
    rewrite (IH i); [done..|].
    intros j q Hj Hq. apply (Hbefore (S j) q); [lia|done].
Qed.

Lemma find_index_some pl l i :
  find_index pl l = Some i ->
  exists p, l !! i = Some p /\ similar pl p = true /\
            forall j q, (j < i)%nat -> l !! j = Some q -> similar pl q = false.
Proof.
  revert i. induction l as [|x l IH]; intros i; [done|].
  simpl. destruct (similar pl x) eqn:E.
  - intros [= <-]. exists x. repeat split; [done|]. lia.
  - destruct (find_index pl l) as [k|]; [|done].
    intros [= <-]. destruct (IH k eq_refl) as (p & Hp & Hs & Hb).
    exists p. repeat split; [done..|].
    intros [|j] q Hj Hq; simplify_eq/=; [done|]. apply (Hb j); [lia|done].
Qed.

Lemma find_index_none pl l :
  find_index pl l = None -> forall p, In p l -> similar pl p = false.
Proof.
  induction l as [|x l IH]; [done|].
  simpl. destruct (similar pl x) eqn:E; [done|].
  destruct (find_index pl l); [done|].
  intros _ p [<-|Hp]; [done|]. by apply IH.
Qed.

Lemma target_not_domain pt key cap :
  target pt = Some (key, cap) -> key <> "domain_knowledge"%string ->
  (pt = "success_pattern"%string /\ key = "success_patterns"%string) \/
  (pt = "anti_pattern"%string /\ key = "anti_patterns"%string).
Proof.
  unfold target. intros Ht Hk.
  destruct (String.eqb pt "success_pattern") eqn:E1.
  { apply String.eqb_eq in E1. injection Ht as <- _. by left. }
  destruct (String.eqb pt "anti_pattern") eqn:E2.
  { apply String.eqb_eq in E2. injection Ht as <- _. by right. }
  destruct (String.eqb pt "domain_knowledge"); [|done].
  injection Ht as <- _. done.
Qed.

(** C10, as amended.  On the success patterns and the anti-patterns the
    search for a duplicate reads the pattern alone: when an entry of the
    list is alike the pattern of the call (equal without regard to case, or
    one inside the other) and no entry before it is, the call returns that
    entry reinforced, whatever its context, and puts it back in its place;
    the list keeps its length, and the entry keeps its id, its context and
    its pattern while its occurrences grow by one. *)
Theorem add_reinforces_first_alike :
  forall (store : Store) (c : AddCall) (key : string) (cap i : nat) (p : Entry),
    target (call_type c) = Some (key, cap) ->
    key <> "domain_knowledge"%string ->
    store_get store key !! i = Some p ->
    alike (pattern p) (call_pattern c) ->
    (forall (j : nat) (q : Entry),
       (j < i)%nat -> store_get store key !! j = Some q ->
       ~ alike (pattern q) (call_pattern c)) ->
    let p' := reinforce (call_now c) p in
    snd (run_add store c) = p' /\
    store_get (fst (run_add store c)) key = <[i := p']> (store_get store key) /\
    length (store_get (fst (run_add store c)) key) = length (store_get store key) /\
    id p' = id p /\ context p' = context p /\ pattern p' = pattern p /\
    occurrences p' = occurrences p + 1 /\ last_seen p' = call_now c.
Proof.
  intros store c key cap i p Ht Hk Hp Halike Hbefore p'.
  assert (find_similar_pattern store (call_type c) (call_pattern c) = Some (i, p)
          /\ list_key (call_type c) = key) as [Hfind Hkey].
  { assert (list_key (call_type c) = key) as Hkey
      by (destruct (target_not_domain _ _ _ Ht Hk) as [[-> ->]|[-> ->]]; reflexivity).
    split; [|done].
    unfold find_similar_pattern. rewrite Hkey.
    rewrite (find_index_first _ _ i p), Hp; [done..| |].
    - by apply similar_alike.
    - intros j q Hj Hq. destruct (similar _ q) eqn:E; [|done].
      apply similar_alike in E. by destruct (Hbefore j q). }
  unfold run_add, add_pattern. rewrite Hfind, Hkey. fold p'. simpl.
  assert (store_get (store_set store key (<[i:=p']> (store_get store key))) key
          = <[i:=p']> (store_get store key)) as Hget.
  { destruct (target_not_domain _ _ _ Ht Hk) as [[_ ->]|[_ ->]]; reflexivity. }
  assert (forall s now, store_get (set_last_updated s now) key = store_get s key) as Hlu
    by (intros; destruct (target_not_domain _ _ _ Ht Hk) as [[_ ->]|[_ ->]]; reflexivity).
  rewrite Hlu, Hget, length_insert. by repeat split.
Qed.

Lemma find_similar_none store pt pat :
  find_similar_pattern store pt pat = None <->
  find_index (PyStr.lower pat) (store_get store (list_key pt)) = None.
Proof.
  unfold find_similar_pattern.
  destruct (find_index _ _) as [i|] eqn:E; [|done].
  destruct (find_index_some _ _ _ E) as (p & -> & _). done.
Qed.

Lemma similar_reinforce pl now p : similar pl (reinforce now p) = similar pl p.
Proof. done. Qed.

Lemma find_index_insert pl l i p now :
  l !! i = Some p ->
  find_index pl (<[i := reinforce now p]> l) = find_index pl l.
Proof.
  revert i. induction l as [|x l IH]; intros i Hi; [done|].
  destruct i as [|i]; simpl.
  - injection Hi as ->. by rewrite similar_reinforce.
  - by rewrite (IH i).
Qed.

Lemma store_get_set store key l :
  key = "success_patterns"%string \/ key = "anti_patterns"%string \/
  key = "domain_knowledge"%string ->
  store_get (store_set store key l) key = l.
Proof. intros [-> | [-> | ->]]; reflexivity. Qed.

Lemma store_get_last_updated store now key :
  store_get (set_last_updated store now) key = store_get store key.
Proof. done. Qed.

(** A call that found an entry alike leaves the lengths as they are. *)
Lemma add_found_lengths now s pt ctx pat conf gen agent ev imp :
  find_similar_pattern s pt pat <> None ->
  lengths (fst (add_pattern now s pt ctx pat conf gen agent ev imp)) = lengths s.
Proof.
  intros H. unfold add_pattern.
  destruct (find_similar_pattern s pt pat) as [[i existing]|]; [|done].
  simpl. change (lengths (set_last_updated ?s' _)) with (lengths s').
  apply store_set_same_length, length_insert.
Qed.

(** After a call, the next call with the same type and pattern finds an
    entry alike or meets a full list. *)
Lemma add_then_found_or_full now s pt ctx pat conf gen agent ev imp key cap :
  target pt = Some (key, cap) -> key <> "domain_knowledge"%string ->
  let s1 := fst (add_pattern now s pt ctx pat conf gen agent ev imp) in
  find_similar_pattern s1 pt pat <> None \/ length (store_get s1 key) = cap.
Proof.
  intros Ht Hk s1.
  assert (list_key pt = key) as Hkey
    by (destruct (target_not_domain _ _ _ Ht Hk) as [[-> ->]|[-> ->]]; reflexivity).
  assert (key = "success_patterns"%string \/ key = "anti_patterns"%string \/
          key = "domain_knowledge"%string) as Hlisted
    by (destruct (target_not_domain _ _ _ Ht Hk) as [[_ ->]|[_ ->]]; auto).
  destruct (find_similar_pattern s pt pat) as [[i existing]|] eqn:Hfind.
  - left. rewrite find_similar_none. unfold s1, add_pattern. rewrite Hfind. simpl.
    rewrite Hkey, store_get_last_updated, store_get_set by done.
    unfold find_similar_pattern in Hfind. rewrite Hkey in Hfind.
    destruct (find_index _ _) as [k|] eqn:Hidx; [|done].
    destruct (store_get s key !! k) as [q|] eqn:Hq; [|done].
    injection Hfind as <- <-.
    rewrite find_index_insert by done. congruence.
  - pose proof (add_pattern_inserting now s pt ctx pat conf gen agent ev imp key cap Ht Hfind)
      as Hins.
    fold s1 in Hins. rewrite Hins. unfold append_capped.
    set (e := snd (add_pattern now s pt ctx pat conf gen agent ev imp)) in *.
    assert (pattern e = pat) as He.
    { unfold e, add_pattern. rewrite Hfind.
      repeat (destruct (String.eqb pt _); [done|]). done. }
    destruct (cap <? length (store_get s key ++ [e]))%nat eqn:E.
    + right. apply Nat.ltb_lt in E. unfold prune_by_confidence.
      rewrite length_take, (Permutation_length (sort_desc_perm _)). lia.
    + left. rewrite find_similar_none, Hkey, Hins. unfold append_capped. rewrite E.
      intros Hnone.
      assert (similar (PyStr.lower pat) e = false) as Hs
        by (apply (find_index_none _ _ Hnone e), in_or_app; right; by left).
      unfold similar in Hs. rewrite He, String.eqb_refl in Hs. done.
Qed.

(** X1.  For the success patterns and the anti-patterns, a second call with
    the type and the pattern of a first one leaves the length of every list
    as the first call left it: it reinforces an entry alike or, on a full
    list, the entry it appends is pruned against the cap again. *)
Theorem add_twice_same_lengths :
  forall (store : Store) (first second : AddCall) (key : string) (cap : nat),
    target (call_type first) = Some (key, cap) ->
    key <> "domain_knowledge"%string ->
    call_type second = call_type first ->
    call_pattern second = call_pattern first ->
    lengths (fst (run_add (fst (run_add store first)) second))
    = lengths (fst (run_add store first)).
Proof.
  intros store c1 c2 key cap Ht Hk Hty Hpat.
  unfold run_add at 1. rewrite Hty, Hpat.
  set (s1 := fst (run_add store c1)).
  destruct (add_then_found_or_full (call_now c1) store (call_type c1) (call_context c1)
              (call_pattern c1) (call_confidence c1) (call_source_gen c1)
              (call_source_agent c1) (call_evidence c1) (call_impact c1) key cap Ht Hk)
    as [Hfound|Hfull]; fold (run_add store c1) in *; fold s1 in Hfound || fold s1 in Hfull.
  - by apply add_found_lengths.
  - destruct (find_similar_pattern s1 (call_type c1) (call_pattern c1)) eqn:Hfind.
    { apply add_found_lengths. by rewrite Hfind. }
    pose proof (add_pattern_inserting (call_now c2) s1 (call_type c1) (call_context c2)
                  (call_pattern c1) (call_confidence c2) (call_source_gen c2)
                  (call_source_agent c2) (call_evidence c2) (call_impact c2) key cap Ht Hfind)
      as Hins.
    set (s2 := fst (add_pattern _ _ _ _ _ _ _ _ _ _)) in *.
    set (e := snd (add_pattern _ _ _ _ _ _ _ _ _ _)) in *.
    assert (length (store_get s2 key) = length (store_get s1 key)) as Hlen.
    { rewrite Hins. unfold append_capped, prune_by_confidence.
      rewrite length_app, Hfull. simpl.
      assert ((cap <? cap + 1)%nat = true) as -> by (apply Nat.ltb_lt; lia).
      rewrite length_take, (Permutation_length (sort_desc_perm _)), length_app, Hfull.
      simpl. lia. }
    assert (s2 = set_last_updated
                   (store_set s1 key (append_capped (store_get s1 key) e cap)) (call_now c2))
      as Hs2.
    { unfold s2, e, add_pattern. rewrite Hfind.
      destruct (target_not_domain _ _ _ Ht Hk) as [[Hpt ->]|[Hpt ->]];
        rewrite Hpt in *; injection Ht as <-; reflexivity. }
    rewrite Hins in Hlen. rewrite Hs2.
    change (lengths (set_last_updated ?s' _)) with (lengths s').
    by apply store_set_same_length.
Qed.

(** X1, on scenario 3. *)
Lemma add_twice_same_lengths_witness :
  lengths (fst (run_add (fst (run_add fresh_store (api_call "success_pattern")))
                        (api_call "success_pattern")))
  = lengths (fst (run_add fresh_store (api_call "success_pattern"))).
Proof.
  apply (add_twice_same_lengths fresh_store (api_call "success_pattern")
           (api_call "success_pattern") "success_patterns"%string 50%nat);
    [reflexivity | discriminate | reflexivity | reflexivity].
Defined.

(** C4, on a list of 25 anti-patterns of confidence 0.9 that receives one of
    confidence 0.5. *)
Lemma add_keeps_caps_witness :
  top_by_confidence 25
    (anti_patterns full_anti_store ++ [snd (run_add full_anti_store weak_call)])
    (anti_patterns (fst (run_add full_anti_store weak_call))).
Proof.
  apply (proj2 (proj2 add_keeps_caps) full_anti_store weak_call "anti_patterns"%string 25%nat).
  - reflexivity.
  - vm_compute. reflexivity.
  - vm_compute. lia.
Defined.

(** C5.  The search for a duplicate of a [domain_knowledge] pattern looks
    the list up under the key [domain_knowledges], which no store has, and
    finds nothing: the same context and pattern added twice to a fresh
    store give two entries of one occurrence each.  The same pair added
    three times as a success pattern gives one entry, seen 3 times, of
    confidence 0.80. *)
Theorem domain_knowledge_grows_on_repeat :
  (forall (store : Store) (pattern : string),
     find_similar_pattern store "domain_knowledge" pattern = None) /\
  (let once := fst (run_add fresh_store (api_call "domain_knowledge")) in
   let twice := fst (run_add once (api_call "domain_knowledge")) in
   length (domain_knowledge once) = 1%nat /\
   length (domain_knowledge twice) = 2%nat /\
   map occurrences (domain_knowledge twice) = [1; 1]) /\
  (let thrice := run_adds fresh_store (replicate 3 (api_call "success_pattern")) in
   exists p : Entry,
     success_patterns thrice = [p] /\ occurrences p = 3 /\
     (confidence p == 80 # 100)%Q).
Proof.
  split; [|split].
  - intros store pattern. unfold find_similar_pattern.
    change (list_key "domain_knowledge") with "domain_knowledges"%string.
    reflexivity.
  - by vm_compute.
  - eexists. vm_compute. repeat split; congruence.
Qed.

(** C10, on the store of two entries alike [foo]: the first one takes the
    update. *)
Lemma add_reinforces_first_alike_witness :
  snd (run_add two_alike_store
         (plain_call "2026-01-02T00:00:00Z" "success_pattern" "c" "foo"))
  = reinforce "2026-01-02T00:00:00Z" (old_entry "a" "foo bar").
Proof.
  destruct (add_reinforces_first_alike two_alike_store
              (plain_call "2026-01-02T00:00:00Z" "success_pattern" "c" "foo")
              "success_patterns"%string 50%nat 0%nat (old_entry "a" "foo bar"))
    as [Hentry _].
  - reflexivity.
  - discriminate.
  - reflexivity.
  - right; right. reflexivity.
  - intros j q Hj. lia.
  - exact Hentry.
Defined.

(** C10, the claim as stated fails: the store holds an entry with the
    pattern [foo] behind an entry with the pattern [foo bar]; a call with
    the pattern [foo] and another context leaves the former as it was and
    reinforces the latter. *)
Lemma first_alike_entry_takes_the_update :
  let second := old_entry "b" "foo" in
  let after := fst (run_add two_alike_store
                      (plain_call "2026-01-02T00:00:00Z" "success_pattern" "c" "foo")) in
  success_patterns two_alike_store !! 1%nat = Some second /\
  pattern second = "foo"%string /\
  success_patterns after !! 1%nat = Some second /\
  (occurrences <$> success_patterns after !! 0%nat) = Some 2.
Proof. by vm_compute. Qed.


End KnowledgeFacts.

(** ** The file position tracker *)

Section TrackerFacts.
Import Tracker Scenarios.

Lemma lookup_store_state fs p st : lookup_state (store_state fs p st) p = Some st.
Proof.
  induction fs as [|[k old] fs IH]; simpl.
  - by rewrite String.eqb_refl.
  - destruct (String.eqb k p) eqn:E; simpl; by rewrite E.
Qed.

Lemma substring_all s : String.substring 0 (String.length s) s = s.
Proof. induction s as [|c s IH]; simpl; [done|]. by rewrite IH. Qed.

Lemma substring_suffix s1 s2 :
  String.substring (String.length s1) (String.length s2) (s1 ++ s2)%string = s2.
Proof. induction s1 as [|c s1 IH]; simpl; [apply substring_all|done]. Qed.

Lemma length_app_string s1 s2 :
  String.length (s1 ++ s2)%string = (String.length s1 + String.length s2)%nat.
Proof. induction s1 as [|c s1 IH]; simpl; [done|]. by rewrite IH. Qed.

Lemma nonempty_string s : (0 < String.length s)%nat -> negb (String.eqb s EmptyString) = true.
Proof. destruct s; simpl; [lia|done]. Qed.

Lemma read_from_start f : read_from f 0 = data f.
Proof. unfold read_from, st_size. rewrite Nat.sub_0_r. apply substring_all. Qed.

(** A path that is tracked is served from its own state. *)
Lemma get_new_content_tracked now fs tr p f st :
  fs !! p = Some f -> lookup_state (files tr) p = Some st ->
  get_new_content now fs tr p =
    if Qeq_bool (st_mtime f) (last_modified st) && (st_size f =? last_size st)%nat
    then (tr, (EmptyString, false))
    else
      let st1 :=
        if (st_size f <? last_size st)%nat
        then mkFileState (path st) 0 (last_modified st) (last_size st)
                         (last_read st) (error_count st) 0
        else st in
      if readable f then
        let new_content := read_from f (position st1) in
        (mkTracker (store_state (files tr) p
                      (mkFileState (path st1) (tell_after f (position st1))
                         (st_mtime f) (st_size f) (Some now) 0
                         (line_count st1 + count_newlines new_content)))
                   (max_files tr),
         (new_content, negb (String.eqb new_content EmptyString)))
      else
        (mkTracker (store_state (files tr) p
                      (mkFileState (path st1) (position st1) (last_modified st1)
                         (last_size st1) (last_read st1) (S (error_count st1))
                         (line_count st1)))
                   (max_files tr),
         (EmptyString, false)).
Proof. intros Hf Hst. unfold get_new_content. by rewrite Hf, Hst. Qed.

(** A path met for the first time, with room for it or after an eviction. *)
Lemma get_new_content_first now fs tr p f :
  fs !! p = Some f -> lookup_state (files tr) p = None ->
  (0 < max_files tr)%nat -> (0 < st_size f)%nat -> readable f = true ->
  exists tr',
    get_new_content now fs tr p = (tr', (data f, true)) /\
    lookup_state (files tr') p
    = Some (mkFileState p (st_size f) (st_mtime f) (st_size f) (Some now) 0
                        (count_newlines (data f))).
Proof.
  intros Hf Hnone Hmax Hsize Hread. unfold get_new_content. rewrite Hf, Hnone.
  assert (exists tr0, ensure_capacity tr = Some tr0) as [tr0 ->].
  { unfold ensure_capacity. destruct (max_files tr <=? length (files tr))%nat eqn:E; [|eauto].
    destruct (files tr); [|eauto]. apply Nat.leb_le in E. simpl in E. lia. }
  simpl.
  assert ((st_size f =? 0)%nat = false) as -> by (apply Nat.eqb_neq; lia).
  rewrite andb_false_r. simpl. rewrite Hread.
  eexists. split.
  - by rewrite read_from_start, nonempty_string.
  - cbn [files]. rewrite lookup_store_state.
    unfold tell_after. by rewrite Nat.max_0_l.
Qed.

(** C7.  For a tracked path whose file has the modification time and the
    size recorded last, [get_new_content] returns the empty text and
    [false] and changes nothing.  When the file is smaller than recorded,
    the read starts at offset 0: the call returns the whole file and stores
    its size as the offset (offset 0 when the file cannot be opened).  A
    file of 100 bytes that grows to 250 bytes gives its first 100 bytes,
    then the 150 bytes behind them, each time with [true], and then the
    empty text with [false]. *)
Theorem get_new_content_incremental :
  (forall (now : Z) (fs : gmap string File) (tr : FilePositionTracker)
          (p : string) (f : File) (st : FileState),
     fs !! p = Some f -> lookup_state (files tr) p = Some st ->
     (st_mtime f == last_modified st)%Q -> st_size f = last_size st ->
     get_new_content now fs tr p = (tr, (EmptyString, false))) /\
  (forall (now : Z) (fs : gmap string File) (tr : FilePositionTracker)
          (p : string) (f : File) (st : FileState),
     fs !! p = Some f -> lookup_state (files tr) p = Some st ->
     (st_size f < last_size st)%nat ->
     let r := get_new_content now fs tr p in
     (readable f = true ->
      snd r = (data f, negb (String.eqb (data f) EmptyString)) /\
      position <$> lookup_state (files (fst r)) p = Some (st_size f)) /\
     (readable f = false ->
      snd r = (EmptyString, false) /\
      position <$> lookup_state (files (fst r)) p = Some 0%nat)) /\
  (forall (now1 now2 now3 : Z) (fs : gmap string File) (tr : FilePositionTracker)
          (p : string) (m1 m2 : Q) (d1 d2 : string),
     lookup_state (files tr) p = None -> (0 < max_files tr)%nat ->
     String.length d1 = 100%nat -> String.length d2 = 150%nat ->
     let fs1 := <[p := mkFile m1 d1 true]> fs in
     let fs2 := <[p := mkFile m2 (d1 ++ d2) true]> fs in
     let r1 := get_new_content now1 fs1 tr p in
     let r2 := get_new_content now2 fs2 (fst r1) p in
     let r3 := get_new_content now3 fs2 (fst r2) p in
     snd r1 = (d1, true) /\ snd r2 = (d2, true) /\ snd r3 = (EmptyString, false)).
Proof.
  split; [|split].
  - intros now fs tr p f st Hf Hst Hm Hs.
    rewrite (get_new_content_tracked _ _ _ _ _ _ Hf Hst).
    apply Qeq_bool_iff in Hm. rewrite Hm, Hs, Nat.eqb_refl. done.
  - intros now fs tr p f st Hf Hst Hlt r.
    unfold r. rewrite (get_new_content_tracked _ _ _ _ _ _ Hf Hst).
    assert ((st_size f =? last_size st)%nat = false) as -> by (apply Nat.eqb_neq; lia).
    rewrite andb_false_r.
    assert ((st_size f <? last_size st)%nat = true) as -> by (by apply Nat.ltb_lt).
    cbn zeta. cbn [position path last_modified last_size last_read error_count line_count].
    split; intros ->; cbn [fst snd files]; rewrite lookup_store_state, ?read_from_start.
    + split; [done|]. cbn [fmap option_fmap option_map position]. unfold tell_after.
      by rewrite Nat.max_0_l.
    + done.
  - intros now1 now2 now3 fs tr p m1 m2 d1 d2 Hnone Hmax Hd1 Hd2 fs1 fs2 r1 r2 r3.
    destruct (get_new_content_first now1 fs1 tr p (mkFile m1 d1 true)) as (tr1 & Hr1 & Hst1);
      [by apply lookup_insert_eq | done | done | unfold st_size; simpl; lia | done |].
    fold r1 in Hr1. unfold st_size in Hst1. simpl in Hst1. rewrite Hd1 in Hst1.
    assert (fs2 !! p = Some (mkFile m2 (d1 ++ d2) true)) as Hf2 by apply lookup_insert_eq.
    assert (st_size (mkFile m2 (d1 ++ d2) true) = 250%nat) as Hsz
      by (unfold st_size; simpl; rewrite length_app_string; lia).
    assert (r2 = (mkTracker (store_state (files tr1) p
                    (mkFileState p 250 m2 250 (Some now2) 0
                       (count_newlines d1 + count_newlines d2)))
                    (max_files tr1), (d2, true))) as Hr2.
    { unfold r2. rewrite Hr1. cbn [fst].
      rewrite (get_new_content_tracked _ _ _ _ _ _ Hf2 Hst1).
      rewrite Hsz. cbn -[read_from tell_after count_newlines].
      rewrite andb_false_r.
      assert (read_from (mkFile m2 (d1 ++ d2) true) 100 = d2) as ->.
      { unfold read_from. rewrite Hsz. cbn [data].
        replace (250 - 100)%nat with (String.length d2) by lia.
        rewrite <- Hd1 at 1. apply substring_suffix. }
      unfold tell_after. rewrite Hsz.
      rewrite nonempty_string by lia. done. }
    repeat split.
    + by rewrite Hr1.
    + by rewrite Hr2.
    + unfold r3. rewrite Hr2. cbn [fst].
      erewrite get_new_content_tracked; [|exact Hf2|cbn [files]; apply lookup_store_state].
      rewrite Hsz. cbn [last_size last_modified st_mtime].
      by rewrite Qeq_bool_refl, Nat.eqb_refl.
Qed.

(** C7, on a file of 100 letters [a] that grows by 150 letters [b]. *)
Lemma get_new_content_incremental_witness :
  let p := "agent.out"%string in
  let tr := mkTracker [] 100 in
  let fs1 := <[p := mkFile 1 (filled 100 "a") true]> (∅ : gmap string File) in
  let fs2 := <[p := mkFile 2 (filled 100 "a" ++ filled 150 "b")%string true]>
               (∅ : gmap string File) in
  let r1 := get_new_content 10 fs1 tr p in
  let r2 := get_new_content 20 fs2 (fst r1) p in
  let r3 := get_new_content 30 fs2 (fst r2) p in
  snd r1 = (filled 100 "a", true) /\ snd r2 = (filled 150 "b", true) /\
  snd r3 = (EmptyString, false).
Proof.
  apply (proj2 (proj2 get_new_content_incremental) 10 20 30 ∅ (mkTracker [] 100)
           "agent.out"%string 1%Q 2%Q (filled 100 "a") (filled 150 "b"));
    [reflexivity | simpl; lia | reflexivity | reflexivity].
Defined.

End TrackerFacts.

(** ** The status of an agent *)

Section AgentStatusFacts.
Import Json Parser AgentStatus.



End AgentStatusFacts.

(** ** The event parser *)

Section ParserFacts.
Import Json Outcome Parser ParserSpec Scenarios.

Lemma fold_left_add_foldr (l : list Z) (a : Z) : fold_left Z.add l a = a + foldr Z.add 0 l.
Proof.
  revert a. induction l as [|x l IH]; intros a; simpl; [lia|]. rewrite IH. lia.
Qed.

Lemma estimate_progress_capped parsed : estimate_progress parsed = capped_estimate parsed.
Proof.
  unfold estimate_progress, capped_estimate, task_bonus, total_tool_invocations.
  destruct (has_completion_marker parsed); [done|].
  rewrite fold_left_add_foldr.
  destruct (truthy (current_task parsed)); f_equal; lia.
Qed.

(** C3, the claim as stated fails: with 21 invocations of one tool and no
    file the estimate is 60, where the stated sum gives 63. *)
Lemma estimate_progress_differs_from_stated :
  estimate_progress many_tools = 60 /\ stated_estimate many_tools = 63.
Proof. by vm_compute. Qed.

(** C3, as amended.  The progress estimate is 100 with a completion marker
    and otherwise the least of 95 and the sum of: 3 per tool invocation up
    to 60, 5 per file created up to 20, 2 per file modified up to 10, and 5
    when there is a current task.  It is the sum the specification states
    as long as there are at most 20 tool invocations, 4 files created and 5
    files modified.  The stream of the three events [Write a.py],
    [Edit a.py], [Bash] counts each tool once, lists [a.py] as created and
    as modified, and is estimated at 16. *)
Theorem estimate_progress_spec :
  (forall parsed : ParsedOutput, estimate_progress parsed = capped_estimate parsed) /\
  (forall parsed : ParsedOutput,
     total_tool_invocations parsed <= 20 ->
     (length (files_created parsed) <= 4)%nat ->
     (length (files_modified parsed) <= 5)%nat ->
     estimate_progress parsed = stated_estimate parsed) /\
  (exists r : ParsedOutput,
     parse_output_content three_tools None = Returns r /\
     tools_used r = [("Write", 1); ("Edit", 1); ("Bash", 1)] /\
     files_created r = ["a.py"] /\ files_modified r = ["a.py"] /\
     progress_estimate r = 16).
Proof.
  split; [exact estimate_progress_capped|]. split.
  - intros parsed Ht Hc Hm. rewrite estimate_progress_capped.
    unfold capped_estimate, stated_estimate.
    destruct (has_completion_marker parsed); [done|]. f_equal. lia.
  - eexists. split; [by vm_compute|]. by vm_compute.
Qed.

(** C3, on three invocations of one tool and one file created. *)
Lemma estimate_progress_spec_witness :
  estimate_progress (mkParsed 3 [("Bash", 3)] ["a.py"] [] None false 0 (JStr "") [] 3 0 0)
  = stated_estimate (mkParsed 3 [("Bash", 3)] ["a.py"] [] None false 0 (JStr "") [] 3 0 0).
Proof.
  apply (proj1 (proj2 estimate_progress_spec)); [by vm_compute | simpl; lia | simpl; lia].
Defined.

(** C9.  An event whose [message] is a text of 200 characters or more adds
    nothing to [errors], whatever its type and its [is_error]: the error
    event with a message of 200 characters goes through the parser and
    leaves [errors] empty, where one of 199 characters is recorded whole. *)
Theorem long_error_message_is_dropped :
  (forall (errors : list string) (event : list (string * JSON)) (text : string),
     assoc event "message" = Some (JStr text) ->
     (200 <= String.length text)%nat ->
     note_error errors event = errors) /\
  (exists r : ParsedOutput,
     parse_output_content [mkLine (Some (error_event (filled 200 "x"))) None] None
     = Returns r /\
     total_events r = 1 /\ errors r = []) /\
  (exists r : ParsedOutput,
     parse_output_content [mkLine (Some (error_event (filled 199 "x"))) None] None
     = Returns r /\
     errors r = [filled 199 "x"]).
Proof.
  split; [|split].
  - intros errors event text Hmsg Hlen. unfold note_error, get_or.
    rewrite Hmsg. simpl. apply Nat.ltb_ge in Hlen. rewrite Hlen.
    by destruct (_ || _).
  - eexists. split; [by vm_compute|]. by vm_compute.
  - eexists. split; [by vm_compute|]. by vm_compute.
Qed.

End ParserFacts.

(** ** The waves *)

Section WaveFacts.
Import Swarm WaveSpec Scenarios.

Lemma filter_undone_nil st l :
  filter (fun a => agent_done st a = false) l = [] <->
  forall a, In a l -> agent_done st a = true.
Proof.
  induction l as [|x l IH]; simpl; [done|].
  rewrite filter_cons. destruct (decide (agent_done st x = false)) as [E|E].
  - split; [done|]. intros H. rewrite (H x) in E by auto. done.
  - rewrite IH. apply not_false_is_true in E. split.
    + intros H a [<-|Ha]; auto.
    + intros H a Ha. apply H. auto.
Qed.

Lemma can_advance_wave_iff st :
  WaveManagerCli.can_advance_wave st = true <->
  get_current_wave st < get_total_waves st /\ wave_done st (get_current_wave st).
Proof.
  unfold WaveManagerCli.can_advance_wave, wave_done.
  destruct (get_total_waves st <=? get_current_wave st) eqn:E.
  - apply Z.leb_le in E. split; [done|]. lia.
  - apply Z.leb_gt in E. rewrite <- filter_undone_nil.
    destruct (filter _ _); split; try done; try tauto. by intros [_ ?].
Qed.

Lemma is_wave_complete_iff st wave :
  SwarmOrchestrator.is_wave_complete st wave = true <-> wave_done st wave.
Proof.
  unfold SwarmOrchestrator.is_wave_complete, wave_done.
  rewrite forallb_forall. done.
Qed.

(** X2.  The barrier: [advance_wave] of [wave-manager.py] and of the swarm
    loop answer [True] exactly when the current wave is not the last one
    and every agent of it is completed or succeeded; otherwise both answer
    [False] and leave the state as it is. *)
Theorem advance_wave_barrier (now : string) (st : State) :
  let met := get_current_wave st < get_total_waves st /\ wave_done st (get_current_wave st) in
  (fst (WaveManagerCli.advance_wave now st) = true <-> met) /\
  (fst (SwarmOrchestrator.advance_wave now st) = true <-> met) /\
  (~ met -> WaveManagerCli.advance_wave now st = (false, st) /\
            SwarmOrchestrator.advance_wave now st = (false, st)).
Proof.
  intros met.
  pose proof (can_advance_wave_iff st) as Hcli.
  pose proof (is_wave_complete_iff st (get_current_wave st)) as Hsw.
  unfold WaveManagerCli.advance_wave, SwarmOrchestrator.advance_wave.
  destruct (WaveManagerCli.can_advance_wave st) eqn:E1;
    destruct (get_total_waves st <=? get_current_wave st) eqn:E2;
    destruct (SwarmOrchestrator.is_wave_complete st (get_current_wave st)) eqn:E3;
    simpl; unfold met;
    try apply Z.leb_le in E2; try apply Z.leb_gt in E2;
    repeat split; try done; try tauto; try lia.
  all: try (intros _; tauto).
  all: try (intros [? ?]; lia).
Qed.

(** X3.  When the barrier is met, [advance_wave] of [wave-manager.py]
    answers [True], moves [current_wave] on by one, marks the wave it
    leaves [completed] with [completed_at], marks the wave it enters
    [running] with [started_at], and changes no other wave and no agent. *)
Theorem cli_advance_wave_effect (now : string) (st : State) :
  get_current_wave st < get_total_waves st ->
  wave_done st (get_current_wave st) ->
  let current := get_current_wave st in
  let st' := snd (WaveManagerCli.advance_wave now st) in
  fst (WaveManagerCli.advance_wave now st) = true /\
  current_wave st' = Some (current + 1) /\
  waves st' !! current = mark_completed now <$> waves st !! current /\
  waves st' !! (current + 1) = mark_running now <$> waves st !! (current + 1) /\
  (forall w, w <> current -> w <> current + 1 -> waves st' !! w = waves st !! w) /\
  agents st' = agents st /\ total_waves st' = total_waves st.
Proof.
  intros Hlt Hdone current st'. unfold st', WaveManagerCli.advance_wave.
  rewrite (proj2 (can_advance_wave_iff st)) by done. simpl.
  fold current. repeat split.
  - rewrite lookup_alter_eq, lookup_alter_ne by lia. done.
  - rewrite lookup_alter_ne, lookup_alter_eq by lia. done.
  - intros w H1 H2. by rewrite !lookup_alter_ne.
Qed.

(** What [WaveManager.advance_wave] writes when the barrier is met. *)
Lemma swarm_advance_wave_effect (now : string) (st : State) :
  get_current_wave st < get_total_waves st ->
  wave_done st (get_current_wave st) ->
  let current := get_current_wave st in
  let st' := snd (SwarmOrchestrator.advance_wave now st) in
  fst (SwarmOrchestrator.advance_wave now st) = true /\
  current_wave st' = Some (current + 1) /\
  waves st' !! (current + 1) = mark_running now <$> waves st !! (current + 1) /\
  (forall w, w <> current + 1 -> waves st' !! w = waves st !! w) /\
  agents st' = agents st /\ total_waves st' = total_waves st.
Proof.
  intros Hlt Hdone current st'. unfold st', SwarmOrchestrator.advance_wave.
  assert ((get_total_waves st <=? get_current_wave st) = false) as -> by (apply Z.leb_gt; lia).
  rewrite (proj2 (is_wave_complete_iff st _)) by done. simpl.
  fold current. repeat split.
  - by rewrite lookup_alter_eq.
  - intros w H1. by rewrite lookup_alter_ne.
Qed.

(** C2.  [WaveManager.advance_wave] of the swarm loop never writes the
    record of the wave it leaves.  In scenario 4, once [a1] and [a2] have
    completed, it answers [True] and sets wave 2 to [running], and wave 1
    still reads [running] with no [completed_at]; [advance_wave] of
    [wave-manager.py] on the same state marks wave 1 [completed]. *)
Theorem swarm_advance_never_marks_completed :
  (forall (now : string) (st : State),
     waves (snd (SwarmOrchestrator.advance_wave now st)) !! get_current_wave st
     = waves st !! get_current_wave st) /\
  (let now := "2026-01-01T00:10:00Z" in
   let swarm := SwarmOrchestrator.advance_wave now barrier_state in
   let cli := WaveManagerCli.advance_wave now barrier_state in
   fst swarm = true /\ fst cli = true /\
   current_wave (snd swarm) = Some 2 /\ current_wave (snd cli) = Some 2 /\
   (wave_status <$> waves (snd swarm) !! 2) = Some (Some "running"%string) /\
   (wave_status <$> waves (snd swarm) !! 1) = Some (Some "running"%string) /\
   (completed_at <$> waves (snd swarm) !! 1) = Some None /\
   (wave_status <$> waves (snd cli) !! 1) = Some (Some "completed"%string) /\
   (completed_at <$> waves (snd cli) !! 1) = Some (Some now)).
Proof.
  split.
  - intros now st. unfold SwarmOrchestrator.advance_wave.
    destruct (_ <=? _); [done|]. destruct (negb _); [done|].
    simpl. rewrite lookup_alter_ne by lia. done.
  - by vm_compute.
Qed.

Lemma spawn_step_keeps_spawned now ws a b :
  spawned now ws a -> spawned now (SwarmOrchestrator.spawn_step now ws b) a.
Proof.
  intros (Hfile & ag & Hag & Hst & Hgen). unfold SwarmOrchestrator.spawn_step.
  destruct (unspawned (state ws) b) eqn:E; [|by repeat esplit].
  destruct (decide (b = a)) as [->|Hne].
  { unfold unspawned in E. rewrite Hag, Hgen in E. done. }
  split; simpl.
  - rewrite lookup_insert_ne by congruence. done.
  - exists ag. by rewrite lookup_alter_ne.
Qed.

Lemma spawn_step_keeps_awaiting now ws a b :
  b <> a -> awaiting ws a -> awaiting (SwarmOrchestrator.spawn_step now ws b) a.
Proof.
  intros Hne (ag & Hag & Hgen). unfold SwarmOrchestrator.spawn_step.
  destruct (unspawned (state ws) b); [|by exists ag].
  exists ag. simpl. by rewrite lookup_alter_ne.
Qed.

Lemma spawn_step_spawns now ws a : awaiting ws a -> spawned now (SwarmOrchestrator.spawn_step now ws a) a.
Proof.
  intros (ag & Hag & Hgen). unfold SwarmOrchestrator.spawn_step, unspawned. rewrite Hag, Hgen. simpl.
  split; simpl.
  - by rewrite lookup_insert_eq.
  - rewrite lookup_alter_eq, Hag. simpl. by eexists.
Qed.

Lemma spawn_fold_keeps now l : forall ws a,
  spawned now ws a -> spawned now (fold_left (SwarmOrchestrator.spawn_step now) l ws) a.
Proof.
  induction l as [|b l IH]; intros ws a H; [done|].
  simpl. by apply IH, spawn_step_keeps_spawned.
Qed.

Lemma spawn_fold_spawns now l : forall ws a,
  In a l -> awaiting ws a -> spawned now (fold_left (SwarmOrchestrator.spawn_step now) l ws) a.
Proof.
  induction l as [|b l IH]; intros ws a Hin Haw; [done|].
  simpl. destruct (decide (b = a)) as [->|Hne].
  - by apply spawn_fold_keeps, spawn_step_spawns.
  - destruct Hin as [?|Hin]; [done|].
    by apply IH, spawn_step_keeps_awaiting.
Qed.

(** X4.  When the barrier is met, a pass of the swarm loop advances and then
    spawns generation 1 for every registered agent of the new wave that has
    no generation yet: its first [status.json] is written, and the registry
    shows it [running] at generation 1. *)
Theorem advance_and_spawn_spawns (now : string) (ws : Workspace) (a : string) :
  get_current_wave (state ws) < get_total_waves (state ws) ->
  wave_done (state ws) (get_current_wave (state ws)) ->
  In a (get_wave_agents (state ws) (get_current_wave (state ws) + 1)) ->
  awaiting ws a ->
  fst (SwarmOrchestrator.advance_and_spawn now ws) = true /\
  spawned now (snd (SwarmOrchestrator.advance_and_spawn now ws)) a.
Proof.
  intros Hlt Hdone Hin Haw.
  destruct (swarm_advance_wave_effect now (state ws) Hlt Hdone)
    as (Hok & Hcur & Hnew & Hother & Hag & Htot).
  unfold SwarmOrchestrator.advance_and_spawn.
  destruct (SwarmOrchestrator.advance_wave now (state ws)) as [ok st'] eqn:E.
  simpl in *. split; [done|].
  unfold SwarmOrchestrator.spawn_current_wave. simpl.
  apply (spawn_fold_spawns now).
  - unfold get_current_wave at 1. rewrite Hcur. simpl.
    unfold get_wave_agents in *. rewrite Hnew.
    destruct (waves (state ws) !! (get_current_wave (state ws) + 1)); [done|done].
  - destruct Haw as (ag & Ha & Hg). exists ag. simpl. by rewrite Hag.
Qed.

(** X2, on scenario 4 while [a1] is still running: both refuse. *)
Lemma advance_wave_barrier_witness :
  WaveManagerCli.advance_wave "2026-01-01T00:05:00Z" running_state = (false, running_state) /\
  SwarmOrchestrator.advance_wave "2026-01-01T00:05:00Z" running_state = (false, running_state).
Proof.
  apply (proj2 (proj2 (advance_wave_barrier "2026-01-01T00:05:00Z" running_state))).
  intros [_ Hdone]. specialize (Hdone "a1"%string (or_introl eq_refl)). discriminate Hdone.
Defined.

(** X3, on scenario 4 once [a1] and [a2] have completed. *)
Lemma cli_advance_wave_effect_witness :
  let st' := snd (WaveManagerCli.advance_wave "2026-01-01T00:10:00Z" barrier_state) in
  waves st' !! 1 = mark_completed "2026-01-01T00:10:00Z" <$> waves barrier_state !! 1.
Proof.
  destruct (cli_advance_wave_effect "2026-01-01T00:10:00Z" barrier_state)
    as (_ & _ & Hold & _).
  - reflexivity.
  - intros a Ha. simpl in Ha. destruct Ha as [<-|[<-|[]]]; reflexivity.
  - exact Hold.
Defined.

(** X4, on scenario 4: [a3] is spawned. *)
Lemma advance_and_spawn_spawns_witness :
  spawned "2026-01-01T00:10:00Z"
    (snd (SwarmOrchestrator.advance_and_spawn "2026-01-01T00:10:00Z"
            (mkWorkspace barrier_state ∅)))
    "a3".
Proof.
  destruct (advance_and_spawn_spawns "2026-01-01T00:10:00Z"
              (mkWorkspace barrier_state ∅) "a3") as [_ Hspawned].
  - reflexivity.
  - intros a Ha. simpl in Ha. destruct Ha as [<-|[<-|[]]]; reflexivity.
  - simpl. by left.
  - exists (worker "pending" 0). split; reflexivity.
  - exact Hspawned.
Defined.

End WaveFacts.

(** ** The other operations of the tracker *)

Section TrackerOpsFacts.
Import Tracker TrackerOps Scenarios.

Lemma length_store_state fs p st :
  length (store_state fs p st)
  = match lookup_state fs p with Some _ => length fs | None => S (length fs) end.
Proof.
  induction fs as [|[k old] fs IH]; simpl; [done|].
  destruct (String.eqb k p); simpl; [done|]. rewrite IH. by destruct (lookup_state fs p).
Qed.

Lemma length_remove_state fs p :
  is_Some (lookup_state fs p) -> S (length (remove_state fs p)) = length fs.
Proof.
  induction fs as [|[k old] fs IH]; simpl; [by intros [? ?]|].
  destruct (String.eqb k p); simpl; [done|]. intros H. by rewrite IH.
Qed.

Lemma lookup_remove_other fs p q :
  p <> q -> lookup_state (remove_state fs q) p = lookup_state fs p.
Proof.
  intros Hne. induction fs as [|[k old] fs IH]; simpl; [done|].
  destruct (String.eqb k q) eqn:Eq; simpl.
  - apply String.eqb_eq in Eq. subst k.
    destruct (String.eqb q p) eqn:Ep; [|done]. apply String.eqb_eq in Ep. congruence.
  - destruct (String.eqb k p); [done|]. exact IH.
Qed.

Lemma lookup_store_other fs p q st :
  p <> q -> lookup_state (store_state fs q st) p = lookup_state fs p.
Proof.
  intros Hne. induction fs as [|[k old] fs IH]; simpl.
  - destruct (String.eqb q p) eqn:E; [|done]. apply String.eqb_eq in E. congruence.
  - destruct (String.eqb k q) eqn:Eq; simpl.
    + apply String.eqb_eq in Eq. subst k.
      destruct (String.eqb q p) eqn:Ep; [|done]. apply String.eqb_eq in Ep. congruence.
    + destruct (String.eqb k p); [done|]. exact IH.
Qed.

Lemma oldest_from_tracked rest : forall best fs,
  is_Some (lookup_state fs (fst best)) ->
  (forall kv, In kv rest -> is_Some (lookup_state fs (fst kv))) ->
  is_Some (lookup_state fs (oldest_from best rest)).
Proof.
  induction rest as [|kv rest IH]; intros best fs Hb Hrest; simpl; [done|].
  destruct (read_before _ _); apply IH; auto.
  - apply Hrest. by left.
  - intros kv' H. apply Hrest. by right.
  - intros kv' H. apply Hrest. by right.
Qed.

Lemma lookup_state_in fs kv :
  In kv fs -> is_Some (lookup_state fs (fst kv)).
Proof.
  induction fs as [|[k old] fs IH]; simpl; [done|].
  intros [<-|Hin]; simpl.
  - by rewrite String.eqb_refl.
  - destruct (String.eqb k (fst kv)); [done|]. by apply IH.
Qed.

Lemma ensure_capacity_room tr tr' :
  ensure_capacity tr = Some tr' ->
  (length (files tr) <= max_files tr)%nat ->
  max_files tr' = max_files tr /\
  ((length (files tr') < max_files tr)%nat).
Proof.
  unfold ensure_capacity. destruct (max_files tr <=? length (files tr))%nat eqn:E.
  - apply Nat.leb_le in E. destruct (files tr) as [|kv rest] eqn:Hf; [done|].
    intros [= <-] Hle. simpl. split; [done|].
    assert (is_Some (lookup_state (kv :: rest) (oldest_from kv rest))) as Hs.
    { apply oldest_from_tracked.
      - apply lookup_state_in. by left.
      - intros kv' H. apply lookup_state_in. by right. }
    pose proof (length_remove_state _ _ Hs) as Hl. simpl in *. lia.
  - apply Nat.leb_gt in E. intros [= <-] _. done.
Qed.

(** The tracker a call works on once the path has its state. *)
Lemma tracked_or_made_room tr p :
  (length (files tr) <= max_files tr)%nat ->
  match lookup_state (files tr) p with
  | Some st => True
  | None =>
      match ensure_capacity tr with
      | Some tr' =>
          max_files tr' = max_files tr /\
          (length (store_state (files tr') p (new_state p)) <= max_files tr)%nat
      | None => True
      end
  end.
Proof.
  intros Hle. destruct (lookup_state (files tr) p) eqn:Hl; [done|].
  destruct (ensure_capacity tr) as [tr'|] eqn:He; [|done].
  destruct (ensure_capacity_room _ _ He Hle) as [Hm Hlt]. split; [done|].
  rewrite length_store_state. destruct (lookup_state (files tr') p); lia.
Qed.

Lemma length_store_tracked fs p st st' :
  lookup_state fs p = Some st -> length (store_state fs p st') = length fs.
Proof. intros H. by rewrite length_store_state, H. Qed.

(** X5.  A tracker that holds at most [max_files] paths still does after
    [get_new_content] and after [get_all_content], whatever the path, the
    file system and the outcome of the call; [max_files] itself never
    changes. *)
Theorem tracker_within_capacity :
  forall (now : Z) (fs : gmap string File) (tr : FilePositionTracker) (p : string),
    (tracked_count tr <= max_files tr)%nat ->
    let polled := fst (get_new_content now fs tr p) in
    let loaded := fst (get_all_content now fs tr p) in
    (tracked_count polled <= max_files polled)%nat /\ max_files polled = max_files tr /\
    (tracked_count loaded <= max_files loaded)%nat /\ max_files loaded = max_files tr.
Proof.
  intros now fs tr p Hle polled loaded. unfold tracked_count in *.
  pose proof (tracked_or_made_room tr p Hle) as Hroom.
  assert (forall st', lookup_state (files tr) p <> None ->
            length (store_state (files tr) p st') = length (files tr)) as Hsame.
  { intros st' H. destruct (lookup_state (files tr) p) eqn:E; [|done].
    by eapply length_store_tracked. }
  assert (forall tr' st st', length (store_state (store_state (files tr') p st) p st')
                             = length (store_state (files tr') p st)) as Htwice.
  { intros tr' st st'. eapply length_store_tracked, lookup_store_state. }
  split; [|split; [|split]].
  all: unfold polled, loaded, get_new_content, get_all_content.
  all: destruct (fs !! p) as [f|]; [|done].
  all: try destruct (readable f) eqn:Hr; try done.
  all: destruct (lookup_state (files tr) p) as [st|] eqn:Hl;
    [|destruct (ensure_capacity tr) as [tr'|] eqn:He; [destruct Hroom as [Hm Hlen]|done]].
  all: cbn zeta; cbn [fst snd files max_files].
  all: repeat match goal with
       | |- context [if ?b then _ else _] => destruct b
       end; cbn [fst snd files max_files];
       rewrite ?Htwice, ?Hsame by congruence; try done; try lia.
Qed.

Lemma string_app_nil_r (s : string) : (s ++ EmptyString)%string = s.
Proof.
  induction s as [|c s IH]; [done|].
  change (String c (s ++ EmptyString) = String c s). by rewrite IH.
Qed.

Lemma string_app_assoc (a b c : string) : ((a ++ b) ++ c)%string = (a ++ (b ++ c))%string.
Proof.
  induction a as [|x a IH]; [done|].
  change (String x ((a ++ b) ++ c) = String x (a ++ (b ++ c))). by rewrite IH.
Qed.


Lemma read_from_suffix m prev extra r :
  read_from (mkFile m (prev ++ extra) r) (String.length prev) = extra.
Proof.
  unfold read_from, st_size. cbn [data]. rewrite length_app_string.
  replace (String.length prev + String.length extra - String.length prev)%nat
    with (String.length extra) by lia.
  apply substring_suffix.
Qed.

Lemma poll_appended now fs tr p prev f extra :
  caught_up tr p prev \/
  (lookup_state (files tr) p = None /\ prev = EmptyString /\ (0 < max_files tr)%nat) ->
  fs !! p = Some f -> readable f = true -> data f = (prev ++ extra)%string ->
  fst (snd (get_new_content now fs tr p)) = extra /\
  caught_up (fst (get_new_content now fs tr p)) p (data f).
Proof.
  intros Hstart Hf Hr Hd.
  assert (exists tr1 st,
            get_new_content now fs tr p =
              (if Qeq_bool (st_mtime f) (last_modified st) && (st_size f =? last_size st)%nat
               then (tr1, (EmptyString, false))
               else
                 let new_content := read_from f (position st) in
                 (mkTracker (store_state (files tr1) p
                    (mkFileState (path st) (tell_after f (position st)) (st_mtime f)
                       (st_size f) (Some now) 0 (line_count st + count_newlines new_content)))
                    (max_files tr1),
                  (new_content, negb (String.eqb new_content EmptyString)))) /\
            lookup_state (files tr1) p = Some st /\
            position st = String.length prev /\ last_size st = String.length prev)
    as (tr1 & st & Heq & Hl1 & Hpos & Hsize).
  { destruct Hstart as [(st & Hl & Hpos & Hsize)|(Hl & -> & Hmax)].
    - exists tr, st. split; [|done].
      rewrite (get_new_content_tracked _ _ _ _ _ _ Hf Hl).
      destruct (_ && _); [done|].
      assert ((st_size f <? last_size st)%nat = false) as ->.
      { apply Nat.ltb_ge. unfold st_size. rewrite Hsize, Hd, length_app_string. lia. }
      cbn zeta. by rewrite Hr.
    - unfold get_new_content. rewrite Hf, Hl.
      assert (exists tr0, ensure_capacity tr = Some tr0) as [tr0 ->].
      { unfold ensure_capacity.
        destruct (max_files tr <=? length (files tr))%nat eqn:E; [|eauto].
        destruct (files tr); [|eauto]. apply Nat.leb_le in E. simpl in E. lia. }
      exists (mkTracker (store_state (files tr0) p (new_state p)) (max_files tr0)),
             (new_state p).
      split; [|by cbn [files]; rewrite lookup_store_state].
      cbn zeta. destruct (_ && _); [done|].
      cbn [new_state last_size position Nat.ltb Nat.leb]. by rewrite Hr. }
  rewrite Heq. clear Heq.
  destruct (Qeq_bool _ _ && _) eqn:E.
  - apply andb_true_iff in E as [_ E]. apply Nat.eqb_eq in E.
    unfold st_size in E. rewrite Hd, length_app_string, Hsize in E.
    assert (extra = EmptyString) as -> by (destruct extra; [done|simpl in E; lia]).
    split; [done|]. exists st. rewrite Hd, length_app_string. simpl.
    rewrite Nat.add_0_r. done.
  - cbn zeta. cbn [fst snd files]. rewrite Hpos.
    assert (f = mkFile (st_mtime f) (prev ++ extra) (readable f)) as Hfeq
      by (destruct f; simpl in *; congruence).
    split.
    + rewrite Hfeq. apply read_from_suffix.
    + unfold caught_up. cbn [fst files]. eexists. rewrite lookup_store_state.
      split; [done|]. cbn [position last_size].
      unfold tell_after, st_size. rewrite Hd, length_app_string. lia.
Qed.

(** X6.  Polling loses nothing and repeats nothing: when a path that is not
    tracked yet is polled any number of times while its file only grows and
    can be read, the chunks returned, put end to end, are the text of the
    file at the last poll. *)
Theorem poll_all_concatenates :
  forall (steps : list (Z * gmap string File)) (tr : FilePositionTracker) (p : string),
    lookup_state (files tr) p = None -> (0 < max_files tr)%nat ->
    appended p EmptyString steps ->
    snd (poll_all tr p steps) = final_text p EmptyString steps.
Proof.
  intros steps tr p Hnone Hmax Happ.
  assert (forall steps tr prev,
            caught_up tr p prev \/
            (lookup_state (files tr) p = None /\ prev = EmptyString /\ (0 < max_files tr)%nat) ->
            appended p prev steps ->
            (prev ++ snd (poll_all tr p steps))%string = final_text p prev steps) as Hgen.
  { clear. induction steps as [|[now fs] steps IH]; intros tr prev Hstart Happ.
    - simpl. apply string_app_nil_r.
    - simpl in Happ. destruct Happ as (f & extra & Hf & Hr & Hd & Hrest).
      destruct (poll_appended now fs tr p prev f extra Hstart Hf Hr Hd) as [Hchunk Hnext].
      simpl. rewrite Hf, Hchunk.
      rewrite <- (IH (fst (get_new_content now fs tr p)) (data f)); [|by left|done].
      rewrite Hd. by rewrite string_app_assoc. }
  rewrite <- (Hgen steps tr EmptyString); [done| |done]. right. done.
Qed.

(** X7.  [get_all_content] on a path that is not tracked yet returns the
    whole text and leaves the offset at its end: the next [get_new_content]
    returns exactly what was appended since, and reports new content exactly
    when that is not empty. *)
Theorem initial_load_then_poll :
  forall (now1 now2 : Z) (fs1 fs2 : gmap string File) (tr : FilePositionTracker)
         (p : string) (f1 f2 : File) (extra : string),
    lookup_state (files tr) p = None -> (0 < max_files tr)%nat ->
    fs1 !! p = Some f1 -> readable f1 = true ->
    fs2 !! p = Some f2 -> readable f2 = true ->
    data f2 = (data f1 ++ extra)%string ->
    let loaded := get_all_content now1 fs1 tr p in
    let polled := get_new_content now2 fs2 (fst loaded) p in
    snd loaded = data f1 /\
    snd polled = (extra, negb (String.eqb extra EmptyString)).
Proof.
  intros now1 now2 fs1 fs2 tr p f1 f2 extra Hnone Hmax Hf1 Hr1 Hf2 Hr2 Hd loaded polled.
  assert (exists tr0, ensure_capacity tr = Some tr0) as [tr0 He].
  { unfold ensure_capacity.
    destruct (max_files tr <=? length (files tr))%nat eqn:E; [|eauto].
    destruct (files tr); [|eauto]. apply Nat.leb_le in E. simpl in E. lia. }
  assert (loaded =
            (mkTracker (store_state (store_state (files tr0) p (new_state p)) p
                          (mkFileState p (String.length (data f1)) 0 0 (Some now1) 0 0))
                       (max_files tr0), data f1)) as Hl.
  { unfold loaded, get_all_content. by rewrite Hf1, Hr1, Hnone, He. }
  split; [by rewrite Hl|].
  unfold polled. rewrite Hl. cbn [fst].
  erewrite get_new_content_tracked; [|exact Hf2|cbn [files]; apply lookup_store_state].
  cbn [last_modified last_size position path line_count error_count last_read].
  assert (f2 = mkFile (st_mtime f2) (data f1 ++ extra) true) as Hfeq
    by (destruct f2; simpl in *; congruence).
  destruct (Qeq_bool _ _ && _) eqn:E.
  - apply andb_true_iff in E as [_ E]. apply Nat.eqb_eq in E.
    unfold st_size in E. rewrite Hd, length_app_string in E.
    assert (extra = EmptyString) as -> by (destruct extra; [done|simpl in E; lia]). done.
  - cbn [Nat.ltb Nat.leb]. rewrite Hr2. cbn zeta. cbn [snd].
    rewrite Hfeq at 1 2. by rewrite read_from_suffix.
Qed.

(** X8.  A poll that cannot open a tracked file that did not shrink returns
    the empty text and [False], keeps the offset, the size, the modification
    time and the line count recorded for the path and does not lower its
    error count; every later poll returns what it would have returned
    without the failed one. *)
Theorem failed_read_keeps_offset :
  forall (now : Z) (fs : gmap string File) (tr : FilePositionTracker)
         (p : string) (f : File) (st : FileState),
    fs !! p = Some f -> lookup_state (files tr) p = Some st ->
    readable f = false -> (last_size st <= st_size f)%nat ->
    let failed := get_new_content now fs tr p in
    snd failed = (EmptyString, false) /\
    (exists st' : FileState,
       lookup_state (files (fst failed)) p = Some st' /\
       position st' = position st /\ last_size st' = last_size st /\
       last_modified st' = last_modified st /\ line_count st' = line_count st /\
       (error_count st <= error_count st')%nat) /\
    forall (now' : Z) (fs' : gmap string File),
      snd (get_new_content now' fs' (fst failed) p) = snd (get_new_content now' fs' tr p).
Proof.
  intros now fs tr p f st Hf Hst Hr Hsize failed.
  assert (failed = (tr, (EmptyString, false)) \/
          failed = (mkTracker (store_state (files tr) p
                       (mkFileState (path st) (position st) (last_modified st) (last_size st)
                          (last_read st) (S (error_count st)) (line_count st)))
                       (max_files tr), (EmptyString, false))) as [Hfail|Hfail].
  { unfold failed. rewrite (get_new_content_tracked _ _ _ _ _ _ Hf Hst).
    destruct (_ && _); [by left|]. right.
    assert ((st_size f <? last_size st)%nat = false) as -> by (apply Nat.ltb_ge; lia).
    cbn zeta. by rewrite Hr. }
  - rewrite Hfail. split; [done|]. split; [|done]. exists st. by repeat split.
  - rewrite Hfail. split; [done|]. split.
    + eexists. cbn [fst files]. rewrite lookup_store_state. repeat split. cbn. lia.
    + intros now' fs'. unfold get_new_content. cbn [fst files max_files].
      destruct (fs' !! p) as [f'|]; [|done].
      rewrite lookup_store_state, Hst.
      cbn [last_modified last_size position path line_count error_count last_read].
      destruct (_ && _); [done|].
      destruct (st_size f' <? last_size st)%nat; cbn [position];
        destruct (readable f'); done.
Qed.

(** X9.  When the polled path is tracked already, or the tracker has room
    left, [get_new_content], [get_all_content] and [reset_position] leave the
    state recorded for every other path as it was. *)
Theorem poll_leaves_other_paths :
  forall (now : Z) (fs : gmap string File) (tr : FilePositionTracker) (p q : string),
    q <> p ->
    lookup_state (files tr) p <> None \/ (length (files tr) < max_files tr)%nat ->
    lookup_state (files (fst (get_new_content now fs tr p))) q = lookup_state (files tr) q /\
    lookup_state (files (fst (get_all_content now fs tr p))) q = lookup_state (files tr) q /\
    lookup_state (files (reset_position tr p)) q = lookup_state (files tr) q.
Proof.
  intros now fs tr p q Hne Hroom.
  assert (match lookup_state (files tr) p with
          | Some _ => True
          | None => ensure_capacity tr = Some tr
          end) as Hcap.
  { destruct (lookup_state (files tr) p); [done|].
    destruct Hroom as [?|Hlt]; [done|]. unfold ensure_capacity.
    apply Nat.leb_gt in Hlt. by rewrite Hlt. }
  split; [|split].
  - unfold get_new_content. destruct (fs !! p) as [f|]; [|done].
    destruct (lookup_state (files tr) p) as [st|]; [|rewrite Hcap]; cbn zeta;
      repeat match goal with
             | |- context [if ?b then _ else _] => destruct b
             end; cbn [fst files]; by rewrite ?lookup_store_other.
  - unfold get_all_content. destruct (fs !! p) as [f|]; [|done].
    destruct (readable f); [|done].
    destruct (lookup_state (files tr) p) as [st|]; [|rewrite Hcap]; cbn zeta;
      cbn [fst files]; by rewrite ?lookup_store_other.
  - unfold reset_position. destruct (lookup_state (files tr) p); [|done].
    cbn [files]. by rewrite lookup_store_other.
Qed.

(** ** Eviction *)

Lemma read_before_irrefl a : read_before a a = false.
Proof. destruct a; simpl; [apply Z.ltb_irrefl|done]. Qed.

Lemma read_before_below x b k :
  read_before x b = true -> read_before k b = false -> read_before k x = false.
Proof.
  destruct x as [x|], b as [b|], k as [k|]; simpl; try done.
  intros H1 H2. apply Z.ltb_lt in H1. apply Z.ltb_ge in H2. apply Z.ltb_ge. lia.
Qed.

Lemma oldest_from_least rest : forall best seen,
  (forall kv, In kv seen -> read_before (last_read (snd kv)) (last_read (snd best)) = false) ->
  exists kv, In kv (best :: rest) /\ oldest_from best rest = fst kv /\
    forall kv', In kv' (seen ++ best :: rest) ->
      read_before (last_read (snd kv')) (last_read (snd kv)) = false.
Proof.
  induction rest as [|x rest IH]; intros best seen Hseen.
  - exists best. split; [by left|]. split; [done|].
    intros kv' Hin. apply in_app_or in Hin as [Hin|[<-|[]]]; [by apply Hseen|].
    apply read_before_irrefl.
  - simpl. destruct (read_before (last_read (snd x)) (last_read (snd best))) eqn:E.
    + destruct (IH x (seen ++ [best])) as (kv & Hin & Heq & Hmin).
      { intros kv' Hin. apply in_app_or in Hin as [Hin|[<-|[]]].
        - eapply read_before_below; [exact E|by apply Hseen].
        - eapply read_before_below; [exact E|apply read_before_irrefl]. }
      exists kv. split; [by right|]. split; [done|].
      intros kv' Hin'. apply Hmin. rewrite <- app_assoc. exact Hin'.
    + destruct (IH best (seen ++ [x])) as (kv & Hin & Heq & Hmin).
      { intros kv' Hin. apply in_app_or in Hin as [Hin|[<-|[]]]; [by apply Hseen|done]. }
      exists kv. split; [destruct Hin as [<-|Hin]; [by left|by right; right]|].
      split; [done|]. intros kv' Hin'. apply Hmin.
      apply in_app_or in Hin' as [H|[<-|[<-|H]]]; apply in_or_app.
      * left. apply in_or_app. by left.
      * right. by left.
      * left. apply in_or_app. right. by left.
      * right. by right.
Qed.

(** X10.  A tracker that is full makes room by dropping exactly one path,
    one that was read no later than any other path it tracks; a path that
    was never read counts as read before all others. *)
Theorem ensure_capacity_drops_least_recent :
  forall (tr : FilePositionTracker),
    (max_files tr <= tracked_count tr)%nat -> (0 < tracked_count tr)%nat ->
    exists (victim : string * FileState),
      In victim (files tr) /\
      ensure_capacity tr
      = Some (mkTracker (remove_state (files tr) (fst victim)) (max_files tr)) /\
      (forall other : string * FileState,
         In other (files tr) ->
         read_before (last_read (snd other)) (last_read (snd victim)) = false) /\
      S (length (remove_state (files tr) (fst victim))) = length (files tr).
Proof.
  intros tr Hfull Hpos. unfold tracked_count in *. unfold ensure_capacity.
  apply Nat.leb_le in Hfull. rewrite Hfull.
  destruct (files tr) as [|best rest] eqn:Hf; [simpl in Hpos; lia|].
  destruct (oldest_from_least rest best []) as (kv & Hin & Heq & Hmin); [by intros ? []|].
  exists kv. rewrite Heq. split; [done|]. split; [done|]. split; [exact Hmin|].
  apply length_remove_state. by apply lookup_state_in.
Qed.

(** X10, on a full tracker of three paths of which the second is the one
    read longest ago. *)
Lemma ensure_capacity_drops_least_recent_witness :
  let read_at (p : string) (t : Z) := (p, mkFileState p 0 0 0 (Some t) 0 0) in
  let tr := mkTracker [read_at "a" 30; read_at "b" 10; read_at "c" 20] 3 in
  exists (victim : string * FileState),
    In victim (files tr) /\
    ensure_capacity tr
    = Some (mkTracker (remove_state (files tr) (fst victim)) (max_files tr)) /\
    (forall other : string * FileState,
       In other (files tr) ->
       read_before (last_read (snd other)) (last_read (snd victim)) = false) /\
    S (length (remove_state (files tr) (fst victim))) = length (files tr).
Proof.
  apply (ensure_capacity_drops_least_recent
           (mkTracker [("a"%string, mkFileState "a" 0 0 0 (Some 30) 0 0);
                       ("b"%string, mkFileState "b" 0 0 0 (Some 10) 0 0);
                       ("c"%string, mkFileState "c" 0 0 0 (Some 20) 0 0)] 3));
    unfold tracked_count; simpl; lia.
Defined.

(** X5, on a full tracker of one path that is asked for a second one. *)
Lemma tracker_within_capacity_witness :
  let tr := mkTracker [("a.out"%string, new_state "a.out")] 1 in
  let fs := <["b.out"%string := mkFile 1 (filled 3 "x") true]> (∅ : gmap string File) in
  let polled := fst (get_new_content 10 fs tr "b.out") in
  let loaded := fst (get_all_content 10 fs tr "b.out") in
  (tracked_count polled <= max_files polled)%nat /\ max_files polled = max_files tr /\
  (tracked_count loaded <= max_files loaded)%nat /\ max_files loaded = max_files tr.
Proof.
  apply (tracker_within_capacity 10
           (<["b.out"%string := mkFile 1 (filled 3 "x") true]> ∅)
           (mkTracker [("a.out"%string, new_state "a.out")] 1) "b.out").
  unfold tracked_count. simpl. lia.
Defined.

(** X6, on a file polled when it holds [ab], again unchanged, and then when
    it holds [abcde]. *)
Lemma poll_all_concatenates_witness :
  let p := "agent.out"%string in
  let steps :=
    [(10, <[p := mkFile 1 "ab" true]> (∅ : gmap string File));
     (20, <[p := mkFile 1 "ab" true]> (∅ : gmap string File));
     (30, <[p := mkFile 2 "abcde" true]> (∅ : gmap string File))] in
  snd (poll_all (mkTracker [] 100) p steps) = final_text p EmptyString steps /\
  final_text p EmptyString steps = "abcde"%string.
Proof.
  split; [|reflexivity].
  apply (poll_all_concatenates
           [(10, <["agent.out"%string := mkFile 1 "ab" true]> ∅);
            (20, <["agent.out"%string := mkFile 1 "ab" true]> ∅);
            (30, <["agent.out"%string := mkFile 2 "abcde" true]> ∅)]
           (mkTracker [] 100) "agent.out").
  - reflexivity.
  - simpl. lia.
  - simpl. exists (mkFile 1 "ab" true), "ab"%string. do 3 (split; [reflexivity|]).
    exists (mkFile 1 "ab" true), EmptyString. do 3 (split; [reflexivity|]).
    exists (mkFile 2 "abcde" true), "cde"%string. do 3 (split; [reflexivity|]).
    exact I.
Defined.

(** X7, on a file of 100 letters [a] loaded whole and then grown by 150
    letters [b]. *)
Lemma initial_load_then_poll_witness :
  let p := "agent.out"%string in
  let fs1 := <[p := mkFile 1 (filled 100 "a") true]> (∅ : gmap string File) in
  let fs2 := <[p := mkFile 2 (filled 100 "a" ++ filled 150 "b")%string true]>
               (∅ : gmap string File) in
  let loaded := get_all_content 10 fs1 (mkTracker [] 100) p in
  let polled := get_new_content 20 fs2 (fst loaded) p in
  snd loaded = filled 100 "a" /\
  snd polled = (filled 150 "b", negb (String.eqb (filled 150 "b") EmptyString)).
Proof.
  apply (initial_load_then_poll 10 20
           (<["agent.out"%string := mkFile 1 (filled 100 "a") true]> ∅)
           (<["agent.out"%string := mkFile 2 (filled 100 "a" ++ filled 150 "b")%string true]> ∅)
           (mkTracker [] 100) "agent.out"
           (mkFile 1 (filled 100 "a") true)
           (mkFile 2 (filled 100 "a" ++ filled 150 "b")%string true)
           (filled 150 "b"));
    [reflexivity | simpl; lia | reflexivity | reflexivity | reflexivity | reflexivity
    | reflexivity].
Defined.

(** X8, on a tracked file of five characters, read up to the second, that
    cannot be opened. *)
Lemma failed_read_keeps_offset_witness :
  let p := "agent.out"%string in
  let st := mkFileState p 2 1 2 (Some 5) 0 0 in
  let tr := mkTracker [(p, st)] 100 in
  let fs := <[p := mkFile 2 "abcde" false]> (∅ : gmap string File) in
  let failed := get_new_content 10 fs tr p in
  snd failed = (EmptyString, false) /\
  (exists st' : FileState,
     lookup_state (files (fst failed)) p = Some st' /\
     position st' = position st /\ last_size st' = last_size st /\
     last_modified st' = last_modified st /\ line_count st' = line_count st /\
     (error_count st <= error_count st')%nat) /\
  forall (now' : Z) (fs' : gmap string File),
    snd (get_new_content now' fs' (fst failed) p) = snd (get_new_content now' fs' tr p).
Proof.
  apply (failed_read_keeps_offset 10
           (<["agent.out"%string := mkFile 2 "abcde" false]> ∅)
           (mkTracker [("agent.out"%string,
                        mkFileState "agent.out" 2 1 2 (Some 5) 0 0)] 100)
           "agent.out" (mkFile 2 "abcde" false)
           (mkFileState "agent.out" 2 1 2 (Some 5) 0 0));
    [reflexivity | reflexivity | reflexivity | unfold st_size; simpl; lia].
Defined.

(** X9, on a tracker of two paths of which the first is polled. *)
Lemma poll_leaves_other_paths_witness :
  let tr := mkTracker [("a.out"%string, new_state "a.out");
                       ("b.out"%string, mkFileState "b.out" 7 1 7 (Some 5) 0 1)] 2 in
  let fs := <["a.out"%string := mkFile 1 (filled 3 "x") true]> (∅ : gmap string File) in
  lookup_state (files (fst (get_new_content 10 fs tr "a.out"))) "b.out"
  = lookup_state (files tr) "b.out" /\
  lookup_state (files (fst (get_all_content 10 fs tr "a.out"))) "b.out"
  = lookup_state (files tr) "b.out" /\
  lookup_state (files (reset_position tr "a.out")) "b.out"
  = lookup_state (files tr) "b.out".
Proof.
  apply (poll_leaves_other_paths 10
           (<["a.out"%string := mkFile 1 (filled 3 "x") true]> ∅)
           (mkTracker [("a.out"%string, new_state "a.out");
                       ("b.out"%string, mkFileState "b.out" 7 1 7 (Some 5) 0 1)] 2)
           "a.out" "b.out"); [discriminate | left; discriminate].
Defined.

End TrackerOpsFacts.

(** ** The cache of parsed output *)

Section CacheFacts.
Import Cache.
Context {V : Type}.
Implicit Types (c : BoundedParseCache V) (k key : string) (l : list string).

Lemma remove_first_elem k l :
  k ∈ l -> exists l', remove_first k l = Some l' /\ l ≡ₚ k :: l'.
Proof.
  induction l as [|x l IH]; [by intros ?%elem_of_nil|].
  intros Hin. simpl. destruct (String.eqb x k) eqn:E.
  - apply String.eqb_eq in E as ->. eauto.
  - apply String.eqb_neq in E. apply elem_of_cons in Hin as [->|Hin]; [done|].
    destruct (IH Hin) as (l' & -> & Hp). eexists. split; [done|].
    rewrite Hp. apply Permutation_swap.
Qed.

Lemma remove_first_filter k l :
  NoDup l -> k ∈ l ->
  remove_first k l = Some (List.filter (fun x => negb (String.eqb x k)) l).
Proof.
  induction l as [|x l IH]; [by intros _ ?%elem_of_nil|].
  intros [Hx Hnd]%NoDup_cons Hin. simpl. destruct (String.eqb x k) eqn:E; simpl.
  - apply String.eqb_eq in E as ->. f_equal. clear IH Hin Hnd.
    induction l as [|y l IH]; [done|]. simpl.
    apply not_elem_of_cons in Hx as [Hne Hx].
    destruct (String.eqb y k) eqn:E; [apply String.eqb_eq in E; congruence|].
    simpl. f_equal. by apply IH.
  - apply String.eqb_neq in E. apply elem_of_cons in Hin as [->|Hin]; [done|].
    by rewrite IH.
Qed.

Lemma order_length_size c :
  NoDup (access_order c) ->
  (forall k, k ∈ access_order c <-> is_Some (cache c !! k)) ->
  length (access_order c) = size (cache c).
Proof.
  intros Hnd Hdom.
  rewrite <- (size_dom (D := gset string)).
  rewrite <- (size_list_to_set (C := gset string) (access_order c) Hnd).
  f_equal. apply set_eq. intros k. rewrite elem_of_list_to_set, elem_of_dom. apply Hdom.
Qed.

(** What [set] does to a well-formed cache. *)
Lemma set_well_formed c key (value : V) :
  well_formed c -> (0 < max_size c)%nat ->
  exists (kept : gmap string V) (order : list string),
    set c key value
    = Some (mkCache (<[key := value]> kept) (order ++ [key]) (max_size c) (hits c) (misses c)) /\
    well_formed (mkCache (<[key := value]> kept) (order ++ [key])
                         (max_size c) (hits c) (misses c)) /\
    ((is_Some (cache c !! key) \/ (size (cache c) < max_size c)%nat) -> kept = cache c) /\
    (cache c !! key = None -> (max_size c <= size (cache c))%nat ->
     exists oldest, access_order c = oldest :: order /\ kept = delete oldest (cache c)).
Proof.
  intros (Hnd & Hdom & Hsize) Hmax. unfold set.
  destruct (cache c !! key) as [old|] eqn:Hk.
  - assert (key ∈ access_order c) as Hin by (apply Hdom; eauto).
    destruct (remove_first_elem _ _ Hin) as (order & -> & Hp).
    exists (cache c), order. cbn. split; [done|]. split; [|split; [done|done]].
    split; [|split]; cbn.
    + eapply (NoDup_Permutation_proper); [|exact Hnd].
      rewrite Hp. symmetry. apply Permutation_cons_append.
    + intros k. rewrite elem_of_app, list_elem_of_singleton.
      destruct (decide (k = key)) as [->|Hne].
      * rewrite lookup_insert_eq. split; eauto.
      * rewrite lookup_insert_ne by done. rewrite <- Hdom, Hp, elem_of_cons. tauto.
    + rewrite map_size_insert_Some by eauto. done.
  - destruct (max_size c <=? size (cache c))%nat eqn:Hfull.
    + apply Nat.leb_le in Hfull.
      assert (length (access_order c) = size (cache c)) as Hlen
        by (by apply order_length_size).
      destruct (access_order c) as [|oldest order] eqn:Ho; [simpl in Hlen; lia|].
      assert (is_Some (cache c !! oldest)) as [v Hv] by (apply Hdom; left).
      rewrite Hv. exists (delete oldest (cache c)), order. cbn.
      apply NoDup_cons in Hnd as [Hfresh Hnd].
      split; [done|]. split; [|split].
      * split; [|split]; cbn.
        -- apply NoDup_app. split; [done|]. split; [|apply NoDup_singleton].
           intros k Hin ->%list_elem_of_singleton.
           assert (is_Some (cache c !! key)) as [? ?] by (apply Hdom; by right).
           congruence.
        -- intros k. rewrite elem_of_app, list_elem_of_singleton.
           destruct (decide (k = key)) as [->|Hne].
           ++ rewrite lookup_insert_eq. split; eauto.
           ++ rewrite lookup_insert_ne by done.
              destruct (decide (k = oldest)) as [->|Hne'].
              ** rewrite lookup_delete_eq. split; [intros [?|?]; done|by intros [? ?]].
              ** rewrite lookup_delete_ne by done. rewrite <- Hdom, elem_of_cons. tauto.
        -- rewrite map_size_insert_None by (rewrite lookup_delete_ne; [done|congruence]).
           rewrite map_size_delete_Some by eauto. lia.
      * intros [[? ?]|Hlt]; [done|lia].
      * intros _ _. by exists oldest.
    + apply Nat.leb_gt in Hfull. exists (cache c), (access_order c). cbn.
      split; [done|]. split; [|split; [done|intros _ ?; lia]].
      split; [|split]; cbn.
      * apply NoDup_app. split; [done|]. split; [|apply NoDup_singleton].
        intros k Hin ->%list_elem_of_singleton.
        assert (is_Some (cache c !! key)) as [? ?] by (by apply Hdom). congruence.
      * intros k. rewrite elem_of_app, list_elem_of_singleton.
        destruct (decide (k = key)) as [->|Hne].
        -- rewrite lookup_insert_eq. split; eauto.
        -- rewrite lookup_insert_ne by done. rewrite <- Hdom. tauto.
      * rewrite map_size_insert_None by done. lia.
Qed.

(** What [get] does to a well-formed cache. *)
Lemma get_well_formed c key :
  well_formed c ->
  exists order : list string,
    get c key
    = Some (mkCache (cache c) order (max_size c)
                    (match cache c !! key with Some _ => S (hits c) | None => hits c end)
                    (match cache c !! key with Some _ => misses c | None => S (misses c) end),
            cache c !! key) /\
    well_formed (mkCache (cache c) order (max_size c)
                    (match cache c !! key with Some _ => S (hits c) | None => hits c end)
                    (match cache c !! key with Some _ => misses c | None => S (misses c) end)) /\
    order ≡ₚ access_order c /\
    (is_Some (cache c !! key) -> exists rest, order = rest ++ [key]).
Proof.
  intros (Hnd & Hdom & Hsize). unfold get.
  destruct (cache c !! key) as [v|] eqn:Hk.
  - assert (key ∈ access_order c) as Hin by (apply Hdom; eauto).
    destruct (remove_first_elem _ _ Hin) as (order & -> & Hp).
    exists (order ++ [key]). cbn.
    assert (order ++ [key] ≡ₚ access_order c) as Hp'
      by (rewrite Hp; symmetry; apply Permutation_cons_append).
    split; [done|]. split; [|split; [done|eauto]].
    split; [|split]; cbn; [by rewrite Hp'| |done].
    intros k. rewrite Hp'. apply Hdom.
  - exists (access_order c). cbn. split; [done|]. split; [done|]. split; [done|].
    by intros [? ?].
Qed.

(** Removing the keys [ks], all cached, one after the other. *)
Lemma drop_keys_spec (ks : list string) : forall c,
  NoDup ks -> NoDup (access_order c) ->
  (forall k, k ∈ access_order c <-> is_Some (cache c !! k)) ->
  (forall k, k ∈ ks -> is_Some (cache c !! k)) ->
  exists (kept : gmap string V),
    foldl (fun acc key => c' ← acc; drop_key c' key) (Some c) ks
    = Some (mkCache kept
              (List.filter (fun k => negb (bool_decide (k ∈ ks))) (access_order c))
              (max_size c) (hits c) (misses c)) /\
    forall k, kept !! k = if bool_decide (k ∈ ks) then None else cache c !! k.
Proof.
  induction ks as [|k0 ks IH]; intros c Hks Hnd Hdom Hin.
  - exists (cache c). simpl. split; [|done]. destruct c; cbn. f_equal. f_equal.
    symmetry. apply forallb_filter_id. by apply forallb_forall.
  - apply NoDup_cons in Hks as [Hk0 Hks]. simpl.
    destruct (Hin k0) as [v0 Hv0]; [by left|].
    unfold drop_key at 2. rewrite Hv0.
    rewrite (remove_first_filter k0 (access_order c) Hnd) by (apply Hdom; eauto). cbn.
    set (c1 := mkCache _ _ _ _ _).
    destruct (IH c1) as (kept & Hfold & Hkept); [done| | | |].
    + subst c1. cbn. by apply NoDup_ListNoDup, List.NoDup_filter, NoDup_ListNoDup.
    + intros k. subst c1. cbn. rewrite list_elem_of_In, filter_In, <- list_elem_of_In.
      rewrite Hdom. destruct (String.eqb k k0) eqn:E.
      * apply String.eqb_eq in E as ->. rewrite lookup_delete_eq. cbn.
        split; [by intros [_ ?]|by intros [? ?]].
      * apply String.eqb_neq in E. rewrite lookup_delete_ne by done. cbn. tauto.
    + intros k Hk. subst c1. cbn. rewrite lookup_delete_ne; [apply Hin; by right|].
      intros ->. done.
    + exists kept. rewrite Hfold. subst c1. cbn. split.
      * f_equal. f_equal. clear. induction (access_order c) as [|x l IHl]; [done|].
        simpl. destruct (String.eqb x k0) eqn:E; simpl.
        -- apply String.eqb_eq in E as ->.
           rewrite (bool_decide_eq_true_2 (k0 ∈ k0 :: ks)) by (by left). cbn. exact IHl.
        -- apply String.eqb_neq in E.
           destruct (bool_decide (x ∈ ks)) eqn:Hx.
           ++ apply bool_decide_eq_true in Hx.
              rewrite (bool_decide_eq_true_2 (x ∈ k0 :: ks)) by (by right). cbn. exact IHl.
           ++ apply bool_decide_eq_false in Hx.
              rewrite (bool_decide_eq_false_2 (x ∈ k0 :: ks)); cbn.
              ** by rewrite IHl.
              ** intros [?|?]%elem_of_cons; done.
      * intros k. rewrite Hkept. cbn.
        destruct (decide (k = k0)) as [->|Hne].
        -- rewrite (bool_decide_eq_true_2 (k0 ∈ k0 :: ks)) by (by left).
           rewrite lookup_delete_eq. by destruct (bool_decide _).
        -- rewrite lookup_delete_ne by done.
           destruct (bool_decide (k ∈ ks)) eqn:Hx.
           ++ apply bool_decide_eq_true in Hx.
              by rewrite (bool_decide_eq_true_2 (k ∈ k0 :: ks)) by (by right).
           ++ apply bool_decide_eq_false in Hx.
              rewrite (bool_decide_eq_false_2 (k ∈ k0 :: ks)); [done|].
              intros [?|?]%elem_of_cons; done.
Qed.

Lemma drop_keys_well_formed c (ks : list string) (kept : gmap string V) :
  well_formed c ->
  (forall k, kept !! k = if bool_decide (k ∈ ks) then None else cache c !! k) ->
  well_formed (mkCache kept
                 (List.filter (fun k => negb (bool_decide (k ∈ ks))) (access_order c))
                 (max_size c) (hits c) (misses c)).
Proof.
  intros (Hnd & Hdom & Hsize) Hkept. split; [|split]; cbn.
  - by apply NoDup_ListNoDup, List.NoDup_filter, NoDup_ListNoDup.
  - intros k. rewrite list_elem_of_In, filter_In, <- list_elem_of_In, Hdom, Hkept.
    destruct (bool_decide (k ∈ ks)); cbn; [|tauto].
    split; [by intros [_ ?]|by intros [? ?]].
  - etrans; [|exact Hsize]. apply map_subseteq_size, map_subseteq_spec.
    intros k v. rewrite Hkept. by destruct (bool_decide _).
Qed.

Lemma invalidate_file_spec c (filepath : string) :
  well_formed c ->
  exists (kept : gmap string V),
    invalidate_file c filepath
    = Some (mkCache kept
              (List.filter (fun k => negb (startswith k (filepath ++ ":")%string))
                           (access_order c))
              (max_size c) (hits c) (misses c)) /\
    (forall k, kept !! k
               = if startswith k (filepath ++ ":")%string then None else cache c !! k) /\
    well_formed (mkCache kept
              (List.filter (fun k => negb (startswith k (filepath ++ ":")%string))
                           (access_order c))
              (max_size c) (hits c) (misses c)).
Proof.
  intros Hwf. pose proof Hwf as (Hnd & Hdom & Hsize). unfold invalidate_file.
  set (keys := List.filter _ _).
  assert (forall k, k ∈ keys <->
                    startswith k (filepath ++ ":")%string = true /\ is_Some (cache c !! k))
    as Hkeys.
  { intros k. unfold keys. rewrite list_elem_of_In, filter_In, <- list_elem_of_In.
    change (map fst (map_to_list (cache c))) with ((map_to_list (cache c)).*1).
    rewrite list_elem_of_fmap. split.
    - intros [([k' v] & -> & Hin%elem_of_map_to_list) Hp]. cbn in *. split; eauto.
    - intros [Hp [v Hv]]. split; [|done]. exists (k, v). split; [done|].
      by apply elem_of_map_to_list. }
  destruct (drop_keys_spec keys c) as (kept & Hfold & Hkept); [|done|done| |].
  { unfold keys. apply NoDup_ListNoDup, List.NoDup_filter, NoDup_ListNoDup.
    apply NoDup_fst_map_to_list. }
  { intros k Hk. by apply Hkeys. }
  assert (List.filter (fun k => negb (bool_decide (k ∈ keys))) (access_order c)
          = List.filter (fun k => negb (startswith k (filepath ++ ":")%string))
                        (access_order c)) as Horder.
  { apply filter_ext_in. intros k Hin%list_elem_of_In%Hdom. f_equal.
    destruct (startswith k _) eqn:Hp.
    - apply bool_decide_eq_true_2, Hkeys. done.
    - apply bool_decide_eq_false_2. rewrite Hkeys. intros [? _]. congruence. }
  assert (forall k, kept !! k
                    = if startswith k (filepath ++ ":")%string then None else cache c !! k)
    as Hkept'.
  { intros k. rewrite Hkept. destruct (startswith k _) eqn:Hp.
    - destruct (bool_decide (k ∈ keys)) eqn:Hk; [done|].
      apply bool_decide_eq_false in Hk. rewrite Hkeys in Hk.
      destruct (cache c !! k) eqn:E; [|done]. destruct Hk. eauto.
    - rewrite bool_decide_eq_false_2; [done|]. rewrite Hkeys. intros [? _]. congruence. }
  exists kept. rewrite Hfold, Horder. split; [done|]. split; [done|].
  rewrite <- Horder. by apply drop_keys_well_formed.
Qed.

Lemma well_formed_check c :
  NoDup (access_order c) ->
  list_to_set (access_order c) =@{gset string} dom (cache c) ->
  (size (cache c) <= max_size c)%nat ->
  well_formed c.
Proof.
  intros Hnd Hdom Hsize. split; [done|]. split; [|done].
  intros k. by rewrite <- elem_of_dom, <- Hdom, elem_of_list_to_set.
Qed.

Lemma new_cache_well_formed (n : nat) : well_formed (new_cache (V := V) n).
Proof.
  split; [constructor|]. split; cbn.
  - intros k. rewrite lookup_empty. split; [by intros ?%elem_of_nil|by intros [? ?]].
  - rewrite map_size_empty. lia.
Qed.

(** X11.  Every operation of the cache keeps it well formed: the list of
    recent use names each cached key exactly once and the cache holds at most
    [max_size] entries.  On such a cache no operation raises, but for [set]
    on a cache of size zero. *)
Theorem cache_stays_well_formed :
  forall (c : BoundedParseCache V),
    well_formed c ->
    (forall key : string,
       exists c' r, get c key = Some (c', r) /\ well_formed c' /\
                    max_size c' = max_size c /\ cache c' = cache c /\ r = cache c !! key) /\
    (forall (key : string) (value : V),
       (0 < max_size c)%nat ->
       exists c', set c key value = Some c' /\ well_formed c' /\ max_size c' = max_size c) /\
    (forall key : string,
       exists c', invalidate c key = Some c' /\ well_formed c' /\
                  max_size c' = max_size c) /\
    (forall filepath : string,
       exists c', invalidate_file c filepath = Some c' /\ well_formed c' /\
                  max_size c' = max_size c) /\
    well_formed (clear c).
Proof.
  intros c Hwf. split; [|split; [|split; [|split]]].
  - intros key. destruct (get_well_formed c key Hwf) as (order & Hget & Hwf' & _).
    eexists _, _. split; [exact Hget|]. split; [exact Hwf'|done].
  - intros key value Hmax.
    destruct (set_well_formed c key value Hwf Hmax) as (kept & order & Hset & Hwf' & _).
    eexists. split; [exact Hset|]. by split.
  - intros key. unfold invalidate. destruct (cache c !! key) as [v|] eqn:Hk; [|by exists c].
    pose proof Hwf as (Hnd & Hdom & _).
    destruct (drop_keys_spec [key] c) as (kept & Hfold & Hkept);
      [apply NoDup_singleton|done|done| |].
    { intros k ->%list_elem_of_singleton. eauto. }
    cbn in Hfold. eexists. split; [exact Hfold|]. split; [|done].
    by apply drop_keys_well_formed.
  - intros filepath. destruct (invalidate_file_spec c filepath Hwf) as (kept & -> & _ & Hwf').
    eexists. split; [done|]. split; [exact Hwf'|done].
  - apply new_cache_well_formed.
Qed.

(** X12.  A value stored with [set] is what the next [get] with that key
    returns, and that [get] counts as a hit. *)
Theorem set_then_get :
  forall (c : BoundedParseCache V) (key : string) (value : V),
    well_formed c -> (0 < max_size c)%nat ->
    exists c1 c2,
      set c key value = Some c1 /\ get c1 key = Some (c2, Some value) /\
      hits c2 = S (hits c) /\ misses c2 = misses c /\ cache c2 = cache c1.
Proof.
  intros c key value Hwf Hmax.
  destruct (set_well_formed c key value Hwf Hmax) as (kept & order & Hset & Hwf' & _).
  destruct (get_well_formed _ key Hwf') as (order' & Hget & _).
  cbn in Hget. rewrite lookup_insert_eq in Hget.
  eexists _, _. split; [exact Hset|]. split; [exact Hget|]. done.
Qed.

(** X13.  [set] removes an entry only when the key is new and the cache is
    full; the entry removed is then the least recently used one, the head of
    the list of recent use, and every other entry stays. *)
Theorem set_evicts_least_recently_used :
  forall (c : BoundedParseCache V) (key : string) (value : V),
    well_formed c -> (0 < max_size c)%nat ->
    exists c',
      set c key value = Some c' /\
      ((is_Some (cache c !! key) \/ (size (cache c) < max_size c)%nat) ->
       cache c' = <[key := value]> (cache c)) /\
      (cache c !! key = None -> size (cache c) = max_size c ->
       exists oldest rest,
         access_order c = oldest :: rest /\
         cache c' = <[key := value]> (delete oldest (cache c)) /\
         access_order c' = rest ++ [key]).
Proof.
  intros c key value Hwf Hmax.
  destruct (set_well_formed c key value Hwf Hmax)
    as (kept & order & Hset & _ & Hkeep & Hevict).
  eexists. split; [exact Hset|]. cbn. split.
  - intros H. by rewrite (Hkeep H).
  - intros Hnew Hfull. destruct (Hevict Hnew) as (oldest & Ho & ->); [lia|].
    by exists oldest, order.
Qed.

Lemma last_used_survives c (k k' : string) (value' : V) (rest : list string) :
  well_formed c -> (1 < max_size c)%nat -> k' <> k ->
  access_order c = rest ++ [k] ->
  exists c', set c k' value' = Some c' /\ cache c' !! k = cache c !! k.
Proof.
  intros Hwf Hmax Hne Horder. pose proof Hwf as (Hnd & Hdom & Hsize).
  destruct (set_well_formed c k' value' Hwf) as (kept & order & Hset & _ & Hkeep & Hevict);
    [lia|].
  eexists. split; [exact Hset|]. cbn. rewrite lookup_insert_ne by done.
  destruct (cache c !! k') as [v|] eqn:Hk'; [rewrite Hkeep; eauto|].
  destruct (decide (size (cache c) < max_size c)%nat) as [Hlt|Hge]; [rewrite Hkeep; eauto|].
  destruct Hevict as (oldest & Ho & ->); [done|lia|].
  rewrite lookup_delete_ne; [done|]. intros ->.
  pose proof (order_length_size c Hnd Hdom) as Hlen.
  rewrite Horder in Hnd, Hlen, Ho. destruct rest as [|x rest].
  - simpl in Hlen. lia.
  - simplify_eq/=. apply NoDup_cons in Hnd as [Hx _]. apply Hx.
    apply elem_of_app. right. by left.
Qed.

(** X14.  In a cache of size two or more, the entry that was just read
    with [get], or just stored with [set], is not the one that the next [set]
    of another key removes. *)
Theorem recently_used_survives :
  forall (c : BoundedParseCache V) (k k' : string) (value' : V),
    well_formed c -> (1 < max_size c)%nat -> k' <> k ->
    (forall c1 value,
       get c k = Some (c1, Some value) ->
       exists c2, set c1 k' value' = Some c2 /\ cache c2 !! k = Some value) /\
    (forall c1 value,
       set c k value = Some c1 ->
       exists c2, set c1 k' value' = Some c2 /\ cache c2 !! k = Some value).
Proof.
  intros c k k' value' Hwf Hmax Hne. split.
  - intros c1 value Hget.
    destruct (get_well_formed c k Hwf) as (order & Hget' & Hwf1 & _ & Hlast).
    rewrite Hget' in Hget. injection Hget as <- Hv.
    destruct Hlast as [rest ->]; [by rewrite Hv|].
    destruct (last_used_survives _ k k' value' rest Hwf1 Hmax Hne eq_refl) as (c2 & Hset & Hk).
    exists c2. split; [done|]. by rewrite Hk.
  - intros c1 value Hset.
    destruct (set_well_formed c k value Hwf) as (kept & order & Hset' & Hwf1 & _); [lia|].
    rewrite Hset' in Hset. injection Hset as <-.
    destruct (last_used_survives _ k k' value' order Hwf1 Hmax Hne eq_refl) as (c2 & Hset & Hk).
    exists c2. split; [done|]. rewrite Hk. cbn. by rewrite lookup_insert_eq.
Qed.

(** X15.  [invalidate_file] removes exactly the entries whose key starts
    with the path followed by a colon: those keys are no longer cached, every
    other entry keeps its value, and the other keys keep their order of
    recent use. *)
Theorem invalidate_file_removes_prefix :
  forall (c : BoundedParseCache V) (filepath : string),
    well_formed c ->
    exists c',
      invalidate_file c filepath = Some c' /\
      (forall k : string,
         cache c' !! k
         = if startswith k (filepath ++ ":")%string then None else cache c !! k) /\
      access_order c'
      = List.filter (fun k => negb (startswith k (filepath ++ ":")%string))
                    (access_order c) /\
      hits c' = hits c /\ misses c' = misses c.
Proof.
  intros c filepath Hwf.
  destruct (invalidate_file_spec c filepath Hwf) as (kept & -> & Hkept & _).
  eexists. split; [done|]. by repeat split.
Qed.

End CacheFacts.

Section CacheExamples.
Import Cache CacheScenarios.

Lemma two_entries_well_formed : well_formed two_entries.
Proof.
  apply well_formed_check;
    [apply (bool_decide_unpack _); by vm_compute
    |apply (bool_decide_unpack _); by vm_compute
    |vm_compute; lia].
Qed.

Lemma two_files_well_formed : well_formed two_files.
Proof.
  apply well_formed_check;
    [apply (bool_decide_unpack _); by vm_compute
    |apply (bool_decide_unpack _); by vm_compute
    |vm_compute; lia].
Qed.

(** X11, on the full cache of two entries: a third key can be stored. *)
Lemma cache_stays_well_formed_witness :
  exists c', set two_entries "c" 3%nat = Some c' /\ well_formed c' /\
             max_size c' = max_size two_entries.
Proof.
  apply (proj1 (proj2 (cache_stays_well_formed two_entries two_entries_well_formed))
           "c"%string 3%nat).
  simpl. lia.
Defined.

(** X12, on the full cache of two entries. *)
Lemma set_then_get_witness :
  exists c1 c2,
    set two_entries "c" 3%nat = Some c1 /\ get c1 "c" = Some (c2, Some 3%nat) /\
    hits c2 = S (hits two_entries) /\ misses c2 = misses two_entries /\
    cache c2 = cache c1.
Proof.
  apply (set_then_get two_entries "c" 3%nat two_entries_well_formed).
  simpl. lia.
Defined.

(** X13, on the full cache of two entries: storing [c] removes [a]. *)
Lemma set_evicts_least_recently_used_witness :
  exists c',
    set two_entries "c" 3%nat = Some c' /\
    ((is_Some (cache two_entries !! "c") \/
      (size (cache two_entries) < max_size two_entries)%nat) ->
     cache c' = <["c" := 3%nat]> (cache two_entries)) /\
    (cache two_entries !! "c" = None ->
     size (cache two_entries) = max_size two_entries ->
     exists oldest rest,
       access_order two_entries = oldest :: rest /\
       cache c' = <["c" := 3%nat]> (delete oldest (cache two_entries)) /\
       access_order c' = rest ++ ["c"%string]).
Proof.
  apply (set_evicts_least_recently_used two_entries "c" 3%nat two_entries_well_formed).
  simpl. lia.
Defined.

(** X14, on the full cache of two entries: [a], the least recently used
    key, is read and then [c] is stored. *)
Lemma recently_used_survives_witness :
  (forall c1 value,
     get two_entries "a" = Some (c1, Some value) ->
     exists c2, set c1 "c" 3%nat = Some c2 /\ cache c2 !! "a" = Some value) /\
  (forall c1 value,
     set two_entries "a" value = Some c1 ->
     exists c2, set c1 "c" 3%nat = Some c2 /\ cache c2 !! "a" = Some value).
Proof.
  apply (recently_used_survives two_entries "a" "c" 3%nat two_entries_well_formed);
    [simpl; lia | discriminate].
Defined.

(** X15, on the entries of two files. *)
Lemma invalidate_file_removes_prefix_witness :
  exists c',
    invalidate_file two_files "a.out" = Some c' /\
    (forall k : string,
       cache c' !! k
       = if startswith k ("a.out" ++ ":")%string then None else cache two_files !! k) /\
    access_order c'
    = List.filter (fun k => negb (startswith k ("a.out" ++ ":")%string))
                  (access_order two_files) /\
    hits c' = hits two_files /\ misses c' = misses two_files.
Proof.
  apply (invalidate_file_removes_prefix two_files "a.out" two_files_well_formed).
Defined.

End CacheExamples.

(** ** Runs of the event parser *)

Section ParserOpsFacts.
Import Json Outcome Parser ParserSpec ParserOps Scenarios.

Lemma bind_returns {A B} (m : Outcome.t A) (k : A -> Outcome.t B) (b : B) :
  (x ← m; k x) = Returns b -> exists a, m = Returns a /\ k a = Returns b.
Proof. destruct m as [a| |]; [|done|done]. intros H. by exists a. Qed.

Lemma parse_lines_app (l1 l2 : list Line) : forall r,
  parse_lines r (l1 ++ l2) = r1 ← parse_lines r l1; parse_lines r1 l2.
Proof.
  induction l1 as [|line l1 IH]; intros r; [done|].
  simpl. destruct (parse_line r line) as [r'| |]; [|done|done]. apply IH.
Qed.

Lemma parse_line_with_counts r line n p :
  parse_line (with_counts r n p) line
  = r' ← parse_line r line; Returns (with_counts r' n p).
Proof.
  unfold parse_line. destruct (decoded line) as [ev|]; [|done].
  destruct (negb (truthy ev)); [done|]. destruct ev; try done.
  change (note_timestamp (with_counts r n p) fields (stamp line))
    with (note_timestamp r fields (stamp line)).
  destruct (note_timestamp r fields (stamp line)) as [last| |]; [|done|done].
  cbn -[note_tools note_fallback extract_all_tools_from_event check_completion_markers
        dumps note_error is_str].
  destruct (note_tools _ _) as [st1| |]; [|done|done].
  cbn -[note_tools note_fallback extract_all_tools_from_event check_completion_markers
        dumps note_error is_str].
  destruct (extract_all_tools_from_event fields); [|done].
  destruct (note_fallback st1 fields) as [st2| |]; done.
Qed.

Lemma parse_lines_with_counts lines : forall r n p,
  parse_lines (with_counts r n p) lines
  = r' ← parse_lines r lines; Returns (with_counts r' n p).
Proof.
  induction lines as [|line lines IH]; intros r n p; [done|].
  simpl. rewrite parse_line_with_counts.
  destruct (parse_line r line) as [r'| |]; [|done|done]. apply IH.
Qed.

(** [parse_output_content] by way of a run that leaves the two counts
    alone. *)
Lemma parse_output_content_counts lines existing :
  parse_output_content lines existing
  = r' ← parse_lines (default empty_parsed existing) lines;
    Returns (with_counts r'
               (raw_lines_count (default empty_parsed existing) + Z.of_nat (length lines))
               (estimate_progress r')).
Proof.
  unfold parse_output_content. set (r0 := default empty_parsed existing).
  change (add_raw_lines r0 (Z.of_nat (length lines)))
    with (with_counts r0 (raw_lines_count r0 + Z.of_nat (length lines))
                      (progress_estimate r0)).
  rewrite parse_lines_with_counts.
  destruct (parse_lines r0 lines) as [r'| |]; done.
Qed.


(** *** What a run adds *)

Lemma add_once_prefix (files : list string) (path : string) :
  files `prefix_of` add_once files path.
Proof.
  unfold add_once. destruct (existsb _ _); [done|]. by apply prefix_app_r.
Qed.

Lemma add_once_NoDup (files : list string) (path : string) :
  NoDup files -> NoDup (add_once files path).
Proof.
  intros Hnd. unfold add_once. destruct (existsb _ _) eqn:E; [done|].
  apply NoDup_app. split; [done|]. split; [|apply NoDup_singleton].
  intros x Hx ->%list_elem_of_singleton.
  assert (existsb (String.eqb path) files = true) as Ht; [|congruence].
  apply existsb_exists. exists path. split; [by apply list_elem_of_In|].
  apply String.eqb_refl.
Qed.

Lemma files_grow_refl a : files_grow a a.
Proof. by repeat split. Qed.

Lemma files_grow_trans a b c : files_grow a b -> files_grow b c -> files_grow a c.
Proof.
  intros (H1 & H2 & H3 & H4) (K1 & K2 & K3 & K4).
  split; [by etrans|]. split; [by etrans|]. split; auto.
Qed.

Lemma note_file_grows tool_name file_path files files' :
  note_file tool_name file_path files = Returns files' -> files_grow files files'.
Proof.
  unfold note_file. destruct (truthy file_path); [|intros [= <-]; apply files_grow_refl].
  destruct file_path; try done.
  destruct (String.eqb tool_name "Write"); [|destruct (String.eqb tool_name "Edit")];
    intros [= <-]; try apply files_grow_refl.
  - split; [apply add_once_prefix|]. split; [done|]. split; [apply add_once_NoDup|done].
  - split; [done|]. split; [apply add_once_prefix|]. split; [done|apply add_once_NoDup].
Qed.

Lemma tool_count_bump tools name other :
  tool_count (bump tools name) other
  = tool_count tools other + (if is_str (JStr name) other then 1 else 0).
Proof.
  induction tools as [|[k n] tools IH]; simpl.
  - destruct (String.eqb name other); lia.
  - destruct (String.eqb k name) eqn:E; simpl.
    + apply String.eqb_eq in E as ->. destruct (String.eqb name other); lia.
    + destruct (String.eqb k other) eqn:E'; [|exact IH].
      apply String.eqb_eq in E' as ->. rewrite String.eqb_sym, E. lia.
Qed.

Lemma note_tool_adds st tool st' :
  note_tool st tool = Returns st' ->
  files_grow (ts_files st) (ts_files st') /\
  forall other, tool_count (ts_tools st') other
                = tool_count (ts_tools st) other + (if is_str (fst tool) other then 1 else 0).
Proof.
  unfold note_tool. destruct (fst tool) as [| | |tool_name| |] eqn:Hname; try done.
  intros (files & Hfiles & (task & Htask & [= <-])%bind_returns)%bind_returns. cbn. split.
  - destruct (is_file_tool tool_name && truthy (snd tool));
      [|injection Hfiles as <-; apply files_grow_refl].
    destruct (snd tool); try (injection Hfiles as <-; apply files_grow_refl).
    by eapply note_file_grows.
  - intros other. apply tool_count_bump.
Qed.

Lemma note_tools_adds tools : forall st st',
  note_tools st tools = Returns st' ->
  files_grow (ts_files st) (ts_files st') /\
  forall other,
    tool_count (ts_tools st') other
    = tool_count (ts_tools st) other
      + Z.of_nat (length (List.filter (fun n => is_str n other) (map fst tools))).
Proof.
  induction tools as [|tool tools IH]; intros st st'; simpl.
  - intros [= <-]. split; [apply files_grow_refl|]. intros other. lia.
  - intros (st1 & H1 & H2)%bind_returns.
    destruct (note_tool_adds _ _ _ H1) as [Hf1 Hc1].
    destruct (IH _ _ H2) as [Hf2 Hc2].
    split; [by eapply files_grow_trans|]. intros other. rewrite Hc2, Hc1. simpl.
    destruct (is_str (fst tool) other); simpl length; lia.
Qed.

Lemma note_fallback_adds st event st' :
  note_fallback st event = Returns st' ->
  files_grow (ts_files st) (ts_files st') /\
  forall other,
    tool_count (ts_tools st') other
    = tool_count (ts_tools st) other
      + Z.of_nat (length (List.filter (fun n => is_str n other)
                            (if truthy (extract_tool_name (JObj event))
                             then [extract_tool_name (JObj event)] else []))).
Proof.
  unfold note_fallback. destruct (truthy (extract_tool_name (JObj event))) eqn:Ht.
  - destruct (extract_tool_name (JObj event)) as [| | |tool_name| |]; try done.
    assert (forall tools other,
              tool_count (bump tools tool_name) other
              = tool_count tools other
                + Z.of_nat (length (List.filter (fun n => is_str n other) [JStr tool_name])))
      as Hcount.
    { intros tools other. rewrite tool_count_bump. cbn.
      by destruct (String.eqb tool_name other). }
    destruct (is_file_tool tool_name).
    + intros (fp & Hfp & (files & Hfiles & [= <-])%bind_returns)%bind_returns. cbn.
      split; [by eapply note_file_grows|]. intros other. apply Hcount.
    + intros [= <-]. cbn. split; [apply files_grow_refl|]. intros other. apply Hcount.
  - intros [= <-]. split; [apply files_grow_refl|]. intros other. simpl. lia.
Qed.

Lemma note_error_prefix errors event : errors `prefix_of` note_error errors event.
Proof.
  unfold note_error. destruct (_ || _); [|done].
  destruct (get_or _ _ _); try done. destruct (_ <? _)%nat; [|done]. by apply prefix_app_r.
Qed.

Lemma note_timestamp_forward r event stamp last :
  note_timestamp r event stamp = Returns last ->
  forall t, last_activity r = Some t ->
            exists t', last = Some t' /\ micros t <= micros t'.
Proof.
  intros H t Ht. unfold note_timestamp in H. rewrite Ht in H.
  assert (Returns (Some t) = Returns last -> exists t', last = Some t' /\ micros t <= micros t')
    as Hsame by (intros [= <-]; exists t; split; [done|lia]).
  destruct (get event "timestamp") as [| | |[|c s]| |]; try by apply Hsame.
  destruct stamp as [ts|]; [|by apply Hsame].
  destruct (negb _); [done|].
  destruct (micros t <? micros ts) eqn:E; [|by apply Hsame].
  injection H as <-. apply Z.ltb_lt in E. exists ts. split; [done|lia].
Qed.

Lemma extends_refl r : extends r r.
Proof.
  repeat split; try done. intros t Ht. exists t. split; [done|lia].
Qed.

Lemma extends_trans a b c : extends a b -> extends b c -> extends a c.
Proof.
  intros (H1 & H2 & H3 & H4 & H5 & H6 & H7 & H8) (K1 & K2 & K3 & K4 & K5 & K6 & K7 & K8).
  split; [by etrans|]. split; [by etrans|]. split; [by etrans|].
  split; [auto|]. split; [auto|]. split; [lia|]. split; [lia|].
  intros t Ht. destruct (H8 t Ht) as (t1 & Ht1 & Hle1).
  destruct (K8 t1 Ht1) as (t2 & Ht2 & Hle2). exists t2. split; [done|lia].
Qed.

(** One line of the stream. *)
Lemma parse_line_adds r line r' :
  parse_line r line = Returns r' ->
  extends r r' /\
  total_events r' = total_events r + (if is_event line then 1 else 0) /\
  has_completion_marker r' = has_completion_marker r || is_marked line /\
  raw_lines_count r' = raw_lines_count r /\
  progress_estimate r' = progress_estimate r /\
  forall name, tool_count (tools_used r') name
               = tool_count (tools_used r) name + invocations name [line].
Proof.
  unfold parse_line, is_event, is_marked, invocations. simpl foldr.
  assert (Returns r = Returns r' ->
          extends r r' /\ total_events r' = total_events r + 0 /\
          has_completion_marker r' = has_completion_marker r || false /\
          raw_lines_count r' = raw_lines_count r /\
          progress_estimate r' = progress_estimate r /\
          forall name, tool_count (tools_used r') name = tool_count (tools_used r) name + 0)
    as Hskip.
  { intros [= <-]. split; [apply extends_refl|]. rewrite orb_false_r.
    repeat split; intros; lia. }
  destruct (decoded line) as [ev|]; [|exact Hskip].
  destruct (truthy ev) eqn:Htruthy; cbn [negb];
    [|intros H; destruct ev as [| | | | |[|? ?]]; try discriminate Htruthy;
      cbn [andb]; by apply Hskip].
  destruct ev as [| | | | |event]; try done.
  intros (last & Hlast & H)%bind_returns.
  apply bind_returns in H as (st1 & Hst1 & H).
  apply bind_returns in H as (st2 & Hst2 & [= <-]).
  cbn [andb].
  destruct (note_tools_adds _ _ _ Hst1) as [Hf1 Hc1]. cbn in Hf1, Hc1.
  assert (files_grow (ts_files st1) (ts_files st2) /\
          forall name, tool_count (ts_tools st2) name
                       = tool_count (tools_used r) name
                         + Z.of_nat (length (List.filter (fun n => is_str n name)
                                               (tool_names event)))) as [Hf2 Hc2].
  { unfold tool_names.
    destruct (extract_all_tools_from_event event) as [|tool tools] eqn:Htools.
    - destruct (note_fallback_adds _ _ _ Hst2) as [Hf Hc]. split; [done|].
      intros name. rewrite Hc, Hc1. simpl. lia.
    - injection Hst2 as <-. split; [apply files_grow_refl|]. intros name. apply Hc1. }
  destruct (files_grow_trans _ _ _ Hf1 Hf2) as (Hp1 & Hp2 & Hn1 & Hn2).
  cbn [ts_files fst snd] in Hp1, Hp2, Hn1, Hn2.
  unfold extends.
  cbn [total_events tools_used files_created files_modified last_activity
       has_completion_marker progress_estimate errors raw_lines_count
       assistant_messages tool_results].
  split; [|split; [done|split; [|split; [done|split; [done|]]]]].
  - split; [apply note_error_prefix|]. do 4 (split; [done|]).
    split; [destruct (is_str (get event "type") "assistant"); lia|].
    split; [destruct (is_str (get event "type") "assistant");
            [|destruct (is_str (get event "type") "tool_result")]; lia|].
    by eapply note_timestamp_forward.
  - destruct (check_completion_markers _); [by rewrite orb_true_r|by rewrite orb_false_r].
  - intros name. rewrite Hc2. cbn [truthy] in Htruthy. rewrite Htruthy. lia.
Qed.

Lemma invocations_cons name line lines :
  invocations name (line :: lines) = invocations name [line] + invocations name lines.
Proof.
  unfold invocations. cbn [foldr]. destruct (decoded line) as [[| | | | |event]|]; try lia.
  destruct (truthy (JObj event)); lia.
Qed.

(** X17.  What a run of the parser that returns has added to the
    aggregate it started from: every line that carries an event counts once
    in [total_events]; [errors], [files_created] and [files_modified] only
    grow at their end, and the two lists of files stay free of repetitions;
    the counts of assistant messages and of tool results do not fall; the
    last activity never moves back; the completion marker is set exactly when
    it was set before or one of the events holds a marker; and the line count
    and the progress estimate are left to [parse_output_content]. *)
Theorem parse_lines_accumulates :
  forall (lines : list Line) (r r' : ParsedOutput),
    parse_lines r lines = Returns r' ->
    extends r r' /\
    total_events r' = total_events r + Z.of_nat (length (List.filter is_event lines)) /\
    has_completion_marker r' = has_completion_marker r || existsb is_marked lines /\
    raw_lines_count r' = raw_lines_count r /\
    progress_estimate r' = progress_estimate r.
Proof.
  induction lines as [|line lines IH]; intros r r'; simpl.
  - intros [= <-]. split; [apply extends_refl|]. rewrite orb_false_r.
    repeat split; lia.
  - intros (r1 & H1 & H2)%bind_returns.
    destruct (parse_line_adds _ _ _ H1) as (He1 & Ht1 & Hm1 & Hr1 & Hp1 & _).
    destruct (IH _ _ H2) as (He2 & Ht2 & Hm2 & Hr2 & Hp2).
    split; [by eapply extends_trans|].
    split; [rewrite Ht2, Ht1; destruct (is_event line); simpl length; lia|].
    split; [by rewrite Hm2, Hm1, orb_assoc|]. split; congruence.
Qed.

(** X18.  After a run of the parser that returns, the count of every tool
    name is its count before plus the number of [tool_use] items of that name
    in the events of the run, an event without such items counting once under
    the name the fallback finds for it. *)
Theorem parse_lines_counts_tools :
  forall (lines : list Line) (r r' : ParsedOutput) (name : string),
    parse_lines r lines = Returns r' ->
    tool_count (tools_used r') name = tool_count (tools_used r) name + invocations name lines.
Proof.
  induction lines as [|line lines IH]; intros r r' name; simpl parse_lines.
  - intros [= <-]. unfold invocations. simpl. lia.
  - intros (r1 & H1 & H2)%bind_returns.
    destruct (parse_line_adds _ _ _ H1) as (_ & _ & _ & _ & _ & Hc1).
    rewrite (IH _ _ name H2), Hc1, (invocations_cons name line lines). lia.
Qed.

(** X17, on the stream of three tool invocations. *)
Lemma parse_lines_accumulates_witness :
  exists r' : ParsedOutput,
    parse_lines empty_parsed three_tools = Returns r' /\
    extends empty_parsed r' /\
    total_events r' = total_events empty_parsed
                      + Z.of_nat (length (List.filter is_event three_tools)) /\
    has_completion_marker r'
    = has_completion_marker empty_parsed || existsb is_marked three_tools /\
    raw_lines_count r' = raw_lines_count empty_parsed /\
    progress_estimate r' = progress_estimate empty_parsed.
Proof.
  eexists. split; [by vm_compute|].
  apply (parse_lines_accumulates three_tools empty_parsed). by vm_compute.
Defined.

(** X18, on the stream of three tool invocations and the tool [Write]. *)
Lemma parse_lines_counts_tools_witness :
  exists r' : ParsedOutput,
    parse_lines empty_parsed three_tools = Returns r' /\
    tool_count (tools_used r') "Write"
    = tool_count (tools_used empty_parsed) "Write" + invocations "Write" three_tools.
Proof.
  eexists. split; [by vm_compute|].
  apply (parse_lines_counts_tools three_tools empty_parsed). by vm_compute.
Defined.

End ParserOpsFacts.

(** ** The trigger evaluator as the orchestrator runs it *)

Section TriggerCliFacts.
Import Trigger TriggerSpec TriggerCli.

Lemma py_min_unit x : (0 <= x)%Q -> (0 <= py_min x 1 /\ py_min x 1 <= 1)%Q.
Proof.
  intros Hx. unfold py_min. destruct (Qltb 1 x) eqn:E.
  - split; [done|apply Qle_refl].
  - apply Qltb_ge in E. done.
Qed.

Lemma py_max_unit x : (0 <= x)%Q -> (0 <= py_max 0 (1 - x) /\ py_max 0 (1 - x) <= 1)%Q.
Proof.
  intros Hx. unfold py_max. destruct (Qltb 0 (1 - x)) eqn:E.
  - apply Qltb_lt in E. split; [by apply Qlt_le_weak|]. lra.
  - split; [apply Qle_refl|done].
Qed.

Lemma Qdiv_nonneg (x y : Q) : (0 <= x)%Q -> (0 < y)%Q -> (0 <= x / y)%Q.
Proof. intros Hx Hy. apply Qle_shift_div_l; [done|]. lra. Qed.



Lemma check_triggers_exit_code now s :
  match state s with Some st => settled st | None => false end = false ->
  check_triggers (exit_code now (Some s))
  = match urgency (evaluate_triggers now (body s)) with
    | immediate => (true, "score_critical"%string, 75 # 100)
    | soon => (true, "score_warning"%string, 55 # 100)
    | none => (false, "none"%string, 0%Q)
    end.
Proof.
  intros Hopen. unfold exit_code. rewrite Hopen.
  by destruct (urgency (evaluate_triggers now (body s))).
Qed.


End TriggerCliFacts.

(** ** Queries on the knowledge store *)

Section KnowledgeOpsFacts.
Import Knowledge KnowledgeSpec PyList KnowledgeOps Scenarios.

Lemma insert_hit_perm x l : Permutation (insert_hit x l) (x :: l).
Proof.
  induction l as [|y l IH]; simpl; [done|].
  destruct (Qltb _ _); [|done]. rewrite IH. apply perm_swap.
Qed.

Lemma sort_hits_perm l : Permutation (sort_hits l) l.
Proof.
  induction l as [|x l IH]; [done|]. simpl. rewrite insert_hit_perm. by constructor.
Qed.

Lemma insert_hit_descending x l : hits_descending l -> hits_descending (insert_hit x l).
Proof.
  unfold hits_descending. induction l as [|y l IH]; simpl; intros Hs.
  - repeat constructor.
  - apply StronglySorted_inv in Hs as [Hl Hy].
    destruct (Qltb (confidence (hit x)) (confidence (hit y))) eqn:E.
    + apply Qltb_lt in E. constructor; [by apply IH|].
      apply Forall_forall. intros z Hz%list_elem_of_In.
      apply (Permutation_in _ (insert_hit_perm x l)) in Hz as [<-|Hz].
      * by apply Qlt_le_weak.
      * rewrite Forall_forall in Hy. apply Hy. by apply list_elem_of_In.
    + apply Qltb_ge in E. constructor; [by constructor|].
      constructor; [done|].
      eapply Forall_impl; [exact Hy|]. intros z Hz. simpl in Hz.
      eapply Qle_trans; eauto.
Qed.

Lemma sort_hits_descending l : hits_descending (sort_hits l).
Proof.
  induction l as [|x l IH]; [constructor|]. by apply insert_hit_descending.
Qed.

Lemma hits_descending_take n l : hits_descending l -> hits_descending (take n l).
Proof.
  unfold hits_descending. revert n. induction l as [|x l IH]; intros [|n] Hs; simpl;
    try constructor.
  - apply IH. by apply StronglySorted_inv in Hs as [? _].
  - apply StronglySorted_inv in Hs as [_ Hx].
    rewrite Forall_forall in Hx |- *. intros y Hy. apply Hx.
    by apply (subseteq_take n l).
Qed.

Lemma hits_take_drop n l x y :
  hits_descending l -> x ∈ take n l -> y ∈ drop n l ->
  (confidence (hit y) <= confidence (hit x))%Q.
Proof.
  unfold hits_descending. revert n. induction l as [|z l IH]; intros n Hs Hx Hy.
  - rewrite take_nil in Hx. by apply elem_of_nil in Hx.
  - apply StronglySorted_inv in Hs as [Hl Hz].
    destruct n as [|n]; [by apply elem_of_nil in Hx|]. simpl in Hx, Hy.
    apply elem_of_cons in Hx as [->|Hx]; [|by eapply IH].
    rewrite Forall_forall in Hz. apply Hz. by apply (subseteq_drop n l).
Qed.

(** What the loop over one list adds. *)
Lemma collect_spec ptype ctx minc patterns : forall results h,
  h ∈ collect ptype ctx minc patterns results <->
  h ∈ results \/
  (hit h ∈ patterns /\ hit_type h = rstrip_s ptype /\
   context_fits ctx (hit h) = true /\ confident_enough minc (hit h) = true).
Proof.
  induction patterns as [|p rest IH]; intros results h; simpl.
  - split; [by left|]. intros [?|[?%elem_of_nil _]]; done.
  - destruct (context_fits ctx p) eqn:Ec; simpl;
      [destruct (confident_enough minc p) eqn:Em; simpl|]; rewrite IH.
    + rewrite elem_of_app, list_elem_of_singleton, elem_of_cons. split.
      * intros [[? | ->] | (? & ? & ? & ?)]; [by left| |]; right; simpl; auto 6.
      * intros [?|([Hp|?] & Ht & Hc & Hm)]; [by left; left| |by right].
        left; right. destruct h as [e t]. simpl in *. by subst.
    + rewrite elem_of_cons. split; [intros [?|(? & ? & ? & ?)]; auto 6|].
      intros [? | ([-> | ?] & Ht & Hc & Hm)]; [by left|congruence|by right].
    + rewrite elem_of_cons. split; [intros [?|(? & ? & ? & ?)]; auto 6|].
      intros [? | ([-> | ?] & Ht & Hc & Hm)]; [by left|congruence|by right].
Qed.

Lemma collect_all_spec store ctx minc (keys : list string) : forall results h,
  h ∈ fold_left (fun results key => collect key ctx minc (store_get store key) results)
                keys results <->
  h ∈ results \/
  exists key, key ∈ keys /\ hit h ∈ store_get store key /\ hit_type h = rstrip_s key /\
              context_fits ctx (hit h) = true /\ confident_enough minc (hit h) = true.
Proof.
  induction keys as [|k keys IH]; intros results h; simpl.
  - split; [by left|]. intros [?|(? & ?%elem_of_nil & _)]; done.
  - rewrite IH, collect_spec. split.
    + intros [[?|?]|(key & ? & ?)]; [by left| |].
      * right. exists k. split; [by left|done].
      * right. exists key. split; [by right|done].
    + intros [? | (key & [-> | ?]%elem_of_cons & ?)]; [by left; left|by left; right|].
      right. by exists key.
Qed.

Lemma slice_to_take {A} (l : list A) (limit : Z) :
  exists n : nat, slice_to l limit = take n l /\ (0 <= limit -> n = Z.to_nat limit).
Proof.
  unfold slice_to. destruct (0 <=? limit) eqn:E.
  - eexists. split; [done|done].
  - apply Z.leb_gt in E. eexists. split; [done|]. lia.
Qed.

(** X21.  [query_patterns] answers the most confident of the entries asked
    for, in descending order of confidence: every hit is an entry stored under
    a key the query looks under that passes the filters given, with the key
    stripped of its final [s] as its type; with a limit that is not negative
    there are at most [limit] hits; and an entry asked for that is not among
    the hits is no more confident than any hit, the hits then being [limit]
    many.  Asked for the type [success_pattern] or [anti_pattern] the query
    looks under [success_patterns] or [anti_patterns]; asked for
    [domain_knowledge] it looks under [domain_knowledges], a key no store has,
    and finds nothing. *)
Theorem query_patterns_most_confident :
  forall (store : Store) (pattern_type context : option string)
         (min_confidence : option Q) (limit : Z),
    let found := query_patterns store pattern_type context min_confidence limit in
    hits_descending found /\
    (forall h, h ∈ found -> wanted store pattern_type context min_confidence h) /\
    (0 <= limit -> (length found <= Z.to_nat limit)%nat) /\
    (0 <= limit ->
     forall h, wanted store pattern_type context min_confidence h ->
       h ∈ found \/
       (length found = Z.to_nat limit /\
        forall h', h' ∈ found -> (confidence (hit h) <= confidence (hit h'))%Q)) /\
    (forall h, pattern_type = Some "success_pattern"%string -> h ∈ found ->
               hit h ∈ success_patterns store /\ hit_type h = "success_pattern"%string) /\
    (forall h, pattern_type = Some "anti_pattern"%string -> h ∈ found ->
               hit h ∈ anti_patterns store /\ hit_type h = "anti_pattern"%string) /\
    (pattern_type = Some "domain_knowledge"%string -> found = []).
Proof.
  intros store pattern_type context min_confidence limit found.
  unfold query_patterns in found.
  set (results := fold_left _ _ _) in found.
  assert (forall h, h ∈ results <-> wanted store pattern_type context min_confidence h)
    as Hresults.
  { intros h. unfold results. rewrite collect_all_spec. unfold wanted.
    split; [intros [?%elem_of_nil|?]; done|by right]. }
  destruct (slice_to_take (sort_hits results) limit) as (n & Hslice & Hn).
  subst found. rewrite Hslice.
  assert (forall h, h ∈ take n (sort_hits results) ->
                    wanted store pattern_type context min_confidence h) as Hsound.
  { intros h Hh. apply Hresults. rewrite <- (sort_hits_perm results).
    by apply (subseteq_take n (sort_hits results)). }
  split; [|split; [|split; [|split; [|split; [|split; [|]]]]]].
  5: { intros h -> Hh. destruct (Hsound h Hh) as (key & Hkey & Hin & Hty & _).
       apply list_elem_of_singleton in Hkey as ->. done. }
  5: { intros h -> Hh. destruct (Hsound h Hh) as (key & Hkey & Hin & Hty & _).
       apply list_elem_of_singleton in Hkey as ->. done. }
  5: { intros ->. destruct (take n (sort_hits results)) as [|h l] eqn:E; [done|].
       destruct (Hsound h) as (key & Hkey & Hin & _); [first [by left|rewrite E; by left]|].
       apply list_elem_of_singleton in Hkey as ->. by apply elem_of_nil in Hin. }
  - apply hits_descending_take, sort_hits_descending.
  - exact Hsound.
  - intros Hlimit. rewrite length_take, <- (Hn Hlimit). lia.
  - intros Hlimit h Hh. apply Hresults in Hh. rewrite <- (sort_hits_perm results) in Hh.
    rewrite <- (take_drop n (sort_hits results)) in Hh at 1.
    apply elem_of_app in Hh as [Hh|Hh]; [by left|]. right. split.
    + rewrite length_take, <- (Hn Hlimit).
      assert (length (drop n (sort_hits results)) <> 0)%nat as Hne
        by (destruct (drop n (sort_hits results)); [by apply elem_of_nil in Hh|done]).
      rewrite length_drop in Hne. lia.
    + intros h' Hh'. by eapply hits_take_drop; [apply sort_hits_descending|..].
Qed.

(** *** The same pattern added again and again *)

Lemma confidence_after_step (c0 conf : Q) (k : Z) :
  1 <= k -> (conf == confidence_after c0 k)%Q ->
  ((if promotion_threshold <=? k + 1 then py_min 1 (conf + (5 # 100)) else conf)
   == confidence_after c0 (k + 1))%Q.
Proof.
  intros Hk Hconf. unfold confidence_after, promotion_threshold in *.
  destruct (k + 1 <=? 2) eqn:E1.
  - apply Z.leb_le in E1. assert (k = 1) as -> by lia. done.
  - apply Z.leb_gt in E1. assert ((3 <=? k + 1) = true) as -> by (apply Z.leb_le; lia).
    rewrite py_min_Qmin. replace (k + 1 - 2) with ((k - 2) + 1) by lia.
    rewrite inject_Z_plus. set (x := inject_Z (k - 2)) in *.
    assert (0 <= x)%Q as Hx
      by (unfold x; change 0%Q with (inject_Z 0); rewrite <- Zle_Qle; lia).
    destruct (k <=? 2) eqn:E2.
    + apply Z.leb_le in E2. assert (k = 2) as Hk2 by lia.
      assert (x == 0)%Q as Hx0 by (unfold x; by rewrite Hk2).
      destruct (Q.min_spec 1 (conf + (5 # 100))) as [[? ->]|[? ->]];
        destruct (Q.min_spec 1 (c0 + (5 # 100) * (x + inject_Z 1))) as [[? ->]|[? ->]];
        change (inject_Z 1) with 1%Q in *; lra.
    + destruct (Q.min_spec 1 (c0 + (5 # 100) * x)) as [[? Hm]|[? Hm]];
        rewrite Hm in Hconf;
        destruct (Q.min_spec 1 (conf + (5 # 100))) as [[? ->]|[? ->]];
        destruct (Q.min_spec 1 (c0 + (5 # 100) * (x + inject_Z 1))) as [[? ->]|[? ->]];
        change (inject_Z 1) with 1%Q in *; lra.
Qed.

Lemma add_again (c : AddCall) (store : Store) (k : Z) (e : Entry) :
  call_type c = "success_pattern"%string \/ call_type c = "anti_pattern"%string ->
  1 <= k ->
  holds_only store (list_key (call_type c)) (call_pattern c)
             (default default_confidence (call_confidence c)) k e ->
  holds_only (fst (run_add store c)) (list_key (call_type c)) (call_pattern c)
             (default default_confidence (call_confidence c)) (k + 1)
             (reinforce (call_now c) e).
Proof.
  intros Hty Hk (Hget & Hlen & Hpat & Hocc & Hconf).
  assert (find_similar_pattern store (call_type c) (call_pattern c) = Some (0%nat, e))
    as Hfind.
  { unfold find_similar_pattern. rewrite Hget. simpl. unfold similar.
    by rewrite Hpat, String.eqb_refl. }
  unfold run_add, add_pattern. rewrite Hfind. cbn [fst].
  assert (list_key (call_type c) = "success_patterns"%string \/
          list_key (call_type c) = "anti_patterns"%string) as Hkey
    by (destruct Hty as [-> | ->]; [by left|by right]).
  split; [|split; [|split; [done|split]]].
  - rewrite store_get_last_updated, store_get_set, Hget; [done|tauto].
  - assert (find_similar_pattern store (call_type c) (call_pattern c) <> None) as Hsome
      by (by rewrite Hfind).
    pose proof (add_found_lengths (call_now c) store (call_type c) (call_context c)
                  (call_pattern c) (call_confidence c) (call_source_gen c)
                  (call_source_agent c) (call_evidence c) (call_impact c) Hsome) as Hl.
    unfold add_pattern in Hl. rewrite Hfind in Hl. cbn [fst] in Hl.
    unfold lengths in Hl. injection Hl as H1 H2 H3.
    unfold set_last_updated in *. cbn [success_patterns anti_patterns domain_knowledge] in *.
    by rewrite H1, H2, H3.
  - cbn. by rewrite Hocc.
  - cbn [reinforce confidence]. rewrite Hocc. by apply confidence_after_step.
Qed.

Lemma add_first (c : AddCall) (now0 : string) :
  call_type c = "success_pattern"%string \/ call_type c = "anti_pattern"%string ->
  exists e,
    holds_only (fst (run_add (create_empty_store now0) c)) (list_key (call_type c))
               (call_pattern c) (default default_confidence (call_confidence c)) 1 e /\
    context e = call_context c.
Proof.
  intros Hty. unfold run_add, add_pattern.
  assert (find_similar_pattern (create_empty_store now0) (call_type c) (call_pattern c)
          = None) as ->.
  { unfold find_similar_pattern, store_get, create_empty_store. simpl.
    by repeat destruct (String.eqb _ _). }
  destruct Hty as [-> | ->]; cbn; eexists;
    (split; [unfold holds_only; do 4 (split; [reflexivity|]); cbn; reflexivity
            |reflexivity]).
Qed.

Lemma add_many (c : AddCall) (n : nat) : forall (store : Store) (k : Z) (e : Entry),
  call_type c = "success_pattern"%string \/ call_type c = "anti_pattern"%string ->
  1 <= k ->
  holds_only store (list_key (call_type c)) (call_pattern c)
             (default default_confidence (call_confidence c)) k e ->
  exists e',
    holds_only (run_adds store (replicate n c)) (list_key (call_type c)) (call_pattern c)
               (default default_confidence (call_confidence c)) (k + Z.of_nat n) e' /\
    context e' = context e.
Proof.
  induction n as [|n IH]; intros store k e Hty Hk Hinv.
  - exists e. rewrite Z.add_0_r. done.
  - simpl. fold (run_adds (fst (run_add store c)) (replicate n c)).
    destruct (IH _ (k + 1) _ Hty ltac:(lia) (add_again c store k e Hty Hk Hinv))
      as (e' & Hinv' & Hctx).
    exists e'. replace (k + Z.of_nat (S n)) with (k + 1 + Z.of_nat n) by lia.
    split; [done|]. by rewrite Hctx.
Qed.



End KnowledgeOpsFacts.

(** ** The plan of a swarm *)

Section SwarmInitFacts.
Import Swarm WaveSpec SwarmInit PyList PlanScenarios.

Lemma add_to_wave_lookup waves a w :
  default [] (add_to_wave waves a !! w)
  = default [] (waves !! w) ++ (if wave a =? w then [agent_id a] else []).
Proof.
  unfold add_to_wave. destruct (wave a =? w) eqn:E.
  - apply Z.eqb_eq in E as <-. by rewrite lookup_insert_eq.
  - apply Z.eqb_neq in E. rewrite lookup_insert_ne by done. by rewrite app_nil_r.
Qed.

Lemma fold_add_to_wave agents : forall waves w,
  default [] (fold_left add_to_wave agents waves !! w)
  = default [] (waves !! w) ++ in_wave agents w.
Proof.
  unfold in_wave. induction agents as [|a agents IH]; intros waves w; simpl.
  - by rewrite app_nil_r.
  - rewrite IH, add_to_wave_lookup. rewrite <- app_assoc. f_equal.
    by destruct (wave a =? w).
Qed.

Lemma group_waves_lookup agents w :
  default [] (group_waves agents !! w) = in_wave agents w.
Proof. unfold group_waves. by rewrite fold_add_to_wave, lookup_empty. Qed.

Lemma fold_insert_other {B} (f : Assigned -> B) agents : forall (m : gmap string B) k,
  k ∉ agent_id <$> agents ->
  fold_left (fun m a => <[agent_id a := f a]> m) agents m !! k = m !! k.
Proof.
  induction agents as [|a agents IH]; intros m k Hk; simpl; [done|].
  rewrite fmap_cons in Hk. apply not_elem_of_cons in Hk as [Hne Hk].
  rewrite IH by done. by rewrite lookup_insert_ne.
Qed.

Lemma fold_insert_lookup {B} (f : Assigned -> B) agents : forall (m : gmap string B) a,
  NoDup (agent_id <$> agents) -> a ∈ agents ->
  fold_left (fun m a => <[agent_id a := f a]> m) agents m !! agent_id a = Some (f a).
Proof.
  induction agents as [|x agents IH]; intros m a Hnd Ha; [by apply elem_of_nil in Ha|].
  rewrite fmap_cons in Hnd. apply NoDup_cons in Hnd as [Hx Hnd]. simpl.
  apply elem_of_cons in Ha as [->|Ha]; [|by apply IH].
  rewrite fold_insert_other by done. by rewrite lookup_insert_eq.
Qed.

Lemma generate_dependencies_lookup (assigned : list Assigned) (a : Assigned) :
  NoDup (agent_id <$> assigned) -> a ∈ assigned ->
  generate_dependencies assigned !! agent_id a
  = Some (if 1 <? wave a then in_wave assigned (wave a - 1) else []).
Proof.
  intros Hnd Ha. unfold generate_dependencies.
  rewrite (fold_insert_lookup
             (fun a => if 1 <? wave a
                       then default [] (group_waves assigned !! (wave a - 1)) else []))
    by done.
  by rewrite group_waves_lookup.
Qed.

Lemma in_wave_spec assigned w id :
  id ∈ in_wave assigned w <-> exists a, a ∈ assigned /\ agent_id a = id /\ wave a = w.
Proof.
  unfold in_wave. rewrite list_elem_of_fmap. split.
  - intros (a & -> & Ha%list_elem_of_In%filter_In). destruct Ha as [Ha E].
    exists a. apply Z.eqb_eq in E. by rewrite list_elem_of_In.
  - intros (a & Ha & <- & <-). exists a. split; [done|].
    apply list_elem_of_In, filter_In. split; [by apply list_elem_of_In|apply Z.eqb_refl].
Qed.

Lemma depends_on_spec assigned a d :
  NoDup (agent_id <$> assigned) -> a ∈ assigned ->
  d ∈ depends_on assigned (agent_id a) <->
  1 < wave a /\ exists b, b ∈ assigned /\ agent_id b = d /\ wave b = wave a - 1.
Proof.
  intros Hnd Ha. unfold depends_on. rewrite generate_dependencies_lookup by done.
  cbn [from_option id]. destruct (1 <? wave a) eqn:E.
  - apply Z.ltb_lt in E. rewrite in_wave_spec. tauto.
  - apply Z.ltb_ge in E. split; [by intros ?%elem_of_nil|]. intros [? _]. lia.
Qed.

(** X23.  [generate_dependencies] makes every agent of a wave after the
    first depend on exactly the agents of the wave before it, in the order
    they were given, and every agent of the first wave on none: an agent never
    depends on itself nor on an agent of its own or of a later wave.  The
    agent ids are distinct. *)
Theorem dependencies_are_previous_wave :
  forall (assigned : list Assigned) (a : Assigned),
    NoDup (agent_id <$> assigned) -> a ∈ assigned ->
    generate_dependencies assigned !! agent_id a
    = Some (if 1 <? wave a then in_wave assigned (wave a - 1) else []) /\
    (forall d : string,
       d ∈ depends_on assigned (agent_id a) <->
       1 < wave a /\ exists b, b ∈ assigned /\ agent_id b = d /\ wave b = wave a - 1) /\
    (forall b : Assigned,
       b ∈ assigned -> agent_id b ∈ depends_on assigned (agent_id a) -> wave b < wave a).
Proof.
  intros assigned a Hnd Ha. split; [by apply generate_dependencies_lookup|].
  split; [intros d; by apply depends_on_spec|].
  intros b Hb Hdep. apply depends_on_spec in Hdep as (_ & b' & Hb' & Hid & Hw); [|done..].
  assert (b' = b) as ->; [|lia].
  apply list_elem_of_lookup in Hb as [i Hi]. apply list_elem_of_lookup in Hb' as [j Hj].
  assert (i = j) as ->; [|congruence].
  eapply NoDup_lookup; [exact Hnd|..]; rewrite list_lookup_fmap.
  - by rewrite Hi.
  - rewrite Hj. simpl. by rewrite Hid.
Qed.

(** X24.  No agent starts before what it depends on is done: in a state
    that has the waves of the plan, whenever [advance_wave] (of the swarm loop
    or of [wave-manager.py]) answers [True], every dependency of every agent
    of the wave entered is completed or succeeded. *)
Theorem advance_meets_dependencies :
  forall (assigned : list Assigned) (now : string) (st : State)
         (advance : string -> State -> bool * State),
    NoDup (agent_id <$> assigned) -> follows st assigned ->
    advance = SwarmOrchestrator.advance_wave \/ advance = WaveManagerCli.advance_wave ->
    fst (advance now st) = true ->
    let st' := snd (advance now st) in
    get_current_wave st' = get_current_wave st + 1 /\
    forall a : Assigned,
      a ∈ assigned -> wave a = get_current_wave st' ->
      forall d : string, d ∈ depends_on assigned (agent_id a) -> agent_done st' d = true.
Proof.
  intros assigned now st advance Hnd Hfollows Hadv Htrue st'.
  assert (wave_done st (get_current_wave st) /\
          get_current_wave st' = get_current_wave st + 1 /\
          agents st' = agents st) as (Hdone & Hcur & Hags).
  { unfold st'. destruct Hadv as [-> | ->].
    - unfold SwarmOrchestrator.advance_wave in *.
      destruct (get_total_waves st <=? get_current_wave st); [done|].
      destruct (SwarmOrchestrator.is_wave_complete st (get_current_wave st)) eqn:E; [|done].
      apply is_wave_complete_iff in E. done.
    - unfold WaveManagerCli.advance_wave in *.
      destruct (WaveManagerCli.can_advance_wave st) eqn:E; [|done].
      apply can_advance_wave_iff in E as [_ E]. done. }
  split; [done|]. intros a Ha Hwave d Hd.
  apply depends_on_spec in Hd as (_ & b & Hb & <- & Hwb); [|done..].
  assert (agent_done st (agent_id b) = true) as Hb_done.
  { apply Hdone. rewrite Hfollows. apply list_elem_of_In, in_wave_spec.
    exists b. split; [done|]. split; [done|]. lia. }
  unfold agent_done in *. by rewrite Hags.
Qed.

Lemma init_follows (assigned : list Assigned) :
  follows (init_state (plan_of assigned)) assigned.
Proof.
  intros w. unfold get_wave_agents, init_state, plan_of. cbn [waves plan_waves].
  rewrite lookup_fmap, <- group_waves_lookup.
  by destruct (group_waves assigned !! w).
Qed.

Lemma slice_to_common_roles (num_agents : Z) :
  exists k : nat, (k <= 6)%nat /\ slice_to common_roles num_agents = take k common_roles /\
                  (0 <= num_agents <= 6 -> k = Z.to_nat num_agents).
Proof.
  unfold slice_to. destruct (0 <=? num_agents) eqn:E.
  - apply Z.leb_le in E. exists (Nat.min (Z.to_nat num_agents) 6). split; [lia|]. split.
    + change 6%nat with (length common_roles) at 1.
      destruct (Nat.min_spec (Z.to_nat num_agents) (length common_roles)) as [[? ->]|[? ->]];
        [done|]. by rewrite !take_ge.
    + intros ?. lia.
  - apply Z.leb_gt in E. exists (length common_roles - Z.to_nat (- num_agents))%nat.
    split; [simpl; lia|]. split; [done|lia].
Qed.

(** X25.  The plan [decompose_task] makes, whatever the number of agents
    asked for: at most six agents, as many as asked for from none to six, with
    distinct ids; the waves are numbered from 1 to [total_waves] without a
    gap; and the state [init_swarm] writes starts at wave 1 with the agents
    of each wave listed under it. *)
Theorem decompose_task_plan :
  forall (num_agents : Z),
    let assigned := assign num_agents in
    let plan := decompose_task num_agents in
    NoDup (agent_id <$> assigned) /\
    total_agents plan = Z.of_nat (length assigned) /\ total_agents plan <= 6 /\
    (0 <= num_agents <= 6 -> total_agents plan = num_agents) /\
    dom (plan_waves plan) =@{gset Z} list_to_set (seqZ 1 (plan_total_waves plan)) /\
    get_current_wave (init_state plan) = 1 /\
    get_total_waves (init_state plan) = plan_total_waves plan /\
    follows (init_state plan) assigned.
Proof.
  intros num_agents assigned plan.
  destruct (slice_to_common_roles num_agents) as (k & Hk & Hslice & Hexact).
  assert (assigned
          = imap (fun i r => mkAssigned ("agent-" ++ pretty (S i)) (fst (fst r))
                                        (snd (fst r)) (snd r))
                 (take k common_roles)) as Hassigned
    by (unfold assigned, assign; by rewrite Hslice).
  assert (length assigned = k) as Hlen
    by (rewrite Hassigned, length_imap, length_take; simpl; lia).
  split; [|split; [done|split; [|split; [|split; [|split;
    [done|split; [done|apply init_follows]]]]]]].
  - rewrite Hassigned. clear -Hk.
    do 7 (destruct k as [|k]; [apply (bool_decide_unpack _); by vm_compute|]). lia.
  - unfold plan, decompose_task, plan_of. cbn [total_agents]. fold assigned. lia.
  - intros Hrange. unfold plan, decompose_task, plan_of. cbn [total_agents]. fold assigned.
    rewrite Hlen, (Hexact Hrange). lia.
  - unfold plan, decompose_task, plan_of. cbn [plan_waves plan_total_waves]. fold assigned.
    rewrite Hassigned. clear -Hk.
    do 7 (destruct k as [|k]; [apply (bool_decide_unpack _); by vm_compute|]). lia.
Qed.

(** X23, on the third of the default four agents. *)
Lemma dependencies_are_previous_wave_witness :
  let a := mkAssigned "agent-3" "backend-api" 2
                      "API endpoints, business logic, validation" in
  generate_dependencies (assign 4) !! agent_id a
  = Some (if 1 <? wave a then in_wave (assign 4) (wave a - 1) else []) /\
  (forall d : string,
     d ∈ depends_on (assign 4) (agent_id a) <->
     1 < wave a /\ exists b, b ∈ assign 4 /\ agent_id b = d /\ wave b = wave a - 1) /\
  (forall b : Assigned,
     b ∈ assign 4 -> agent_id b ∈ depends_on (assign 4) (agent_id a) -> wave b < wave a).
Proof.
  apply (dependencies_are_previous_wave (assign 4)
           (mkAssigned "agent-3" "backend-api" 2
                       "API endpoints, business logic, validation")).
  - apply (bool_decide_unpack _). by vm_compute.
  - apply list_elem_of_In. vm_compute. do 2 right. left. reflexivity.
Defined.

(** X24, on the default four agents once the first has completed: the
    swarm loop advances to the second wave. *)
Lemma advance_meets_dependencies_witness :
  let st' := snd (SwarmOrchestrator.advance_wave "2026-01-01T00:00:00Z" first_wave_done) in
  get_current_wave st' = get_current_wave first_wave_done + 1 /\
  forall a : Assigned,
    a ∈ assign 4 -> wave a = get_current_wave st' ->
    forall d : string, d ∈ depends_on (assign 4) (agent_id a) -> agent_done st' d = true.
Proof.
  apply (advance_meets_dependencies (assign 4) "2026-01-01T00:00:00Z" first_wave_done
           SwarmOrchestrator.advance_wave).
  - apply (bool_decide_unpack _). by vm_compute.
  - exact (init_follows (assign 4)).
  - by left.
  - by vm_compute.
Defined.

End SwarmInitFacts.

(** ** The report on the waves *)

Section WaveStatusFacts.
Import Swarm WaveSpec WaveStatus Scenarios.

Lemma agent_done_status st id :
  agent_done st id
  = String.eqb (status_of st id) "completed" || String.eqb (status_of st id) "succeeded".
Proof.
  unfold agent_done, status_of. destruct (agents st !! id) as [a|]; [|done].
  by destruct (agent_status a).
Qed.

Lemma tally_fold st ids : forall c r p,
  let '(c', r', p') := fold_left (tally st) ids (c, r, p) in
  c' = c + done_count st ids /\ c' + r' + p' = c + r + p + Z.of_nat (length ids) /\
  r <= r' /\ p <= p'.
Proof.
  unfold done_count. induction ids as [|id ids IH]; intros c r p; simpl; [lia|].
  rewrite agent_done_status.
  destruct (String.eqb (status_of st id) "completed" || String.eqb (status_of st id) "succeeded");
    [|destruct (String.eqb (status_of st id) "running")].
  - specialize (IH (c + 1) r p). destruct (fold_left _ _ _) as [[c' r'] p']. simpl length. lia.
  - specialize (IH c (r + 1) p). destruct (fold_left _ _ _) as [[c' r'] p']. lia.
  - specialize (IH c r (p + 1)). destruct (fold_left _ _ _) as [[c' r'] p']. lia.
Qed.

Lemma done_count_all st ids :
  done_count st ids = Z.of_nat (length ids) <-> forall a, In a ids -> agent_done st a = true.
Proof.
  unfold done_count. induction ids as [|id ids IH]; simpl; [done|].
  pose proof (filter_length_le (agent_done st) ids) as Hle.
  destruct (agent_done st id) eqn:E; simpl length.
  - split.
    + intros H a [<-|Ha]; [done|]. apply IH; [lia|done].
    + intros H. rewrite Nat2Z.inj_succ, Nat2Z.inj_succ. f_equal. apply IH. auto.
  - split; [lia|]. intros H. rewrite (H id) in E by auto. done.
Qed.

(** X26.  The report of [get_wave_status] on a wave: the three counters
    are not negative and add up to [total], the number of agents of the wave;
    [completed] counts the agents that are completed or succeeded;
    [is_complete] holds exactly when the wave has an agent and all its agents
    are completed or succeeded; and when the current wave is reported
    complete and is not the last, [can_advance_wave] agrees. *)
Theorem wave_report_counts :
  forall (st : State) (w : Wave),
    let r := wave_report st w in
    0 <= completed r /\ 0 <= running r /\ 0 <= pending r /\
    completed r + running r + pending r = total r /\
    total r = Z.of_nat (length (wave_agents w)) /\
    completed r = done_count st (wave_agents w) /\
    (is_complete r = true <->
     wave_agents w <> [] /\ forall a, In a (wave_agents w) -> agent_done st a = true) /\
    (waves st !! get_current_wave st = Some w -> is_complete r = true ->
     get_current_wave st < get_total_waves st ->
     WaveManagerCli.can_advance_wave st = true).
Proof.
  intros st w r. unfold r, wave_report.
  pose proof (tally_fold st (wave_agents w) 0 0 0) as H.
  destruct (fold_left _ _ _) as [[c r'] p]. destruct H as (Hc & Hsum & Hr & Hp).
  cbn [completed running pending total is_complete].
  assert (0 <= done_count st (wave_agents w)) as Hdc by (unfold done_count; lia).
  assert ((c =? Z.of_nat (length (wave_agents w))) && (0 <? Z.of_nat (length (wave_agents w)))
          = true <->
          wave_agents w <> [] /\ forall a, In a (wave_agents w) -> agent_done st a = true)
    as Hcomplete.
  { rewrite andb_true_iff, Z.eqb_eq, Z.ltb_lt, <- done_count_all.
    destruct (wave_agents w); simpl length; split; intros [? ?]; split; try done; lia. }
  do 6 (split; [lia|]). split; [exact Hcomplete|].
  intros Hw Hcomp Hlt. apply can_advance_wave_iff. split; [done|].
  unfold wave_done, get_wave_agents. rewrite Hw. by apply Hcomplete.
Qed.

(** *** Spawning leaves the agents at work alone *)

Lemma same_agent_refl ws a : same_agent ws ws a.
Proof. by split. Qed.

Lemma started_same ws ws' a : same_agent ws ws' a -> started ws a -> started ws' a.
Proof. intros [Hag _] (ag & H & Hgen). exists ag. by rewrite Hag. Qed.

Lemma unspawned_started ws a : started ws a -> unspawned (state ws) a = false.
Proof.
  intros (ag & Hag & Hgen). unfold unspawned. rewrite Hag. by apply Z.eqb_neq.
Qed.

(** One turn of either spawning loop on [b]. *)
Lemma spawn_turn_same now ws a b :
  b <> a \/ started ws a ->
  same_agent ws (WaveManagerCli.spawn_one now ws b) a /\
  same_agent ws (SwarmOrchestrator.spawn_step now ws b) a.
Proof.
  intros Hab. unfold WaveManagerCli.spawn_one, SwarmOrchestrator.spawn_step.
  destruct (unspawned (state ws) b) eqn:E; [|split; apply same_agent_refl].
  assert (b <> a) as Hne.
  { destruct Hab as [?|Hs]; [done|]. intros ->. by rewrite (unspawned_started _ _ Hs) in E. }
  split; split; cbn.
  - by rewrite lookup_alter_ne.
  - intros g. rewrite lookup_insert_ne; [done|congruence].
  - by rewrite lookup_alter_ne.
  - intros g. rewrite lookup_insert_ne; [done|congruence].
Qed.

Lemma spawn_turns_same (step : Workspace -> string -> Workspace) l :
  (forall ws b a, b <> a \/ started ws a -> same_agent ws (step ws b) a) ->
  forall ws a,
    a ∉ l \/ started ws a ->
    same_agent ws (fold_left step l ws) a.
Proof.
  intros Hstep. induction l as [|b l IH]; intros ws a Ha; [apply same_agent_refl|].
  simpl.
  assert (same_agent ws (step ws b) a) as Hone.
  { apply Hstep. destruct Ha as [Ha|?]; [|by right]. left. intros ->. apply Ha. by left. }
  assert (same_agent (step ws b) (fold_left step l (step ws b)) a) as [Hag Hfiles].
  { apply IH. destruct Ha as [Ha|Hs].
    - left. intros ?. apply Ha. by right.
    - right. by eapply started_same. }
  destruct Hone as [Hag1 Hfiles1]. split; [congruence|].
  intros g. by rewrite Hfiles, Hfiles1.
Qed.

(** X27.  Spawning never touches an agent that is at work: after
    [spawn_wave_agents] of [wave-manager.py] on any wave, and after the
    spawning loop of the swarm over the current wave, an agent that is
    registered with a generation other than zero, or that is not in the wave,
    has the registry entry and the status files it had before. *)
Theorem spawn_leaves_started_agents :
  forall (now : string) (ws : Workspace) (wave : Z) (a : string),
    a ∉ get_wave_agents (state ws) wave \/ started ws a ->
    same_agent ws (WaveManagerCli.spawn_wave_agents now ws wave) a /\
    (wave = get_current_wave (state ws) ->
     same_agent ws (SwarmOrchestrator.spawn_current_wave now ws) a).
Proof.
  intros now ws wave a Ha. split.
  - unfold WaveManagerCli.spawn_wave_agents. apply spawn_turns_same; [|done].
    intros ws' b a' H. by apply spawn_turn_same.
  - intros ->. unfold SwarmOrchestrator.spawn_current_wave. apply spawn_turns_same; [|done].
    intros ws' b a' H. by apply spawn_turn_same.
Qed.

(** X27, on the swarm of scenario 4 while [a1] is running: spawning the
    first wave again leaves [a1] as it is. *)
Lemma spawn_leaves_started_agents_witness :
  let ws := mkWorkspace running_state ∅ in
  same_agent ws (WaveManagerCli.spawn_wave_agents "2026-01-02T00:00:00Z" ws 1) "a1" /\
  (1 = get_current_wave (state ws) ->
   same_agent ws (SwarmOrchestrator.spawn_current_wave "2026-01-02T00:00:00Z" ws) "a1").
Proof.
  apply (spawn_leaves_started_agents "2026-01-02T00:00:00Z" (mkWorkspace running_state ∅)
           1 "a1").
  right. exists (worker "running" 1). split; [by vm_compute|discriminate].
Defined.

End WaveStatusFacts.

(** ** What the dashboard shows of an agent *)

Section AgentViewFacts.
Import Json Outcome Parser ParserSpec ParserOps AgentStatus AgentView Scenarios.

Lemma bump_positive tools name : counts_positive tools -> counts_positive (bump tools name).
Proof.
  unfold counts_positive. induction tools as [|[k n] tools IH]; simpl; intros H.
  - by repeat constructor.
  - apply Forall_cons in H as [Hn H]. simpl in Hn.
    destruct (String.eqb k name); constructor; simpl; auto; lia.
Qed.

Lemma note_tool_positive st tool st' :
  note_tool st tool = Returns st' ->
  counts_positive (ts_tools st) -> counts_positive (ts_tools st').
Proof.
  unfold note_tool. destruct (fst tool) as [| | |tool_name| |]; try done.
  intros (files & _ & (task & _ & [= <-])%bind_returns)%bind_returns. cbn.
  apply bump_positive.
Qed.

Lemma note_tools_positive tools : forall st st',
  note_tools st tools = Returns st' ->
  counts_positive (ts_tools st) -> counts_positive (ts_tools st').
Proof.
  induction tools as [|tool tools IH]; intros st st'; simpl.
  - by intros [= <-].
  - intros (st1 & H1 & H2)%bind_returns Hpos.
    eapply IH; [exact H2|]. by eapply note_tool_positive.
Qed.

Lemma note_fallback_positive st event st' :
  note_fallback st event = Returns st' ->
  counts_positive (ts_tools st) -> counts_positive (ts_tools st').
Proof.
  unfold note_fallback. destruct (truthy _); [|by intros [= <-]].
  destruct (extract_tool_name _) as [| | |tool_name| |]; try done.
  destruct (is_file_tool tool_name).
  - intros (fp & _ & (files & _ & [= <-])%bind_returns)%bind_returns. cbn.
    apply bump_positive.
  - intros [= <-]. cbn. apply bump_positive.
Qed.

Lemma parse_line_positive r line r' :
  parse_line r line = Returns r' ->
  counts_positive (tools_used r) -> counts_positive (tools_used r').
Proof.
  unfold parse_line. destruct (decoded line) as [ev|]; [|by intros [= <-]].
  destruct (negb (truthy ev)); [by intros [= <-]|].
  destruct ev as [| | | | |event]; try done.
  intros (last & _ & H)%bind_returns.
  apply bind_returns in H as (st1 & Hst1 & H).
  apply bind_returns in H as (st2 & Hst2 & [= <-]).
  cbn [tools_used]. intros Hpos.
  apply note_tools_positive in Hst1; [|done].
  destruct (extract_all_tools_from_event event).
  - by eapply note_fallback_positive.
  - by injection Hst2 as <-.
Qed.

Lemma parse_lines_positive lines : forall r r',
  parse_lines r lines = Returns r' ->
  counts_positive (tools_used r) -> counts_positive (tools_used r').
Proof.
  induction lines as [|line lines IH]; intros r r'; simpl.
  - by intros [= <-].
  - intros (r1 & H1 & H2)%bind_returns Hpos.
    eapply IH; [exact H2|]. by eapply parse_line_positive.
Qed.

Lemma total_nonnegative tools :
  counts_positive tools -> 0 <= foldr Z.add 0 (map snd tools).
Proof.
  unfold counts_positive. induction tools as [|[k n] tools IH]; simpl; [done|].
  intros [Hn H]%Forall_cons. simpl in Hn. specialize (IH H). lia.
Qed.

Lemma estimate_progress_range parsed :
  (estimate_progress parsed = 100 <-> has_completion_marker parsed = true) /\
  (has_completion_marker parsed = false -> estimate_progress parsed <= 95) /\
  (counts_positive (tools_used parsed) -> 0 <= estimate_progress parsed).
Proof.
  rewrite estimate_progress_capped. unfold capped_estimate, task_bonus, total_tool_invocations.
  destruct (has_completion_marker parsed).
  - split; [done|]. split; [done|]. lia.
  - split; [split; [lia|done]|]. split; [lia|].
    intros Hpos%total_nonnegative. destruct (truthy (current_task parsed)); lia.
Qed.

(** X28.  What the dashboard shows of an agent after its output has been
    parsed: the progress is 100 exactly when a completion marker was seen,
    and the status shown is then [completed] whatever the time; without a
    marker the progress is at most 95; and for an output parsed from scratch
    the progress is never negative. *)
Theorem full_progress_means_completed :
  forall (lines : list Line) (existing : option ParsedOutput) (r : ParsedOutput)
         (now : DateTime),
    parse_output_content lines existing = Returns r ->
    (snd (status_and_progress r now) = 100 <-> has_completion_marker r = true) /\
    (snd (status_and_progress r now) = 100 -> fst (status_and_progress r now) = completed) /\
    (has_completion_marker r = false -> snd (status_and_progress r now) <= 95) /\
    (existing = None -> 0 <= snd (status_and_progress r now) <= 100).
Proof.
  intros lines existing r now. rewrite parse_output_content_counts.
  intros (r' & Hrun & [= <-])%bind_returns.
  unfold status_and_progress, determine_agent_status.
  cbn [fst snd with_counts progress_estimate has_completion_marker].
  destruct (estimate_progress_range r') as (Hfull & Hcap & Hlow).
  split; [exact Hfull|]. split; [intros H; apply Hfull in H; by rewrite H|].
  split; [exact Hcap|]. intros ->. cbn [from_option id] in Hrun.
  apply parse_lines_positive in Hrun; [|constructor].
  specialize (Hlow Hrun). destruct (has_completion_marker r') eqn:E.
  - rewrite (proj2 Hfull eq_refl). lia.
  - specialize (Hcap eq_refl). lia.
Qed.

(** X28, on the stream of three tool invocations. *)
Lemma full_progress_means_completed_witness :
  exists r : ParsedOutput,
    parse_output_content three_tools None = Returns r /\
    (snd (status_and_progress r (mkDateTime false 0)) = 100
     <-> has_completion_marker r = true) /\
    (snd (status_and_progress r (mkDateTime false 0)) = 100 ->
     fst (status_and_progress r (mkDateTime false 0)) = completed) /\
    (has_completion_marker r = false ->
     snd (status_and_progress r (mkDateTime false 0)) <= 95) /\
    (@None ParsedOutput = None -> 0 <= snd (status_and_progress r (mkDateTime false 0)) <= 100).
Proof.
  eexists. split; [by vm_compute|].
  apply (full_progress_means_completed three_tools None). by vm_compute.
Defined.

End AgentViewFacts.

(** ** The waves as the dashboard shows them *)

Section WaveViewFacts.
Import AgentStatus WaveView.

Lemma organize_step_other waves agent w :
  wave (snd agent) <> w -> organize_step waves agent !! w = waves !! w.
Proof. intros H. unfold organize_step. by rewrite lookup_insert_ne. Qed.

Lemma organize_step_same waves agent :
  organize_step waves agent !! wave (snd agent)
  = Some (let d := default (mkWaveData (wave (snd agent)) [] 0 0 0 0 0)
                           (waves !! wave (snd agent)) in
          count_status
            (mkWaveData (wave_number d) (wave_agents d ++ [fst agent]) (total d + 1)
                        (running_count d) (completed_count d) (idle_count d)
                        (pending_count d))
            (status (snd agent))).
Proof. unfold organize_step. by rewrite lookup_insert_eq. Qed.

Lemma showing_app s l1 l2 : showing s (l1 ++ l2) = showing s l1 + showing s l2.
Proof. unfold showing. rewrite List.filter_app, length_app. lia. Qed.

Lemma showing_total l :
  showing running l + showing completed l + showing idle l + showing pending l
  = Z.of_nat (length l).
Proof.
  induction l as [|a l IH]; [done|].
  change (a :: l) with ([a] ++ l). rewrite !showing_app, length_app.
  unfold showing at 1 3 5 7. simpl. destruct (status (snd a)); simpl; lia.
Qed.

(** The entry of a wave after the loop has gone over the agents. *)
Lemma organize_lookup agents w :
  organize_by_waves agents !! w
  = match members agents w with
    | [] => None
    | _ :: _ =>
        Some (mkWaveData w (map fst (members agents w))
                         (Z.of_nat (length (members agents w)))
                         (showing running (members agents w))
                         (showing completed (members agents w))
                         (showing idle (members agents w))
                         (showing pending (members agents w)))
    end.
Proof.
  unfold organize_by_waves. induction agents as [|a agents IH] using rev_ind; [done|].
  rewrite fold_left_app. cbn [fold_left]. unfold members in *.
  rewrite List.filter_app. cbn [List.filter].
  destruct (wave (snd a) =? w) eqn:E.
  - apply Z.eqb_eq in E. rewrite <- E at 1. rewrite organize_step_same, E, IH.
    set (m := List.filter _ agents).
    assert (forall (B : Type) (l : list (string * AgentData)) (X : B),
              l <> [] -> match l with [] => None | _ :: _ => Some X end = Some X) as Hsome
      by (intros B [|? ?] X ?; done).
    rewrite (Hsome _ (m ++ [a])) by (by destruct m).
    f_equal. rewrite !showing_app, map_app, length_app, Nat2Z.inj_add.
    assert (forall s, showing s [a]
                      = match status (snd a), s with
                        | running, running | completed, completed
                        | idle, idle | pending, pending => 1
                        | _, _ => 0
                        end) as Hone
      by (intros s; unfold showing; simpl; by destruct (status (snd a)), s).
    rewrite !Hone. cbn [map length fst].
    destruct m as [|y m'];
      cbn [from_option id wave_number wave_agents total running_count completed_count
           idle_count pending_count];
      destruct (status (snd a)); unfold count_status;
      cbn [wave_number wave_agents total running_count completed_count
           idle_count pending_count]; f_equal; try done; lia.
  - apply Z.eqb_neq in E. rewrite organize_step_other by done. rewrite IH.
    by rewrite app_nil_r.
Qed.

(** X30.  [_organize_by_waves] lists every wave that has an agent, and no
    other: under its number the agents of the wave in the order they were
    given, [total] their number, and the four counters the numbers of them
    that are running, completed, idle and pending, which add up to
    [total]. *)
Theorem organize_by_waves_counts :
  forall (agents : list (string * AgentData)) (w : Z),
    (organize_by_waves agents !! w = None <-> members agents w = []) /\
    forall d : WaveData,
      organize_by_waves agents !! w = Some d ->
      wave_number d = w /\ wave_agents d = map fst (members agents w) /\
      total d = Z.of_nat (length (members agents w)) /\ 0 < total d /\
      running_count d = showing running (members agents w) /\
      completed_count d = showing completed (members agents w) /\
      idle_count d = showing idle (members agents w) /\
      pending_count d = showing pending (members agents w) /\
      running_count d + completed_count d + idle_count d + pending_count d = total d.
Proof.
  intros agents w. rewrite organize_lookup.
  pose proof (showing_total (members agents w)) as Hsum.
  destruct (members agents w) as [|a l] eqn:E; [done|]. split; [done|].
  intros d [= <-]. cbn [wave_number wave_agents total running_count completed_count
                        idle_count pending_count].
  do 3 (split; [done|]). split; [simpl length; lia|]. do 4 (split; [done|]). exact Hsum.
Qed.

End WaveViewFacts.

(** ** Pruning the knowledge store *)

Section KnowledgePruneFacts.
Import Knowledge KnowledgeSpec KnowledgePrune Scenarios.

Lemma prune_list_filter parse minc cut patterns : forall filtered,
  prune_list parse minc cut patterns filtered
  = filtered ++ List.filter (fun p => negb (Qltb (confidence p) minc)
                                      && negb (too_old parse cut p)) patterns.
Proof.
  induction patterns as [|p rest IH]; intros filtered; simpl; [by rewrite app_nil_r|].
  destruct (Qltb (confidence p) minc); simpl; [apply IH|].
  destruct (too_old parse cut p); simpl; [apply IH|].
  rewrite IH, <- app_assoc. done.
Qed.

Lemma filter_sublist {A} (f : A -> bool) (l : list A) : sublist (List.filter f l) l.
Proof.
  induction l as [|x l IH]; simpl; [constructor|].
  destruct (f x); by constructor.
Qed.

Lemma prune_list_spec parse minc cut all :
  pruned_to parse minc cut all (prune_list parse minc cut all [])
            (Z.of_nat (length all) - Z.of_nat (length (prune_list parse minc cut all []))).
Proof.
  rewrite prune_list_filter. cbn [app]. split; [apply filter_sublist|].
  split; [|split; [done|]].
  - intros p. rewrite list_elem_of_In, filter_In, <- list_elem_of_In.
    unfold stays. rewrite andb_true_iff, !negb_true_iff, Qltb_ge. tauto.
  - pose proof (filter_length_le
                  (fun p => negb (Qltb (confidence p) minc) && negb (too_old parse cut p)) all).
    lia.
Qed.

Lemma prune_list_again parse minc cut all :
  prune_list parse minc cut (prune_list parse minc cut all []) []
  = prune_list parse minc cut all [].
Proof.
  rewrite !prune_list_filter. cbn [app]. induction all as [|p rest IH]; [done|].
  simpl. destruct (negb _ && negb _) eqn:E; [|exact IH].
  simpl. rewrite E. by rewrite IH.
Qed.

(** X29.  [prune_patterns] leaves of each of the three lists exactly the
    entries that are at least as confident as the minimum (0.6 when none is
    given) and, when a number of days other than zero is given, were last
    seen no earlier than that many days before the clock; they keep their
    order, each counter of [removed] is the number of entries the list lost,
    a store within its caps stays within them, and pruning the result again
    with the same arguments at the same time removes nothing. *)
Theorem prune_patterns_keeps_confident :
  forall (parse : string -> option Z) (stamp : string) (now : Z) (store : Store)
         (min_confidence : option Q) (max_age_days : option Z),
    let minc := default Knowledge.min_confidence min_confidence in
    let cut := cutoff now max_age_days in
    let store' := fst (prune_patterns parse stamp now store min_confidence max_age_days) in
    let removed := snd (prune_patterns parse stamp now store min_confidence max_age_days) in
    pruned_to parse minc cut (success_patterns store) (success_patterns store')
              (fst (fst removed)) /\
    pruned_to parse minc cut (anti_patterns store) (anti_patterns store')
              (snd (fst removed)) /\
    pruned_to parse minc cut (domain_knowledge store) (domain_knowledge store')
              (snd removed) /\
    last_updated store' = stamp /\
    (within_caps store -> within_caps store') /\
    prune_patterns parse stamp now store' min_confidence max_age_days
    = (store', (0, 0, 0)).
Proof.
  intros parse stamp now store min_confidence max_age_days minc cut store' removed.
  unfold store', removed, prune_patterns. fold minc cut.
  cbn [fst snd success_patterns anti_patterns domain_knowledge last_updated created
       generations_completed].
  split; [apply prune_list_spec|]. split; [apply prune_list_spec|].
  split; [apply prune_list_spec|]. split; [done|]. split.
  - unfold within_caps. cbn [success_patterns anti_patterns domain_knowledge].
    intros (H1 & H2 & H3).
    pose proof (sublist_length _ _ (proj1 (prune_list_spec parse minc cut (success_patterns store)))).
    pose proof (sublist_length _ _ (proj1 (prune_list_spec parse minc cut (anti_patterns store)))).
    pose proof (sublist_length _ _ (proj1 (prune_list_spec parse minc cut (domain_knowledge store)))).
    lia.
  - rewrite !prune_list_again. f_equal. f_equal; [f_equal|]; lia.
Qed.

End KnowledgePruneFacts.
